(** * CulturalTruth MCP: bias detection, compliance scoring and the
      resilience wrappers, embedded from the TypeScript sources.

    Conventions of the embedding.
    - A JavaScript string is the list of its UTF-16 code units ([jsstring]).
    - A JavaScript number that carries a score, a weight or a confidence is
      an exact rational ([Q]); the decimal constants of the source are
      written as they appear there.  A division whose divisor may be zero is
      [js_div], which has the IEEE results NaN and the infinities.
    - Clock readings ([Date.now()]) are explicit arguments, or are read off
      the state of the outside world by a function [clock]; milliseconds.
    - A method that reads or writes fields of [this] takes the object's state
      and returns the new one; a method that can throw returns a [result]. *)

From Stdlib Require Import List String Ascii Bool Arith NArith ZArith.
From Stdlib Require Import QArith Qminmax Qround Lqa Lia Permutation Sorted.
Import ListNotations.

Set Implicit Arguments.

(* ================================================================== *)
(** ** Strings and characters *)

Definition jsstring := list N.

(** The code units of an ASCII literal. *)
Definition js (s : string) : jsstring :=
  map N_of_ascii (list_ascii_of_string s).

Definition in_range (lo hi c : N) : bool := (lo <=? c)%N && (c <=? hi)%N.

(** [\w]: ASCII letters, digits and the underscore. *)
Definition isWordChar (c : N) : bool :=
  in_range 48 57 c || in_range 65 90 c || in_range 97 122 c || (c =? 95)%N.

(** [\s]: ECMAScript WhiteSpace and LineTerminator code units. *)
Definition isWhiteSpace (c : N) : bool :=
  in_range 9 13 c || (c =? 32)%N || (c =? 160)%N || (c =? 5760)%N
  || in_range 8192 8202 c || (c =? 8232)%N || (c =? 8233)%N
  || (c =? 8239)%N || (c =? 8287)%N || (c =? 12288)%N || (c =? 65279)%N.

(** Canonicalize of a regular expression with flag [i] and without flag [u]:
    the upper-case mapping, never from a non-ASCII to an ASCII code unit.
    Every expression of this program holds ASCII characters only, for which
    two code units are equal after Canonicalize exactly when they are equal
    after this ASCII mapping. *)
Definition canonicalize (c : N) : N :=
  if in_range 97 122 c then (c - 32)%N else c.

(** [String.prototype.toLowerCase] on the code units it is applied to here
    (matches of the bias expressions: ASCII letters, digits, hyphens and
    white space). *)
Definition toLowerCase (s : jsstring) : jsstring :=
  map (fun c => if in_range 65 90 c then (c + 32)%N else c) s.

(** [str.slice(0, n)]. *)
Definition slice0 (n : N) (s : jsstring) : jsstring :=
  firstn (N.to_nat n) s.

(* ================================================================== *)
(** ** Regular expressions

    The fragment of ECMAScript regular expressions the sources use: a
    sequence of atoms, matched by backtracking in priority order. *)

Inductive atom : Type :=
| WordBoundary                      (* \b *)
| Chars (s : jsstring)              (* a literal sequence *)
| Alt (alts : list jsstring)        (* (?:a|b|...) of literals *)
| OneOf (p : N -> bool)             (* one character of a class *)
| Star (p : N -> bool)              (* class*, greedy *)
| Plus (p : N -> bool)              (* class+, greedy *)
| LazyStar (p : N -> bool)          (* class*?, lazy *)
| Repeat (p : N -> bool) (lo : nat) (hi : option nat).
                                    (* class{lo,hi} or class{lo,}, greedy *)

Inductive item : Type :=
| One (a : atom)
| StarSeq (body : list atom).       (* (?:a1 a2 ...)*, greedy *)

Coercion One : atom >-> item.

Record regex : Type := mkRegex {
  items : list item;
  ignoreCase : bool
}.

(** An expression without groups. *)
Definition plain (atoms : list atom) (ic : bool) : regex :=
  mkRegex (map One atoms) ic.

(** A position in the subject: the code unit before it, the number of code
    units consumed since the start of the attempt, and what follows. *)
Record pos : Type := mkPos {
  before : option N;
  consumed : nat;
  rest : jsstring
}.

Definition char_eq (ic : bool) (a b : N) : bool :=
  if ic then (canonicalize a =? canonicalize b)%N else (a =? b)%N.

Definition is_word (o : option N) : bool :=
  match o with Some c => isWordChar c | None => false end.

(** Advance over a literal, if it is a prefix of what follows. *)
Fixpoint eat (ic : bool) (lit : jsstring) (p : pos) : option pos :=
  match lit with
  | [] => Some p
  | a :: lit' =>
      match rest p with
      | c :: s' =>
          if char_eq ic a c
          then eat ic lit' (mkPos (Some c) (S (consumed p)) s')
          else None
      | [] => None
      end
  end.

(** The positions after 0, 1, ..., n characters of the class, where n is
    the longest run (shortest first). *)
Fixpoint runs (cls : N -> bool) (b : option N) (k : nat) (s : jsstring)
  : list pos :=
  mkPos b k s ::
  match s with
  | c :: s' => if cls c then runs cls (Some c) (S k) s' else []
  | [] => []
  end.

Definition step (ic : bool) (a : atom) (p : pos) : list pos :=
  match a with
  | WordBoundary =>
      if xorb (is_word (before p)) (is_word (hd_error (rest p)))
      then [p] else []
  | Chars s =>
      match eat ic s p with Some q => [q] | None => [] end
  | Alt alts =>
      flat_map (fun s => match eat ic s p with Some q => [q] | None => [] end)
               alts
  | OneOf cls =>
      match rest p with
      | c :: s' => if cls c then [mkPos (Some c) (S (consumed p)) s'] else []
      | [] => []
      end
  | Star cls => rev (runs cls (before p) (consumed p) (rest p))
  | Plus cls => rev (tl (runs cls (before p) (consumed p) (rest p)))
  | LazyStar cls => runs cls (before p) (consumed p) (rest p)
  | Repeat cls lo hi =>
      rev (filter
             (fun q =>
                let n := consumed q - consumed p in
                (lo <=? n) && match hi with Some h => n <=? h | None => true end)
             (runs cls (before p) (consumed p) (rest p)))
  end%nat.

(** All the ways a sequence of atoms matches from [p], best first. *)
Fixpoint run_atoms (ic : bool) (r : list atom) (p : pos) : list pos :=
  match r with
  | [] => [p]
  | a :: r' => flat_map (run_atoms ic r') (step ic a p)
  end.

(** Greedy iteration of a group: one more round of the body, as long as it
    consumes something, before giving up the round.  Every round consumes
    a code unit, so [fuel] above the length of the rest is never used up. *)
Fixpoint star (ic : bool) (body : list atom) (fuel : nat) (p : pos)
  : list pos :=
  match fuel with
  | O => [p]
  | S fuel' =>
      flat_map
        (fun q =>
           if (consumed p <? consumed q)%nat then star ic body fuel' q else [])
        (run_atoms ic body p)
      ++ [p]
  end.

Fixpoint run (ic : bool) (r : list item) (p : pos) : list pos :=
  match r with
  | [] => [p]
  | One a :: r' => flat_map (run ic r') (step ic a p)
  | StarSeq body :: r' =>
      flat_map (run ic r') (star ic body (S (List.length (rest p))) p)
  end.

(** The length of the match at one position, if there is one. *)
Definition exec (re : regex) (b : option N) (s : jsstring) : option nat :=
  match run (ignoreCase re) (items re) (mkPos b 0 s) with
  | q :: _ => Some (consumed q)
  | [] => None
  end.

(** The matches of a global expression, left to right and without overlap;
    [skip] counts the code units still inside the previous match. *)
Fixpoint matchAll (re : regex) (b : option N) (skip : nat) (s : jsstring)
  : list jsstring :=
  match s with
  | [] =>
      match skip, exec re b [] with
      | O, Some _ => [[]]
      | _, _ => []
      end
  | c :: s' =>
      match skip with
      | S k => matchAll re (Some c) k s'
      | O =>
          match exec re b s with
          | Some len => firstn len s :: matchAll re (Some c) (pred len) s'
          | None => matchAll re (Some c) 0 s'
          end
      end
  end.

(** [str.match(re)] for a global [re]: [null] when nothing matches. *)
Definition str_match (re : regex) (s : jsstring) : option (list jsstring) :=
  match matchAll re None 0 s with
  | [] => None
  | ms => Some ms
  end.

(** [str.replace(re, by)] for a global [re]. *)
Fixpoint replaceAll (re : regex) (by_ : jsstring) (b : option N) (skip : nat)
  (s : jsstring) : jsstring :=
  match s with
  | [] =>
      match skip, exec re b [] with
      | O, Some _ => by_
      | _, _ => []
      end
  | c :: s' =>
      match skip with
      | S k => replaceAll re by_ (Some c) k s'
      | O =>
          match exec re b s with
          | Some (S k) => by_ ++ replaceAll re by_ (Some c) k s'
          | Some O => by_ ++ c :: replaceAll re by_ (Some c) 0 s'
          | None => c :: replaceAll re by_ (Some c) 0 s'
          end
      end
  end.

Definition replace (re : regex) (by_ : jsstring) (s : jsstring) : jsstring :=
  replaceAll re by_ None 0 s.

(** [re.test(str)] for an expression without the global flag. *)
Fixpoint test_from (re : regex) (b : option N) (s : jsstring) : bool :=
  match exec re b s with
  | Some _ => true
  | None =>
      match s with
      | [] => false
      | c :: s' => test_from re (Some c) s'
      end
  end.

Definition test (re : regex) (s : jsstring) : bool := test_from re None s.

(* ================================================================== *)
(** ** Numbers, exceptions *)

Open Scope Q_scope.

Definition Qltb (a b : Q) : bool := negb (Qle_bool b a).

Definition of_nat (n : nat) : Q := inject_Z (Z.of_nat n).

(** The value of a JavaScript division: a rational, NaN or an infinity. *)
Inductive jsnumber : Type :=
| Num (q : Q)
| NaN
| PosInfinity
| NegInfinity.

Definition js_div (a b : Q) : jsnumber :=
  if Qeq_bool b 0 then
    if Qeq_bool a 0 then NaN
    else if Qltb 0 a then PosInfinity else NegInfinity
  else Num (a / b).

Definition is_finite (x : jsnumber) : bool :=
  match x with Num _ => true | _ => false end.

Inductive exn : Type :=
| TypeError (msg : string)
| Error (msg : string).

Inductive result (A : Type) : Type :=
| Ok (a : A)
| Throw (e : exn).

Arguments Ok {A} a.
Arguments Throw {A} e.

(* ================================================================== *)
(** ** types/index.ts and config/environment.ts *)

Inductive EnvironmentMode : Type := Hackathon | Production.
Inductive DetectionLevel : Type := strict | moderate | lenient.
Inductive Severity : Type := low | medium | high | critical.
Definition RiskLevel : Type := Severity.

Inductive BiasType : Type :=
| gender_exclusive
| age_discriminatory
| racial_proxy
| cultural_insensitive
| accessibility_barrier.

Record Thresholds : Type := {
  th_critical : Q;
  th_high : Q;
  th_medium : Q
}.

Record Features : Type := {
  demographicAnalysis : bool;
  culturalTrends : bool;
  geospatialInsights : bool;
  batchProcessing : bool;
  realtimeSignals : bool
}.

Record EnvironmentConfig : Type := {
  mode : EnvironmentMode;
  enableFullPotential : bool;
  apiEndpoint : string;
  biasDetectionLevel : DetectionLevel;
  complianceThresholds : Thresholds;
  enabledFeatures : Features
}.

Definition DEFAULT_HACKATHON_CONFIG : EnvironmentConfig := {|
  mode := Hackathon;
  enableFullPotential := false;
  apiEndpoint := "https://hackathon.api.qloo.com";
  biasDetectionLevel := lenient;
  complianceThresholds :=
    {| th_critical := 20; th_high := 40; th_medium := 60 |};
  enabledFeatures := {|
    demographicAnalysis := false;
    culturalTrends := true;
    geospatialInsights := false;
    batchProcessing := true;
    realtimeSignals := true |}
|}.

Definition DEFAULT_PRODUCTION_CONFIG : EnvironmentConfig := {|
  mode := Production;
  enableFullPotential := true;
  apiEndpoint := "https://api.qloo.com";
  biasDetectionLevel := strict;
  complianceThresholds :=
    {| th_critical := 10; th_high := 25; th_medium := 50 |};
  enabledFeatures := {|
    demographicAnalysis := true;
    culturalTrends := true;
    geospatialInsights := true;
    batchProcessing := true;
    realtimeSignals := true |}
|}.

(** An entry of [BIAS_PATTERNS]. *)
Record Rule : Type := {
  r_type : BiasType;
  r_pattern : regex;
  r_severity : Severity;
  r_suggestions : list string;
  r_regulation_risk : list string;
  detectionLevel : list DetectionLevel
}.

Record BiasPattern : Type := {
  type : BiasType;
  pattern : regex;
  severity : Severity;
  suggestions : list string;
  regulation_risk : list string;
  matches : list jsstring;
  confidence : Q
}.

Record ComplianceScore : Type := {
  euAiAct : Q;
  section508 : Q;
  gdpr : Q;
  riskLevel : RiskLevel;
  overallScore : Q;
  regulations_triggered : list string
}.

(* ================================================================== *)
(** ** bias-detector.ts *)

(** [\b(?:w1|w2|...)\b] with flags [gi]. *)
Definition bounded (alts : list string) : regex :=
  plain [WordBoundary; Alt (map js alts); WordBoundary] true.

Definition BIAS_PATTERNS : list (string * Rule) := [
  ("guys_only"%string, {|
     r_type := gender_exclusive;
     r_pattern := bounded ["guys"; "bros"; "brotherhood"; "manpower";
       "man-hours"; "policeman"; "fireman"; "chairman"; "businessman"];
     r_severity := medium;
     r_suggestions := ["team"; "colleagues"; "workforce"; "person-hours";
       "police officer"; "firefighter"; "chairperson"; "businessperson"];
     r_regulation_risk := ["EU_AI_ACT"; "EEOC"; "TITLE_VII"];
     detectionLevel := [strict; moderate] |});
  ("gendered_roles"%string, {|
     r_type := gender_exclusive;
     r_pattern := plain
       [WordBoundary; Alt (map js ["rockstar"; "ninja"; "guru"; "wizard"]);
        Plus isWhiteSpace;
        Alt (map js ["developer"; "engineer"; "programmer"]); WordBoundary]
       true;
     r_severity := medium;
     r_suggestions := ["skilled developer"; "expert engineer";
       "experienced programmer"; "talented developer"];
     r_regulation_risk := ["EU_AI_ACT"; "EEOC"];
     detectionLevel := [strict] |});
  ("age_proxy"%string, {|
     r_type := age_discriminatory;
     r_pattern := bounded ["young"; "recent graduate"; "digital native";
       "energy"; "fresh"; "millennial"; "gen-z"; "generation z"; "under 30";
       "20-something"];
     r_severity := high;
     r_suggestions := ["qualified"; "experienced"; "skilled"; "motivated";
       "enthusiastic"; "tech-savvy"];
     r_regulation_risk := ["ADEA"; "EU_AI_ACT"; "AGE_DISCRIMINATION_ACT"];
     detectionLevel := [strict; moderate; lenient] |});
  ("senior_bias"%string, {|
     r_type := age_discriminatory;
     r_pattern := bounded ["overqualified"; "too experienced"; "set in ways";
       "old school"; "traditional methods"; "not tech-savvy"];
     r_severity := high;
     r_suggestions := ["highly qualified"; "extensively experienced";
       "proven methods"; "established practices"];
     r_regulation_risk := ["ADEA"; "EU_AI_ACT"];
     detectionLevel := [strict; moderate] |});
  ("location_proxy"%string, {|
     r_type := racial_proxy;
     r_pattern := bounded ["94110"; "94102"; "10025"; "10128"; "90210";
       "90211"; "60601"; "60605"; "inner city"; "urban"; "suburban";
       "from the hood"; "ghetto"; "barrio"];
     r_severity := critical;
     r_suggestions := ["location-flexible"; "remote-friendly";
       "multiple locations"; "urban area"; "metropolitan area"];
     r_regulation_risk := ["FAIR_HOUSING_ACT"; "GDPR"; "EU_AI_ACT";
       "CIVIL_RIGHTS_ACT"];
     detectionLevel := [strict; moderate; lenient] |});
  ("education_proxy"%string, {|
     r_type := racial_proxy;
     r_pattern := bounded ["ivy league"; "tier-1 college"; "top university";
       "elite school"; "prestigious institution"];
     r_severity := medium;
     r_suggestions := ["accredited university"; "relevant education";
       "qualified institution"; "recognized degree"];
     r_regulation_risk := ["EU_AI_ACT"; "EEOC"];
     detectionLevel := [strict] |});
  ("cultural_assumption"%string, {|
     r_type := cultural_insensitive;
     r_pattern := bounded ["native speaker"; "american values";
       "western mindset"; "traditional family"; "christian values";
       "normal family"; "typical american"];
     r_severity := high;
     r_suggestions := ["fluent in"; "aligned with company values";
       "diverse perspectives"; "inclusive values"; "family-friendly"];
     r_regulation_risk := ["TITLE_VII"; "EU_AI_ACT"; "RELIGIOUS_FREEDOM_ACT"];
     detectionLevel := [strict; moderate] |});
  ("name_bias"%string, {|
     r_type := cultural_insensitive;
     r_pattern := bounded ["easy to pronounce name"; "american sounding name";
       "simple name"; "anglicized name"];
     r_severity := critical;
     r_suggestions := ["clear communication skills";
       "professional presentation"; "effective communication"];
     r_regulation_risk := ["TITLE_VII"; "EU_AI_ACT";
       "NATIONAL_ORIGIN_DISCRIMINATION"];
     detectionLevel := [strict; moderate; lenient] |});
  ("ability_exclusive"%string, {|
     r_type := accessibility_barrier;
     r_pattern := bounded ["must be able to lift"; "perfect vision";
       "hearing required"; "no accommodations"; "physically demanding";
       "requires standing"; "manual dexterity required"];
     r_severity := critical;
     r_suggestions := ["with or without accommodation";
       "reasonable accommodations provided"; "essential job functions"];
     r_regulation_risk := ["ADA"; "SECTION_508"; "EU_ACCESSIBILITY_ACT";
       "REHABILITATION_ACT"];
     detectionLevel := [strict; moderate; lenient] |});
  ("cognitive_bias"%string, {|
     r_type := accessibility_barrier;
     r_pattern := bounded ["fast-paced environment"; "high-stress";
       "multitasking required"; "quick thinking"; "rapid response";
       "immediate decisions"];
     r_severity := medium;
     r_suggestions := ["dynamic environment"; "collaborative setting";
       "efficient workflow"; "effective decision-making"];
     r_regulation_risk := ["ADA"; "EU_ACCESSIBILITY_ACT"];
     detectionLevel := [strict] |})
]%string.

(** The five expressions of [sanitizeInput], in the order they are applied. *)
Definition re_tag : regex :=                       (* /<[^>]*>/g *)
  plain [Chars (js "<"); Star (fun c => negb (c =? 62)%N); Chars (js ">")]
          false.
Definition re_comment : regex :=                   (* /<!--[\s\S]*?-->/g *)
  plain [Chars (js "<!--"); LazyStar (fun _ => true); Chars (js "-->")]
          false.
Definition re_javascript : regex :=                (* /javascript:/gi *)
  plain [Chars (js "javascript:")] true.
Definition re_data : regex :=                      (* /data:/gi *)
  plain [Chars (js "data:")] true.
Definition re_unsafe : regex :=                    (* /[^\w\s\-_.]/g *)
  plain [OneOf (fun c => negb (isWordChar c || isWhiteSpace c
                                 || (c =? 45)%N || (c =? 95)%N
                                 || (c =? 46)%N))]
          false.

Definition sanitizeInput (text : jsstring) : jsstring :=
  slice0 10000%N
    (replace re_unsafe (js " ")
      (replace re_data []
        (replace re_javascript []
          (replace re_comment []
            (replace re_tag [] text))))).

Definition contextWords (biasType : BiasType) : list string :=
  match biasType with
  | gender_exclusive => ["hiring"; "job"; "position"; "role"; "team"]
  | age_discriminatory => ["candidate"; "applicant"; "hire"; "employee"]
  | racial_proxy => ["location"; "area"; "neighborhood"; "zip"]
  | cultural_insensitive => ["background"; "culture"; "family"; "values"]
  | accessibility_barrier => ["requirement"; "must"; "able"; "capacity"]
  end%string.

Definition calculateConfidence (ms : list jsstring) (text : jsstring)
  (biasType : BiasType) : Q :=
  let confidence := 0.7 in
  let confidence := confidence + Qmin (of_nat (List.length ms) * 0.1) 0.2 in
  let relevantWords := contextWords biasType in
  let contextMatches :=
    List.length (filter
      (fun word =>
         test (plain [WordBoundary; Chars (js word); WordBoundary] true)
              text)
      relevantWords) in
  let confidence := confidence + of_nat contextMatches * 0.05 in
  Qmin confidence 1.

Definition level_eqb (a b : DetectionLevel) : bool :=
  match a, b with
  | strict, strict | moderate, moderate | lenient, lenient => true
  | _, _ => false
  end.

Definition includes (ls : list DetectionLevel) (l : DetectionLevel) : bool :=
  existsb (level_eqb l) ls.

(** [Array.prototype.sort(cmp)]: stable; [a] stays before [b] unless
    [cmp a b > 0]. *)
Section Sort.
Variable A : Type.
Variable cmp : A -> A -> Q.

Fixpoint insert (x : A) (l : list A) : list A :=
  match l with
  | [] => [x]
  | y :: l' => if Qltb 0 (cmp x y) then y :: insert x l' else x :: l
  end.

Fixpoint sort (l : list A) : list A :=
  match l with
  | [] => []
  | x :: l' => insert x (sort l')
  end.
End Sort.

(** The environment-specific adjustment of a confidence (lines 180-189). *)
Definition adjustConfidence (cfg : EnvironmentConfig) (sev : Severity)
  (confidence : Q) : Q :=
  match mode cfg with
  | Hackathon =>
      match sev with
      | low | medium => confidence * 0.8
      | _ => confidence
      end
  | Production => confidence * 1.1
  end.

(** The body of the loop of [detectBiasPatterns] for one registry entry:
    what it pushes on [detectedBias]. *)
Definition detectRule (cfg : EnvironmentConfig) (sanitizedText : jsstring)
  (rule : Rule) : list BiasPattern :=
  if negb (includes (detectionLevel rule) (biasDetectionLevel cfg)) then []
  else
    match str_match (r_pattern rule) sanitizedText with
    | None => []
    | Some ms =>
        let confidence := calculateConfidence ms sanitizedText (r_type rule) in
        let adjustedConfidence :=
          adjustConfidence cfg (r_severity rule) confidence in
        [ {| type := r_type rule;
             pattern := r_pattern rule;
             severity := r_severity rule;
             suggestions := r_suggestions rule;
             regulation_risk := r_regulation_risk rule;
             matches := map toLowerCase ms;
             confidence := Qmin adjustedConfidence 1 |} ]
    end.

(** [detectBiasPatterns]; [config] is the static field of the class, unset
    until [setConfig] runs. *)
Definition detectBiasPatterns (config : option EnvironmentConfig)
  (text : jsstring) : result (list BiasPattern) :=
  let sanitizedText := sanitizeInput text in
  match config with
  | None => Throw (TypeError "Cannot read properties of undefined")
  | Some cfg =>
      let detectedBias :=
        flat_map (fun entry => detectRule cfg sanitizedText (snd entry))
                 BIAS_PATTERNS in
      Ok (sort (fun a b => confidence b - confidence a) detectedBias)
  end.

Definition severityMultiplier (m : EnvironmentMode) (s : Severity) : Q :=
  match m with
  | Hackathon =>
      match s with low => 2 | medium => 8 | high => 20 | critical => 35 end
  | Production =>
      match s with low => 3 | medium => 10 | high => 25 | critical => 45 end
  end.

Record Penalty : Type := {
  p_euAiAct : Q;
  p_section508 : Q;
  p_gdpr : Q
}.

Definition regulationPenalty (m : EnvironmentMode) : Penalty :=
  match m with
  | Hackathon => {| p_euAiAct := 15; p_section508 := 12; p_gdpr := 18 |}
  | Production => {| p_euAiAct := 25; p_section508 := 20; p_gdpr := 30 |}
  end.

(** [Set<string>], in insertion order. *)
Definition set_has (reg : string) (regulations : list string) : bool :=
  existsb (String.eqb reg) regulations.

Definition set_add (regulations : list string) (reg : string) : list string :=
  if set_has reg regulations then regulations else regulations ++ [reg].

Definition hasRegulationRisk (regulations targetRegulations : list string)
  : bool :=
  existsb (fun reg => set_has reg regulations) targetRegulations.

Definition euAiActRegulations : list string := ["EU_AI_ACT"]%string.
Definition section508Regulations : list string :=
  ["SECTION_508"; "ADA"; "REHABILITATION_ACT"; "EU_ACCESSIBILITY_ACT"]%string.
Definition gdprRegulations : list string :=
  ["GDPR"; "FAIR_HOUSING_ACT"; "CIVIL_RIGHTS_ACT"]%string.

(** The loop over [biasPatterns] (lines 246-252): the pair of
    [totalDeductions] and [regulations]. *)
Definition accumulate (m : EnvironmentMode) (biasPatterns : list BiasPattern)
  (init : Q * list string) : Q * list string :=
  fold_left
    (fun acc bias =>
       let weightedDeduction :=
         severityMultiplier m (severity bias) * confidence bias in
       (fst acc + weightedDeduction,
        fold_left set_add (regulation_risk bias) (snd acc)))
    biasPatterns init.

Definition calculateComplianceScore (config : option EnvironmentConfig)
  (biasPatterns : list BiasPattern) : result ComplianceScore :=
  match config with
  | None => Throw (TypeError "Cannot read properties of undefined")
  | Some cfg =>
      let acc := accumulate (mode cfg) biasPatterns (0, []) in
      let totalDeductions := fst acc in
      let regulations := snd acc in
      let baseScore := Qmax 0 (100 - totalDeductions) in
      let penalty := regulationPenalty (mode cfg) in
      let euAiAct_ :=
        if hasRegulationRisk regulations euAiActRegulations
        then Qmax 0 (baseScore - p_euAiAct penalty) else baseScore in
      let section508_ :=
        if hasRegulationRisk regulations section508Regulations
        then Qmax 0 (baseScore - p_section508 penalty) else baseScore in
      let gdpr_ :=
        if hasRegulationRisk regulations gdprRegulations
        then Qmax 0 (baseScore - p_gdpr penalty) else baseScore in
      let overall := Qmin (Qmin euAiAct_ section508_) gdpr_ in
      let thresholds := complianceThresholds cfg in
      let risk :=
        if Qltb overall (th_critical thresholds) then critical
        else if Qltb overall (th_high thresholds) then high
        else if Qltb overall (th_medium thresholds) then medium
        else low in
      Ok {| euAiAct := euAiAct_;
            section508 := section508_;
            gdpr := gdpr_;
            riskLevel := risk;
            overallScore := overall;
            regulations_triggered := regulations |}
  end.

Definition scenarioA : jsstring :=
  js "We're looking for young, energetic guys... Native English speakers preferred.".


(** *** Entity extraction *)

Fixpoint str_eqb (a b : jsstring) : bool :=
  match a, b with
  | [], [] => true
  | x :: a', y :: b' => (x =? y)%N && str_eqb a' b'
  | _, _ => false
  end.

Definition str_in (s : jsstring) (l : list jsstring) : bool :=
  existsb (str_eqb s) l.

(** [String.prototype.toUpperCase] on ASCII letters, white space and the
    characters the sanitizer keeps. *)
Definition toUpperCase (s : jsstring) : jsstring := map canonicalize s.

Fixpoint dropWhile (p : N -> bool) (s : jsstring) : jsstring :=
  match s with
  | c :: s' => if p c then dropWhile p s' else s
  | [] => []
  end.

Definition trim (s : jsstring) : jsstring :=
  rev (dropWhile isWhiteSpace (rev (dropWhile isWhiteSpace s))).

Definition isUpper (c : N) : bool := in_range 65 90 c.
Definition isAlpha (c : N) : bool := in_range 65 90 c || in_range 97 122 c.
Definition isQuote (c : N) : bool := (c =? 34)%N || (c =? 39)%N.

Definition ENTITY_STOPLIST : list jsstring := map js [
  "THE"; "AND"; "OR"; "BUT"; "FOR"; "WITH"; "THIS"; "THAT"; "FROM"; "HAVE";
  "WILL"; "WOULD"; "COULD"; "SHOULD"; "ABOUT"; "AFTER"; "BEFORE"; "DURING";
  "WHILE"; "WHERE"; "WHEN"; "WHAT"; "WHO"; "HOW"; "WHY"; "WHICH"; "SOME";
  "MANY"; "MOST"; "ALL"; "EACH"; "EVERY"; "ANY"; "NO"; "NONE"; "BOTH";
  "EITHER"; "NEITHER" ]%string.

Definition ENTITY_PATTERNS : list regex := [
  (* a quote, [A-Z], two to fifty characters that are no quotes, a quote;
     flag g *)
  plain [OneOf isQuote; OneOf isUpper;
         Repeat (fun c => negb (isQuote c)) 2%nat (Some 50%nat);
         OneOf isQuote] false;
  (* /\b[A-Z][a-zA-Z]{2,}(?:\s+[A-Z][a-zA-Z]+)*\b/g *)
  mkRegex [One WordBoundary; One (OneOf isUpper); One (Repeat isAlpha 2%nat None);
           StarSeq [Plus isWhiteSpace; OneOf isUpper; Plus isAlpha];
           One WordBoundary] false;
  (* /\b(?:Marvel|Disney|...)\s+[A-Z][a-zA-Z\s]+/g *)
  plain [WordBoundary;
         Alt (map js ["Marvel"; "Disney"; "Netflix"; "HBO"; "Amazon"; "Apple";
                      "Google"; "Microsoft"; "Sony"; "Warner"]%string);
         Plus isWhiteSpace; OneOf isUpper;
         Plus (fun c => isAlpha c || isWhiteSpace c)] false
].

Definition isCommonWord (word : jsstring) : bool :=
  str_in (toUpperCase word) (map js [
    "COMPANY"; "BUSINESS"; "SERVICE"; "PRODUCT"; "SYSTEM"; "PROCESS"; "METHOD";
    "APPROACH"; "SOLUTION"; "TECHNOLOGY"; "PLATFORM"; "APPLICATION";
    "SOFTWARE"; "HARDWARE"; "DATA" ]%string).

(** [Set<string>.add], in insertion order. *)
Definition entities_add (entities : list jsstring) (e : jsstring)
  : list jsstring :=
  if str_in e entities then entities else entities ++ [e].

Definition extractEntities (text : jsstring) : list jsstring :=
  let sanitizedText := sanitizeInput text in
  let entities :=
    fold_left
      (fun entities pattern_ =>
         fold_left
           (fun entities m =>
              let cleaned := trim (replace (plain [OneOf isQuote] false) [] m) in
              if (3 <=? List.length cleaned)%nat
                 && (List.length cleaned <=? 50)%nat
                 && negb (str_in (toUpperCase cleaned) ENTITY_STOPLIST)
                 && negb (isCommonWord cleaned)
              then entities_add entities cleaned
              else entities)
           (matchAll pattern_ None 0 sanitizedText) entities)
      ENTITY_PATTERNS [] in
  firstn 10 entities.

(* ================================================================== *)
(** ** utils/lru-cache.ts *)

(** A JavaScript [Map] with string keys: the entries in insertion order. *)
Section JsMap.
Variable V : Type.

Fixpoint map_get (key : jsstring) (m : list (jsstring * V)) : option V :=
  match m with
  | [] => None
  | (k, v) :: m' => if str_eqb key k then Some v else map_get key m'
  end.

Definition map_delete (key : jsstring) (m : list (jsstring * V))
  : list (jsstring * V) :=
  filter (fun kv => negb (str_eqb key (fst kv))) m.

(** [Map.prototype.set]: an existing key keeps its place. *)
Fixpoint map_set (key : jsstring) (v : V) (m : list (jsstring * V))
  : list (jsstring * V) :=
  match m with
  | [] => [(key, v)]
  | (k, v') :: m' =>
      if str_eqb key k then (k, v) :: m' else (k, v') :: map_set key v m'
  end.
End JsMap.

Module LRUCache.
Section Cache.
Variable T : Type.

Record entry : Type := {
  value : T;
  timestamp : Z;
  accessCount : nat
}.

Record t : Type := {
  cache : list (jsstring * entry);
  maxSize : Z;
  ttl : Z
}.

Definition create (maxSize_ ttlMs : Z) : t :=
  {| cache := []; maxSize := maxSize_; ttl := ttlMs |}.

Definition with_cache (c : t) (m : list (jsstring * entry)) : t :=
  {| cache := m; maxSize := maxSize c; ttl := ttl c |}.

Definition get (now : Z) (key : jsstring) (c : t) : option T * t :=
  match map_get key (cache c) with
  | None => (None, c)
  | Some item =>
      if (now - timestamp item >? ttl c)%Z
      then (None, with_cache c (map_delete key (cache c)))
      else
        let item' := {| value := value item;
                        timestamp := timestamp item;
                        accessCount := S (accessCount item) |} in
        (Some (value item),
         with_cache c (map_set key item' (map_delete key (cache c))))
  end.

(** The loop of [set]: drop the first key while the map is at capacity. *)
Fixpoint evict (limit : Z) (m : list (jsstring * entry))
  : list (jsstring * entry) :=
  match m with
  | [] => []
  | _ :: m' =>
      if (Z.of_nat (List.length m) >=? limit)%Z then evict limit m' else m
  end.

Definition set (now : Z) (key : jsstring) (v : T) (c : t) : t :=
  with_cache c
    (map_set key {| value := v; timestamp := now; accessCount := 1 |}
             (evict (maxSize c) (cache c))).

Definition size (c : t) : nat := List.length (cache c).

Definition clear (c : t) : t := with_cache c [].

Definition keys (c : t) : list jsstring := map fst (cache c).

Record Stats : Type := {
  stat_size : nat;
  hitRate : Q
}.

Definition getStats (c : t) : Stats :=
  let totalAccesses :=
    fold_left (fun sum item => (sum + accessCount (snd item))%nat)
              (cache c) 0%nat in
  {| stat_size := List.length (cache c);
     hitRate :=
       if (0 <? totalAccesses)%nat
       then of_nat (List.length (cache c)) / of_nat totalAccesses
       else 0 |}.

(** The uses a caller makes of one cache, one after the other. *)
Inductive op : Type :=
| OpGet (now : Z) (key : jsstring)
| OpSet (now : Z) (key : jsstring) (v : T)
| OpClear.

Definition perform (c : t) (o : op) : t :=
  match o with
  | OpGet now key => snd (get now key c)
  | OpSet now key v => set now key v c
  | OpClear => clear c
  end.

Definition run (ops : list op) (c : t) : t := fold_left perform ops c.
End Cache.
End LRUCache.

(* ================================================================== *)
(** ** utils/circuit-breaker.ts *)

Module CircuitBreaker.
Inductive State : Type := closed | open | half_open.

Record t : Type := {
  failures : nat;
  lastFailureTime : Z;
  threshold : Z;
  timeout : Z;
  state : State;
  successCount : nat
}.

Definition create (threshold_ timeout_ : Z) : t :=
  {| failures := 0; lastFailureTime := 0; threshold := threshold_;
     timeout := timeout_; state := closed; successCount := 0 |}.

Definition onSuccess (b : t) : t :=
  match state b with
  | half_open =>
      let successCount_ := S (successCount b) in
      if (3 <=? successCount_)%nat
      then {| failures := 0; lastFailureTime := lastFailureTime b;
              threshold := threshold b; timeout := timeout b;
              state := closed; successCount := successCount_ |}
      else {| failures := failures b; lastFailureTime := lastFailureTime b;
              threshold := threshold b; timeout := timeout b;
              state := half_open; successCount := successCount_ |}
  | _ =>
      {| failures := 0; lastFailureTime := lastFailureTime b;
         threshold := threshold b; timeout := timeout b;
         state := closed; successCount := successCount b |}
  end.

Definition onFailure (now : Z) (b : t) : t :=
  let failures_ := S (failures b) in
  {| failures := failures_; lastFailureTime := now;
     threshold := threshold b; timeout := timeout b;
     state := if (Z.of_nat failures_ >=? threshold b)%Z
              then open else state b;
     successCount := successCount b |}.

(** The guard at the head of [execute]: [None] when it throws, otherwise
    the state the wrapped operation runs under. *)
Definition guard (now : Z) (b : t) : option t :=
  match state b with
  | open =>
      if (now - lastFailureTime b >? timeout b)%Z
      then Some {| failures := failures b;
                   lastFailureTime := lastFailureTime b;
                   threshold := threshold b; timeout := timeout b;
                   state := half_open; successCount := 0 |}
      else None
  | _ => Some b
  end.

(** Outside the closed state the failure count has reached the
    threshold. *)
Definition tripped (b : t) : Prop :=
  state b <> closed -> (Z.of_nat (failures b) >= threshold b)%Z.

Section Execute.
(** [W] is everything the wrapped operation can read and change,
    its clock included. *)
Variables W T : Type.
Variable clock : W -> Z.

Definition execute (fn : W -> result T * W) (b : t) (w : W)
  : result T * t * W :=
  match guard (clock w) b with
  | None =>
      (Throw (Error "Circuit breaker is OPEN - too many failures"), b, w)
  | Some b1 =>
      let (r, w') := fn w in
      match r with
      | Ok v => (Ok v, onSuccess b1, w')
      | Throw e => (Throw e, onFailure (clock w') b1, w')
      end
  end.

(** A sequence of calls, one after the other; each comes with what
    happens to [W] since the call before (time passing, at least). *)
Definition call : Type := ((W -> W) * (W -> result T * W))%type.

Fixpoint executeAll (calls : list call) (b : t) (w : W) : t * W :=
  match calls with
  | [] => (b, w)
  | (pause, fn) :: calls' =>
      let '(_, b', w') := execute fn b (pause w) in
      executeAll calls' b' w'
  end.

(** A wrapped operation that rejects, or resolves, whenever it runs. *)
Definition fails (fn : W -> result T * W) : Prop :=
  forall w, exists e w', fn w = (Throw e, w').

Definition succeeds (fn : W -> result T * W) : Prop :=
  forall w, exists v w', fn w = (Ok v, w').

Definition state_after (calls : list call) (b : t) (w : W) : State :=
  state (fst (executeAll calls b w)).
End Execute.
End CircuitBreaker.

(* ================================================================== *)
(** ** utils/rate-limiter.ts *)

Module SimpleRateLimiter.
Record t : Type := {
  tokens : Z;
  lastRefill : Z;
  tokensPerInterval : Z;
  interval : Z
}.

Definition create (now : Z) (tokensPerInterval_ : Z) (interval_ : string)
  : t :=
  {| tokens := tokensPerInterval_;
     lastRefill := now;
     tokensPerInterval := tokensPerInterval_;
     interval := if String.eqb interval_ "minute" then 60000 else 1000 |}.

(** [removeTokens]: the new state, and how the promise settles: [None]
    when it is already resolved, [Some waitTime] when a timer of
    [waitTime] milliseconds resolves it. *)
Definition removeTokens (now : Z) (count : Z) (l : t) : t * option Z :=
  let timePassed := (now - lastRefill l)%Z in
  let l1 :=
    if (timePassed >=? interval l)%Z
    then {| tokens := tokensPerInterval l; lastRefill := now;
            tokensPerInterval := tokensPerInterval l;
            interval := interval l |}
    else l in
  if (tokens l1 >=? count)%Z
  then ({| tokens := (tokens l1 - count)%Z; lastRefill := lastRefill l1;
           tokensPerInterval := tokensPerInterval l1;
           interval := interval l1 |}, None)
  else (l1, Some (interval l - timePassed)%Z).

(** Calls issued one after the other, each at its own clock reading:
    the final state and, per call, the instant its promise resolves. *)
Fixpoint removeTokensAll (calls : list (Z * Z)) (l : t) : t * list Z :=
  match calls with
  | [] => (l, [])
  | (now, count) :: calls' =>
      let (l', w) := removeTokens now count l in
      let resume := match w with None => now | Some d => (now + d)%Z end in
      let (l'', rs) := removeTokensAll calls' l' in
      (l'', resume :: rs)
  end.
End SimpleRateLimiter.

(* ================================================================== *)
(** ** The client (EnhancedQlooClient) *)

Record QlooEntity : Type := {
  name : jsstring;
  entity_id : string;
  e_type : string;
  subtype : option string
}.

Record DemographicAnalysis : Type := {
  demographic : string;
  entities : list QlooEntity;
  d_confidence : Q;
  culturalRelevance : Q
}.

(** The lines [generateMitigationActions] and the error path write, one
    constructor per message template, with the values the template
    interpolates. *)
Inductive Action : Type :=
| NoBiasDetected
| ImmediateActionRequired (n : nat)
| ReplaceMatches (ms : list jsstring) (risk : list string)
| HighPriority (n : nat)
| ConsiderInstead (alternatives : list string) (firstMatch : option jsstring)
| Moderate (n : nat)
| MinorSuggestions (n : nat)
| DoNotPublish
| AddressHighRisk
| AcceptableWithImprovements
| MeetsStandards
| SystemErrorOccurred.

Record AuditTrail : Type := {
  timestamp : Z;
  sessionId : string;
  userId : option string;
  originalContent : jsstring;
  contentHash : string;
  detectedBias : list BiasPattern;
  qlooEntities : list string;
  complianceScore : ComplianceScore;
  mitigationActions : list Action;
  processingTime : Z;
  apiCallsCount : nat;
  cacheHits : nat
}.

Record AnalysisResult : Type := {
  biasAnalysis : list BiasPattern;
  a_complianceScore : ComplianceScore;
  culturalEntities : list QlooEntity;
  auditTrail : AuditTrail;
  demographics : option (list DemographicAnalysis)
}.

Record BatchAuditRequest : Type := {
  content : jsstring;
  user_id : option string;
  include_demographics : option bool
}.

Record BatchEntry : Type := {
  index : nat;
  b_biasAnalysis : list BiasPattern;
  b_complianceScore : ComplianceScore;
  b_culturalEntities : list QlooEntity;
  b_processingTime : Z;
  error : option string
}.

Record BatchSummary : Type := {
  totalProcessed : nat;
  avgComplianceScore : jsnumber;
  criticalIssuesCount : nat;
  s_processingTime : Z
}.

Record BatchAuditResult : Type := {
  success : bool;
  results : list BatchEntry;
  summary : BatchSummary
}.

Definition severity_eqb (a b : Severity) : bool :=
  match a, b with
  | low, low | medium, medium | high, high | critical, critical => true
  | _, _ => false
  end.

Definition riskScores (s : Severity) : nat :=
  match s with low => 1 | medium => 2 | high => 3 | critical => 4 end.

Definition generateMitigationActions (biasPatterns : list BiasPattern)
  : list Action :=
  match biasPatterns with
  | [] => [NoBiasDetected]
  | _ =>
      let bySeverity s :=
        filter (fun b => severity_eqb (severity b) s) biasPatterns in
      let criticalBias := bySeverity critical in
      let highBias := bySeverity high in
      let mediumBias := bySeverity medium in
      let lowBias := bySeverity low in
      let overallRisk :=
        fold_right Nat.max 0%nat
                   (map (fun b => riskScores (severity b)) biasPatterns) in
      (match criticalBias with
       | [] => []
       | _ => ImmediateActionRequired (List.length criticalBias)
              :: map (fun b => ReplaceMatches (matches b) (regulation_risk b))
                     criticalBias
       end)
      ++ (match highBias with
          | [] => []
          | _ => HighPriority (List.length highBias)
                 :: map (fun b => ConsiderInstead (firstn 2 (suggestions b))
                                                  (hd_error (matches b)))
                        highBias
          end)
      ++ (match mediumBias with
          | [] => []
          | _ => [Moderate (List.length mediumBias)]
          end)
      ++ (match lowBias with
          | [] => []
          | _ => [MinorSuggestions (List.length lowBias)]
          end)
      ++ [if (4 <=? overallRisk)%nat then DoNotPublish
          else if (3 <=? overallRisk)%nat then AddressHighRisk
          else if (2 <=? overallRisk)%nat then AcceptableWithImprovements
          else MeetsStandards]
  end.

(** [Array.prototype.slice(start)]. *)
Definition js_slice (A : Type) (start : Z) (l : list A) : list A :=
  let len := Z.of_nat (List.length l) in
  let k := if (start <? 0)%Z then Z.max (len + start) 0 else Z.min start len in
  skipn (Z.to_nat k) l.

(** Lexicographic order on code units: the default order of
    [Array.prototype.sort] on strings. *)
Fixpoint str_ltb (a b : jsstring) : bool :=
  match a, b with
  | _, [] => false
  | [], _ :: _ => true
  | x :: a', y :: b' => (x <? y)%N || ((x =? y)%N && str_ltb a' b')
  end.

Definition join (sep : jsstring) (l : list jsstring) : jsstring :=
  match l with
  | [] => []
  | s :: l' => s ++ flat_map (fun t => sep ++ t) l'
  end.

Definition message (e : exn) : string :=
  match e with TypeError m => m | Error m => m end.

Fixpoint mapM (A B : Type) (f : A -> result B) (l : list A)
  : result (list B) :=
  match l with
  | [] => Ok []
  | x :: l' =>
      match f x with
      | Throw e => Throw e
      | Ok y =>
          match mapM f l' with
          | Throw e => Throw e
          | Ok ys => Ok (y :: ys)
          end
      end
  end.

Section Client.
(** What lies outside the client: the entities the remote service
    returns, and the state [W] of everything the client reaches through
    calls that do not touch its audit trail (the remote service, the rate
    limiter, the circuit breaker, the demographic cache, the clock and
    the random generator). *)
Variables RawEntity W : Type.
Variable clock : W -> Z.
Variable sha256 : jsstring -> string.
Variable generateSessionId : W -> string * W.
(** [sanitizeOutput] reads fields of what the service sent and throws
    when they are not there. *)
Variable sanitizeOutput : RawEntity -> result QlooEntity.
(** The rate-limited searches for up to five names, settled together:
    the entities of the successful ones and the number of requests. *)
Variable searchAll : list jsstring -> W -> list RawEntity * nat * W.
(** [getDemographicAnalysis], which catches its own errors: the
    analyses and the number of requests. *)
Variable getDemographicAnalysis :
  list QlooEntity -> W -> list DemographicAnalysis * nat * W.
Variable sleep : Z -> W -> W.
(** [parseInt(process.env.MAX_AUDIT_TRAILS || '1000')]. *)
Variable MAX_AUDIT_TRAILS : Z.

Record Client : Type := {
  config : EnvironmentConfig;
  (** the static field [EnhancedBiasDetector.config] *)
  detectorConfig : option EnvironmentConfig;
  entityCache : LRUCache.t (list RawEntity);
  auditTrails : list AuditTrail;
  apiCallCount : nat;
  world : W
}.

Definition isFeatureEnabled (c : Client)
  (feature : Features -> bool) : bool :=
  feature (enabledFeatures (config c)).

Definition addAuditTrail (trail : AuditTrail) (c : Client) : Client :=
  let pushed := auditTrails c ++ [trail] in
  {| config := config c;
     detectorConfig := detectorConfig c;
     entityCache := entityCache c;
     auditTrails :=
       if (Z.of_nat (List.length pushed) >? MAX_AUDIT_TRAILS)%Z
       then js_slice (- MAX_AUDIT_TRAILS) pushed
       else pushed;
     apiCallCount := apiCallCount c;
     world := world c |}.

(** [getAuditTrails(limit = 100)]. *)
Definition getAuditTrails (limit : option Z) (c : Client)
  : list AuditTrail :=
  let limit_ := match limit with Some l => l | None => 100%Z end in
  js_slice (- limit_) (auditTrails c).

Definition with_world (c : Client) (cache_ : LRUCache.t (list RawEntity))
  (calls : nat) (w : W) : Client :=
  {| config := config c;
     detectorConfig := detectorConfig c;
     entityCache := cache_;
     auditTrails := auditTrails c;
     apiCallCount := apiCallCount c + calls;
     world := w |}.

(** What the [try] block has computed when it reaches step 4. *)
Record Analysed : Type := {
  t_detectedBias : list BiasPattern;
  t_complianceScore : ComplianceScore;
  t_culturalEntities : list QlooEntity;
  t_demographics : list DemographicAnalysis
}.

(** Steps 2 and 3 (lines 176-208): the outcome, the local counter
    [cacheHits] and the client afterwards. *)
Definition culturalAnalysis (content_ : jsstring) (c : Client)
  : result (list QlooEntity * list DemographicAnalysis) * nat * Client :=
  let found := extractEntities content_ in
  match found with
  | [] => (Ok ([], []), 0%nat, c)
  | _ =>
      let sorted := sort (fun a b => if str_ltb b a then 1 else 0) found in
      let cacheKey := join (js "|") sorted in
      let (cachedResults, cache1) :=
        LRUCache.get (clock (world c)) cacheKey (entityCache c) in
      let '(sanitized, hits, c1) :=
        match cachedResults with
        | Some cached =>
            (mapM sanitizeOutput cached, 1%nat,
             with_world c cache1 0 (world c))
        | None =>
            let '(successfulResults, calls, w1) :=
              searchAll (firstn 5 sorted) (world c) in
            let cache2 :=
              LRUCache.set (clock w1) cacheKey successfulResults cache1 in
            (mapM sanitizeOutput successfulResults, 0%nat,
             with_world c cache2 calls w1)
        end in
      match sanitized with
      | Throw e => (Throw e, hits, c1)
      | Ok culturalEntities_ =>
          match culturalEntities_ with
          | _ :: _ =>
              if isFeatureEnabled c demographicAnalysis
              then
                let '(demographics_, calls, w2) :=
                  getDemographicAnalysis (firstn 3 culturalEntities_)
                                         (world c1) in
                (Ok (culturalEntities_, demographics_), hits,
                 with_world c1 (entityCache c1) calls w2)
              else (Ok (culturalEntities_, []), hits, c1)
          | [] => (Ok ([], []), hits, c1)
          end
      end
  end.

(** The [try] block up to step 3. *)
Definition tryBlock (content_ : jsstring) (c : Client)
  : result Analysed * nat * Client :=
  match detectBiasPatterns (detectorConfig c) content_ with
  | Throw e => (Throw e, 0%nat, c)
  | Ok detectedBias_ =>
      match calculateComplianceScore (detectorConfig c) detectedBias_ with
      | Throw e => (Throw e, 0%nat, c)
      | Ok complianceScore_ =>
          match culturalAnalysis content_ c with
          | (Throw e, hits, c1) => (Throw e, hits, c1)
          | (Ok (culturalEntities_, demographics_), hits, c1) =>
              (Ok {| t_detectedBias := detectedBias_;
                     t_complianceScore := complianceScore_;
                     t_culturalEntities := culturalEntities_;
                     t_demographics := demographics_ |}, hits, c1)
          end
      end
  end.

(** The record of the [catch] block. *)
Definition errorAuditTrail (now : Z) (sessionId_ : string)
  (userId_ : option string) (content_ : jsstring) (contentHash_ : string)
  (elapsed : Z) (calls hits : nat) : AuditTrail :=
  {| timestamp := now;
     sessionId := sessionId_;
     userId := userId_;
     originalContent := slice0 1000%N content_;
     contentHash := contentHash_;
     detectedBias := [];
     qlooEntities := [];
     complianceScore :=
       {| euAiAct := 0; section508 := 0; gdpr := 0; riskLevel := critical;
          overallScore := 0;
          regulations_triggered := ["SYSTEM_ERROR"%string] |};
     mitigationActions := [SystemErrorOccurred];
     processingTime := elapsed;
     apiCallsCount := calls;
     cacheHits := hits |}.

Definition analyzeContent (content_ : jsstring) (userId_ : option string)
  (c : Client) : result AnalysisResult * Client :=
  let startTime := clock (world c) in
  let (sessionId_, w0) := generateSessionId (world c) in
  let contentHash_ := sha256 content_ in
  let initialApiCalls := apiCallCount c in
  let c0 := with_world c (entityCache c) 0 w0 in
  match tryBlock content_ c0 with
  | (Ok a, hits, c1) =>
      let mitigationActions_ :=
        generateMitigationActions (t_detectedBias a) in
      let auditTrail_ :=
        {| timestamp := clock (world c1);
           sessionId := sessionId_;
           userId := userId_;
           originalContent := slice0 1000%N content_;
           contentHash := contentHash_;
           detectedBias := t_detectedBias a;
           qlooEntities := map entity_id (t_culturalEntities a);
           complianceScore := t_complianceScore a;
           mitigationActions := mitigationActions_;
           processingTime := (clock (world c1) - startTime)%Z;
           apiCallsCount := (apiCallCount c1 - initialApiCalls)%nat;
           cacheHits := hits |} in
      (Ok {| biasAnalysis := t_detectedBias a;
             a_complianceScore := t_complianceScore a;
             culturalEntities := t_culturalEntities a;
             auditTrail := auditTrail_;
             demographics :=
               match t_demographics a with
               | [] => None
               | ds => Some ds
               end |},
       addAuditTrail auditTrail_ c1)
  | (Throw e, hits, c1) =>
      let auditTrail_ :=
        errorAuditTrail (clock (world c1)) sessionId_ userId_ content_
          contentHash_ (clock (world c1) - startTime)%Z
          (apiCallCount c1 - initialApiCalls)%nat hits in
      (Throw e, addAuditTrail auditTrail_ c1)
  end.

(** *** batchCulturalAudit *)

Record BatchState : Type := {
  acc_results : list BatchEntry;
  totalComplianceScore : Q;
  acc_criticalIssuesCount : nat;
  acc_client : Client
}.

(** One request of a round (the callback of [batch.map]). *)
Definition auditOne (actualIndex : nat) (request : BatchAuditRequest)
  (s : BatchState) : BatchState :=
  match analyzeContent (content request) (user_id request) (acc_client s)
  with
  | (Ok analysis, c') =>
      {| acc_results := acc_results s ++ [
           {| index := actualIndex;
              b_biasAnalysis := biasAnalysis analysis;
              b_complianceScore := a_complianceScore analysis;
              b_culturalEntities := culturalEntities analysis;
              b_processingTime := processingTime (auditTrail analysis);
              error := None |}];
         totalComplianceScore :=
           totalComplianceScore s
           + overallScore (a_complianceScore analysis);
         acc_criticalIssuesCount :=
           if severity_eqb (riskLevel (a_complianceScore analysis)) critical
           then S (acc_criticalIssuesCount s)
           else acc_criticalIssuesCount s;
         acc_client := c' |}
  | (Throw e, c') =>
      {| acc_results := acc_results s ++ [
           {| index := actualIndex;
              b_biasAnalysis := [];
              b_complianceScore :=
                {| euAiAct := 0; section508 := 0; gdpr := 0;
                   riskLevel := critical; overallScore := 0;
                   regulations_triggered := ["PROCESSING_ERROR"%string] |};
              b_culturalEntities := [];
              b_processingTime := 0;
              error := Some (message e) |}];
         totalComplianceScore := totalComplianceScore s;
         acc_criticalIssuesCount := acc_criticalIssuesCount s;
         acc_client := c' |}
  end.

Fixpoint auditBatch (i : nat) (batch : list BatchAuditRequest)
  (s : BatchState) : BatchState :=
  match batch with
  | [] => s
  | request :: batch' => auditBatch (S i) batch' (auditOne i request s)
  end.

Definition batchSize : nat := 5.

(** The [for] loop: [pending] is [requests.slice(i)]; a round takes at
    least one request, so [fuel] above the number of requests is never
    used up.  The analyses of a round are started in order and the model
    runs each to its end before the next. *)
Fixpoint rounds (fuel : nat) (i : nat) (pending : list BatchAuditRequest)
  (s : BatchState) : BatchState :=
  match fuel, pending with
  | _, [] => s
  | O, _ => s
  | S fuel', _ =>
      let s1 := auditBatch i (firstn batchSize pending) s in
      let later := skipn batchSize pending in
      let s2 :=
        match later with
        | [] => s1
        | _ =>
            let c := acc_client s1 in
            {| acc_results := acc_results s1;
               totalComplianceScore := totalComplianceScore s1;
               acc_criticalIssuesCount := acc_criticalIssuesCount s1;
               acc_client :=
                 with_world c (entityCache c) 0 (sleep 1000 (world c)) |}
        end in
      rounds fuel' (i + batchSize) later s2
  end.

Definition batchCulturalAudit (requests : list BatchAuditRequest)
  (c : Client) : BatchAuditResult * Client :=
  let startTime := clock (world c) in
  let s :=
    rounds (S (List.length requests)) 0 requests
      {| acc_results := []; totalComplianceScore := 0;
         acc_criticalIssuesCount := 0; acc_client := c |} in
  let c' := acc_client s in
  ({| success := true;
      results := acc_results s;
      summary :=
        {| totalProcessed := List.length requests;
           avgComplianceScore :=
             js_div (totalComplianceScore s)
                    (of_nat (List.length requests));
           criticalIssuesCount := acc_criticalIssuesCount s;
           s_processingTime := (clock (world c') - startTime)%Z |} |},
   c').
End Client.

(** *** Reporting (generateComplianceReport, calculateAverageSeverity)

    A timestamp of a record stands for the instant its ISO string
    denotes, so that [new Date(trail.timestamp)] is the timestamp. *)

Definition biasType_eqb (a b : BiasType) : bool :=
  match a, b with
  | gender_exclusive, gender_exclusive
  | age_discriminatory, age_discriminatory
  | racial_proxy, racial_proxy
  | cultural_insensitive, cultural_insensitive
  | accessibility_barrier, accessibility_barrier => true
  | _, _ => false
  end.

Definition severityScores (s : Severity) : nat :=
  match s with low => 1 | medium => 2 | high => 3 | critical => 4 end.

(** [x >= q] for a JavaScript number [x]: false on NaN. *)
Definition js_geb (x : jsnumber) (q : Q) : bool :=
  match x with
  | Num a => Qle_bool q a
  | NaN => false
  | PosInfinity => true
  | NegInfinity => false
  end.

Definition calculateAverageSeverity (severities : list Severity)
  : Severity :=
  let avgScore :=
    js_div (of_nat (fold_left (fun sum s => (sum + severityScores s)%nat)
                              severities 0%nat))
           (of_nat (List.length severities)) in
  if js_geb avgScore 3.5 then critical
  else if js_geb avgScore 2.5 then high
  else if js_geb avgScore 1.5 then medium
  else low.

(** [Math.round]: the nearest integer, halves upwards. *)
Definition js_round (x : Q) : Q := inject_Z (Qfloor (x + (1 # 2))).

(** [acc[k] = (acc[k] || 0) + 1] on an object whose keys are risk
    levels, kept in the order the keys were first written. *)
Fixpoint bump (k : RiskLevel) (acc : list (RiskLevel * nat))
  : list (RiskLevel * nat) :=
  match acc with
  | [] => [(k, 1%nat)]
  | (k', n) :: acc' =>
      if severity_eqb k k' then (k', S n) :: acc'
      else (k', n) :: bump k acc'
  end.

Record Occurrence : Type := {
  count : nat;
  severities : list Severity
}.

(** One step of the inner [forEach] on the map [biasOccurrences]. *)
Fixpoint tally (key : BiasType) (s : Severity)
  (m : list (BiasType * Occurrence)) : list (BiasType * Occurrence) :=
  match m with
  | [] => [(key, {| count := 1; severities := [s] |})]
  | (k, entry) :: m' =>
      if biasType_eqb key k
      then (k, {| count := S (count entry);
                  severities := severities entry ++ [s] |}) :: m'
      else (k, entry) :: tally key s m'
  end.

Definition biasOccurrences (recentTrails : list AuditTrail)
  : list (BiasType * Occurrence) :=
  fold_left
    (fun m trail =>
       fold_left (fun m' bias => tally (type bias) (severity bias) m')
                 (detectedBias trail) m)
    recentTrails [].

Record TopIssue : Type := {
  biasType : BiasType;
  occurrences : nat;
  averageSeverity : Severity;
  regulationsTriggered : list string
}.

Definition topIssuesOf (recentTrails : list AuditTrail) : list TopIssue :=
  firstn 10
    (sort (fun a b => of_nat (occurrences b) - of_nat (occurrences a))
       (map (fun kv =>
               {| biasType := fst kv;
                  occurrences := count (snd kv);
                  averageSeverity :=
                    calculateAverageSeverity (severities (snd kv));
                  regulationsTriggered :=
                    fold_left set_add
                      (flat_map regulation_risk
                         (filter (fun b => biasType_eqb (type b) (fst kv))
                                 (flat_map detectedBias recentTrails)))
                      [] |})
            (biasOccurrences recentTrails))).

Record TrendPoint : Type := {
  date : string;
  averageScore : Q;
  highRiskCount : nat
}.

Record Period : Type := {
  start : string;
  end_ : string;
  days : Z
}.

Record ReportSummary : Type := {
  totalAnalyses : nat;
  averageComplianceScore : Q;
  riskDistribution : list (RiskLevel * nat);
  trendsOverTime : list TrendPoint
}.

Record ComplianceReport : Type := {
  period : Period;
  r_summary : ReportSummary;
  topIssues : list TopIssue;
  recommendations : list string
}.

Section Report.
Variables RawEntity W : Type.
Variable clock : W -> Z.
Variable toISOString : Z -> string.
(** [generateTrends] cuts the window into calendar days of the local
    time zone, and [generateRecommendations] counts regulation tags in
    the properties of an object: both are taken as they come. *)
Variable generateTrends : list AuditTrail -> Z -> Z -> list TrendPoint.
Variable generateRecommendations :
  list AuditTrail -> list TopIssue -> Q -> list string.

Definition recentTrailsOf (daysBack : Z) (c : Client RawEntity W)
  : list AuditTrail :=
  let cutoffDate := (clock (world c) - daysBack * 24 * 60 * 60 * 1000)%Z in
  filter (fun trail => (timestamp trail >? cutoffDate)%Z) (auditTrails c).

(** [generateComplianceReport(daysBack = 7)]. *)
Definition generateComplianceReport (daysBack : option Z)
  (c : Client RawEntity W) : ComplianceReport :=
  let daysBack_ := match daysBack with Some d => d | None => 7%Z end in
  let now := clock (world c) in
  let cutoffDate := (now - daysBack_ * 24 * 60 * 60 * 1000)%Z in
  let recentTrails := recentTrailsOf daysBack_ c in
  let riskDistribution_ :=
    fold_left (fun acc trail => bump (riskLevel (complianceScore trail)) acc)
              recentTrails [] in
  let avgScore :=
    if (0 <? List.length recentTrails)%nat
    then fold_left (fun sum trail => sum + overallScore (complianceScore trail))
                   recentTrails 0
         / of_nat (List.length recentTrails)
    else 0 in
  let topIssues_ := topIssuesOf recentTrails in
  let trendsOverTime_ := generateTrends recentTrails daysBack_ now in
  let recommendations_ :=
    generateRecommendations recentTrails topIssues_ avgScore in
  {| period := {| start := toISOString cutoffDate;
                  end_ := toISOString now;
                  days := daysBack_ |};
     r_summary := {| totalAnalyses := List.length recentTrails;
                     averageComplianceScore := js_round (avgScore * 100) / 100;
                     riskDistribution := riskDistribution_;
                     trendsOverTime := trendsOverTime_ |};
     topIssues := topIssues_;
     recommendations := recommendations_ |}.
End Report.

(* ================================================================== *)
(** ** Quantities the statements below speak about *)

(** Position [q] lies [consumed q - consumed p] code units after [p]. *)
Definition advances (p q : pos) : Prop :=
  (consumed q + List.length (rest q) = consumed p + List.length (rest p))%nat
  /\ (consumed p <= consumed q)%nat.

(** The sum the scoring loop adds to [totalDeductions]. *)
Definition deductions (m : EnvironmentMode) (F : list BiasPattern) : Q :=
  fold_right
    (fun b acc => severityMultiplier m (severity b) * confidence b + acc) 0 F.

(** A regulation tag occurs on some finding of the list. *)
Definition tagged (reg : string) (F : list BiasPattern) : bool :=
  existsb (fun b => existsb (String.eqb reg) (regulation_risk b)) F.

(** What [detectBiasPatterns] holds before it sorts. *)
Definition detected (cfg : EnvironmentConfig) (sanitizedText : jsstring)
  (rules : list (string * Rule)) : list BiasPattern :=
  flat_map (fun entry => detectRule cfg sanitizedText (snd entry)) rules.

(** The one mode is at most as strict as the other. *)
Definition mode_le (m1 m2 : EnvironmentMode) : Prop :=
  m1 = m2 \/ (m1 = Hackathon /\ m2 = Production).

(** Every registry entry active at level [lenient] is active at [strict]. *)
Definition strict_covers_lenient (rules : list (string * Rule)) : bool :=
  forallb
    (fun entry =>
       implb (includes (detectionLevel (snd entry)) lenient)
             (includes (detectionLevel (snd entry)) strict))
    rules.

(* ================================================================== *)
(** ** Sample inputs *)

(** A production configuration whose medium threshold lies above the
    score scale. *)
Definition config_medium_101 : EnvironmentConfig := {|
  mode := Production;
  enableFullPotential := true;
  apiEndpoint := "https://api.qloo.com";
  biasDetectionLevel := strict;
  complianceThresholds :=
    {| th_critical := 10; th_high := 25; th_medium := 101 |};
  enabledFeatures := enabledFeatures DEFAULT_PRODUCTION_CONFIG
|}.

Definition sample_finding (sev : Severity) (regs : list string) (c : Q)
  : BiasPattern := {|
  type := gender_exclusive;
  pattern := bounded ["guys"%string];
  severity := sev;
  suggestions := ["team"%string];
  regulation_risk := regs;
  matches := [js "guys"];
  confidence := c
|}.

(** A cache of capacity two, filled by inserting "a" at time 1 and "b" at
    time 2. *)
Definition sample_cache : LRUCache.t Z :=
  LRUCache.set 2 (js "b") 20%Z
    (LRUCache.set 1 (js "a") 10%Z (LRUCache.create Z 2 300000)).

Definition entry_a : LRUCache.entry Z :=
  {| LRUCache.value := 10%Z; LRUCache.timestamp := 1;
     LRUCache.accessCount := 1 |}.

(** Operations on a world that is just the clock: each takes one
    millisecond. *)
Definition op_fail : Z -> result unit * Z :=
  fun w => (Throw (Error "service unavailable"), (w + 1)%Z).

Definition op_ok : Z -> result unit * Z :=
  fun w => (Ok tt, (w + 1)%Z).

Definition no_pause : Z -> Z := fun w => w.
Definition pause_ms (d : Z) : Z -> Z := fun w => (w + d)%Z.

Definition read_clock : Z -> Z := fun w => w.

(** A breaker with threshold 2 and timeout 100 after two failed calls
    started at time 0. *)
Definition breaker_open : CircuitBreaker.t :=
  fst (CircuitBreaker.executeAll read_clock
         [(no_pause, op_fail); (no_pause, op_fail)]
         (CircuitBreaker.create 2 100) 0%Z).

(** A limiter of two tokens per second, created at time 0, after two
    calls have taken its tokens; and five more calls within the second. *)
Definition limiter_spent : SimpleRateLimiter.t :=
  fst (SimpleRateLimiter.removeTokensAll [(1, 1); (2, 1)]%Z
         (SimpleRateLimiter.create 0 2 "second")).

Definition five_calls : list (Z * Z) :=
  [(10, 1); (20, 1); (30, 1); (40, 1); (50, 1)]%Z.

Definition scenarioB : jsstring :=
  js "Our team is looking for qualified, experienced engineers.".

(** A client over a world that is just the clock, with a search that
    answers every name with one entity in five milliseconds. *)
Definition sample_entity : QlooEntity :=
  {| name := js "Marvel Studios"; entity_id := "E1";
     e_type := "urn:entity:brand"; subtype := None |}.

Definition sample_sanitize : unit -> result QlooEntity :=
  fun _ => Ok sample_entity.

Definition sample_sanitize_throws : unit -> result QlooEntity :=
  fun _ => Throw (TypeError "Cannot read properties of undefined").

Definition sample_search : list jsstring -> Z -> list unit * nat * Z :=
  fun names w => (map (fun _ => tt) names, List.length names, (w + 5)%Z).

Definition sample_demographics
  : list QlooEntity -> Z -> list DemographicAnalysis * nat * Z :=
  fun _ w => ([], 0%nat, w).

Definition sample_session : Z -> string * Z :=
  fun w => ("0123456789abcdef"%string, w).

Definition sample_hash : jsstring -> string := fun _ => "digest"%string.

Definition sample_client : Client unit Z :=
  {| config := DEFAULT_HACKATHON_CONFIG;
     detectorConfig := Some DEFAULT_HACKATHON_CONFIG;
     entityCache := LRUCache.create (list unit) 1000 300000;
     auditTrails := [];
     apiCallCount := 0;
     world := 0%Z |}.

Definition sample_content : jsstring := js "Young fans of Marvel Studios".

(* ================================================================== *)
(** ** Further notions the statements speak about *)

(** The characters [sanitizeInput] lets through. *)
Definition isSafeChar (c : N) : bool :=
  isWordChar c || isWhiteSpace c || (c =? 45)%N || (c =? 95)%N
  || (c =? 46)%N.

(** A literal that holds a character no safe character equals cannot be
    matched inside safe text. *)
Definition unsafe_literal (ic : bool) (lit : jsstring) : Prop :=
  Exists (fun a => forall c, char_eq ic a c = true -> isSafeChar c = false)
         lit.

(** The Hackathon configuration with the strict detection level, as
    [configure_environment] builds it. *)
Definition config_hackathon_strict : EnvironmentConfig := {|
  mode := Hackathon;
  enableFullPotential := false;
  apiEndpoint := "https://hackathon.api.qloo.com";
  biasDetectionLevel := strict;
  complianceThresholds := complianceThresholds DEFAULT_HACKATHON_CONFIG;
  enabledFeatures := enabledFeatures DEFAULT_HACKATHON_CONFIG
|}.

(** The last [n] elements of a list. *)
Definition lastn (A : Type) (n : nat) (l : list A) : list A :=
  skipn (List.length l - n) l.

(** The tokens handed out by a sequence of [removeTokens] calls: the
    counts of the calls whose promise was resolved at once. *)
Fixpoint granted (calls : list (Z * Z)) (l : SimpleRateLimiter.t) : Z :=
  match calls with
  | [] => 0%Z
  | (now, count) :: calls' =>
      let (l', w) := SimpleRateLimiter.removeTokens now count l in
      ((match w with None => count | Some _ => 0 end) + granted calls' l')%Z
  end.

(** The overall scores of the entries of a batch result, added up. *)
Definition scoreSum (es : list BatchEntry) : Q :=
  fold_right (fun e acc => overallScore (b_complianceScore e) + acc) 0 es.

(** The entry of an analysis that returned, with a critical risk level. *)
Definition analysedCritical (e : BatchEntry) : bool :=
  match error e with
  | None => severity_eqb (riskLevel (b_complianceScore e)) critical
  | Some _ => false
  end.

(** The entry written for a request whose analysis threw. *)
Definition failedEntry (e : BatchEntry) : Prop :=
  b_biasAnalysis e = [] /\ b_culturalEntities e = []
  /\ b_processingTime e = 0%Z
  /\ b_complianceScore e
     = {| euAiAct := 0; section508 := 0; gdpr := 0; riskLevel := critical;
          overallScore := 0;
          regulations_triggered := ["PROCESSING_ERROR"%string] |}.

(** What a stretch of the batch loop adds to its accumulators: [k]
    entries, numbered from [i] on, their scores and their critical
    analyses. *)
Definition appended (RawEntity W : Type) (s0 s : BatchState RawEntity W)
  (i k : nat) : Prop :=
  exists es,
    acc_results s = acc_results s0 ++ es
    /\ map index es = seq i k
    /\ totalComplianceScore s == totalComplianceScore s0 + scoreSum es
    /\ acc_criticalIssuesCount s
       = (acc_criticalIssuesCount s0
          + List.length (filter analysedCritical es))%nat
    /\ Forall (fun e => error e <> None -> failedEntry e) es
    /\ Forall (fun e => 0 <= overallScore (b_complianceScore e)
                        /\ overallScore (b_complianceScore e) <= 100) es.



(** The findings of the records of a window; those of one type; the
    records at one risk level; the count a distribution gives a level. *)
Definition findingsOf (trails : list AuditTrail) : list BiasPattern :=
  flat_map detectedBias trails.

Definition ofType (t : BiasType) (fs : list BiasPattern)
  : list BiasPattern :=
  filter (fun b => biasType_eqb (type b) t) fs.

Definition atLevel (lvl : RiskLevel) (trails : list AuditTrail)
  : list AuditTrail :=
  filter (fun t => severity_eqb (riskLevel (complianceScore t)) lvl) trails.

Definition countOf (lvl : RiskLevel) (dist : list (RiskLevel * nat)) : nat :=
  match find (fun kv => severity_eqb lvl (fst kv)) dist with
  | Some kv => snd kv
  | None => 0%nat
  end.

(** The order of the detection levels, laxest first. *)
Definition level_rank (l : DetectionLevel) : nat :=
  match l with lenient => 0 | moderate => 1 | strict => 2 end.

(** Every registry entry active at a level is active at the stricter
    levels. *)
Definition levels_nest (rules : list (string * Rule)) : bool :=
  forallb
    (fun entry =>
       let ls := detectionLevel (snd entry) in
       implb (includes ls lenient) (includes ls moderate)
       && implb (includes ls moderate) (includes ls strict))
    rules.

(** A list of findings in order of falling confidence. *)
Fixpoint descending (fs : list BiasPattern) : Prop :=
  match fs with
  | [] => True
  | f :: fs' =>
      Forall (fun g => confidence g <= confidence f) fs' /\ descending fs'
  end.


(** What an extracted entity name satisfies. *)
Definition entity_ok (e : jsstring) : bool :=
  (3 <=? List.length e)%nat && (List.length e <=? 50)%nat
  && negb (str_in (toUpperCase e) ENTITY_STOPLIST)
  && negb (isCommonWord e).

(* ================================================================== *)
(** * Properties *)

(** ** Matching consumes what it advances over

    A position reached from [p] has consumed as many more code units as
    its rest is shorter, so the fuel [star] is given always suffices. *)

Lemma eat_advances (ic : bool) (lit : jsstring) :
  forall p q, eat ic lit p = Some q -> advances p q.
Proof.
  induction lit as [|a lit IH]; intros p q; cbn [eat].
  - intros [= <-]. split; lia.
  - destruct p as [b k s]. cbn [rest consumed].
    destruct s as [|c s]; [discriminate|].
    destruct (char_eq ic a c); [|discriminate].
    intros H. apply IH in H. unfold advances in *. cbn [rest consumed] in *.
    cbn [List.length]. lia.
Qed.

Lemma runs_advances (cls : N -> bool) (s : jsstring) :
  forall b k q,
    In q (runs cls b k s) ->
    (consumed q + List.length (rest q) = k + List.length s)%nat
    /\ (k <= consumed q)%nat.
Proof.
  induction s as [|c s IH]; intros b k q; cbn [runs In].
  - intros [<-|[]]. cbn. lia.
  - intros [<-|H]; [cbn; lia|].
    destruct (cls c); [|destruct H].
    apply IH in H. cbn [List.length]. lia.
Qed.

Lemma step_advances (ic : bool) (a : atom) (p q : pos) :
  In q (step ic a p) -> advances p q.
Proof.
  destruct a as [|s|alts|cls|cls|cls|cls|cls lo hi]; cbn [step].
  - destruct (xorb _ _); [|intros []]. intros [<-|[]]. split; lia.
  - destruct (eat ic s p) eqn:E; [|intros []].
    intros [<-|[]]. now apply eat_advances in E.
  - rewrite in_flat_map. intros (s & _ & H).
    destruct (eat ic s p) eqn:E; [|destruct H].
    destruct H as [<-|[]]. now apply eat_advances in E.
  - destruct p as [b k s]. cbn [rest consumed].
    destruct s as [|c s]; [intros []|].
    destruct (cls c); [|intros []].
    intros [<-|[]]. unfold advances. cbn. lia.
  - rewrite <- in_rev. intros H. now apply runs_advances in H.
  - rewrite <- in_rev. intros H.
    assert (H' : In q (runs cls (before p) (consumed p) (rest p))).
    { destruct (runs cls (before p) (consumed p) (rest p));
        [destruct H | now right]. }
    now apply runs_advances in H'.
  - intros H. now apply runs_advances in H.
  - rewrite <- in_rev, filter_In. intros [H _].
    now apply runs_advances in H.
Qed.

Lemma run_atoms_advances (ic : bool) (r : list atom) :
  forall p q, In q (run_atoms ic r p) -> advances p q.
Proof.
  induction r as [|a r IH]; intros p q; cbn [run_atoms].
  - intros [<-|[]]. split; lia.
  - rewrite in_flat_map. intros (p' & H1 & H2).
    apply step_advances in H1. apply IH in H2.
    unfold advances in *. lia.
Qed.

Lemma flat_map_agree (A B : Type) (f g : A -> list B) (l : list A) :
  (forall a, In a l -> f a = g a) -> flat_map f l = flat_map g l.
Proof.
  induction l as [|a l IH]; intros H; [reflexivity|].
  cbn [flat_map]. rewrite (H a (or_introl eq_refl)), IH; [reflexivity|].
  intros b Hb. apply H. now right.
Qed.

Lemma star_fuel (ic : bool) (body : list atom) (fuel : nat) :
  forall p,
    (List.length (rest p) < fuel)%nat ->
    star ic body (S fuel) p = star ic body fuel p.
Proof.
  induction fuel as [|fuel IH]; intros p Hlen; [lia|].
  change (star ic body (S (S fuel)) p)
    with (flat_map
            (fun q => if (consumed p <? consumed q)%nat
                      then star ic body (S fuel) q else [])
            (run_atoms ic body p) ++ [p]).
  change (star ic body (S fuel) p)
    with (flat_map
            (fun q => if (consumed p <? consumed q)%nat
                      then star ic body fuel q else [])
            (run_atoms ic body p) ++ [p]).
  f_equal. apply flat_map_agree. intros q Hq.
  destruct (Nat.ltb_spec (consumed p) (consumed q)) as [L|L]; [|reflexivity].
  apply IH. apply run_atoms_advances in Hq. unfold advances in Hq. lia.
Qed.

(** ** Sets of regulation tags *)

Lemma set_has_app (reg : string) (a b : list string) :
  set_has reg (a ++ b) = set_has reg a || set_has reg b.
Proof. unfold set_has. apply existsb_app. Qed.

Lemma set_has_add (reg r : string) (regs : list string) :
  set_has reg (set_add regs r) = set_has reg regs || String.eqb reg r.
Proof.
  unfold set_add.
  destruct (set_has r regs) eqn:Hr.
  - destruct (String.eqb reg r) eqn:E.
    + apply String.eqb_eq in E. subst reg. rewrite Hr. reflexivity.
    + now rewrite orb_false_r.
  - rewrite set_has_app. cbn. now rewrite orb_false_r.
Qed.

Lemma set_has_fold_add (reg : string) (rs regs : list string) :
  set_has reg (fold_left set_add rs regs)
  = set_has reg regs || existsb (String.eqb reg) rs.
Proof.
  revert regs. induction rs as [|r rs IH]; intros regs;
    cbn [fold_left existsb].
  - now rewrite orb_false_r.
  - rewrite IH, set_has_add. now rewrite orb_assoc.
Qed.

(** ** The scoring loop *)

Lemma accumulate_cons (m : EnvironmentMode) (b : BiasPattern)
  (F : list BiasPattern) (t : Q) (regs : list string) :
  accumulate m (b :: F) (t, regs)
  = accumulate m F (t + severityMultiplier m (severity b) * confidence b,
                    fold_left set_add (regulation_risk b) regs).
Proof. reflexivity. Qed.

Lemma accumulate_app (m : EnvironmentMode) (F G : list BiasPattern)
  (init : Q * list string) :
  accumulate m (F ++ G) init = accumulate m G (accumulate m F init).
Proof. unfold accumulate. apply fold_left_app. Qed.

Lemma deductions_cons (m : EnvironmentMode) (b : BiasPattern)
  (F : list BiasPattern) :
  deductions m (b :: F)
  = severityMultiplier m (severity b) * confidence b + deductions m F.
Proof. reflexivity. Qed.

Lemma tagged_cons (reg : string) (b : BiasPattern) (F : list BiasPattern) :
  tagged reg (b :: F)
  = existsb (String.eqb reg) (regulation_risk b) || tagged reg F.
Proof. reflexivity. Qed.

Lemma accumulate_fst (m : EnvironmentMode) (F : list BiasPattern) :
  forall t regs, fst (accumulate m F (t, regs)) == t + deductions m F.
Proof.
  induction F as [|b F IH]; intros t regs.
  - cbn. lra.
  - rewrite accumulate_cons, IH, deductions_cons. lra.
Qed.

Lemma accumulate_snd (m : EnvironmentMode) (reg : string)
  (F : list BiasPattern) :
  forall t regs,
    set_has reg (snd (accumulate m F (t, regs)))
    = set_has reg regs || tagged reg F.
Proof.
  induction F as [|b F IH]; intros t regs.
  - cbn. now rewrite orb_false_r.
  - rewrite accumulate_cons, IH, set_has_fold_add, tagged_cons.
    now rewrite orb_assoc.
Qed.

Lemma severityMultiplier_pos (m : EnvironmentMode) (s : Severity) :
  0 < severityMultiplier m s.
Proof. destruct m, s; reflexivity. Qed.

Lemma deductions_app (m : EnvironmentMode) (F G : list BiasPattern) :
  deductions m (F ++ G) == deductions m F + deductions m G.
Proof.
  induction F as [|b F IH].
  - change (deductions m G == 0 + deductions m G). lra.
  - cbn [app]. rewrite !deductions_cons, IH. lra.
Qed.

Lemma deductions_nonneg (m : EnvironmentMode) (F : list BiasPattern) :
  (forall b, In b F -> 0 <= confidence b) -> 0 <= deductions m F.
Proof.
  induction F as [|b F IH]; intros H.
  - change (0 <= 0). lra.
  - rewrite deductions_cons.
    assert (0 <= confidence b) by (apply H; now left).
    assert (0 <= deductions m F) by (apply IH; intros; apply H; now right).
    pose proof (severityMultiplier_pos m (severity b)). nra.
Qed.

Lemma deductions_perm (m : EnvironmentMode) (F G : list BiasPattern) :
  Permutation F G -> deductions m F == deductions m G.
Proof.
  induction 1; rewrite ?deductions_cons.
  - reflexivity.
  - rewrite IHPermutation. reflexivity.
  - lra.
  - now rewrite IHPermutation1.
Qed.

Lemma tagged_app (reg : string) (F G : list BiasPattern) :
  tagged reg (F ++ G) = tagged reg F || tagged reg G.
Proof. unfold tagged. apply existsb_app. Qed.

Lemma tagged_perm (reg : string) (F G : list BiasPattern) :
  Permutation F G -> tagged reg F = tagged reg G.
Proof.
  induction 1; rewrite ?tagged_cons.
  - reflexivity.
  - now rewrite IHPermutation.
  - now rewrite !orb_assoc, (orb_comm (existsb _ (regulation_risk y))).
  - congruence.
Qed.

(** ** Sorting *)

Lemma insert_perm (A : Type) (cmp : A -> A -> Q) (x : A) (l : list A) :
  Permutation (insert cmp x l) (x :: l).
Proof.
  induction l as [|y l IH]; cbn.
  - apply Permutation_refl.
  - destruct (Qltb 0 (cmp x y)).
    + eapply perm_trans; [apply perm_skip, IH | apply perm_swap].
    + apply Permutation_refl.
Qed.

Lemma sort_perm (A : Type) (cmp : A -> A -> Q) (l : list A) :
  Permutation (sort cmp l) l.
Proof.
  induction l as [|x l IH]; cbn.
  - apply perm_nil.
  - eapply perm_trans; [apply insert_perm | now apply perm_skip].
Qed.

(** ** Scores fall as deductions and tags grow *)

Lemma bucket_le (f1 f2 : bool) (b1 b2 p1 p2 : Q) :
  (f1 = true -> f2 = true) -> 0 <= b1 -> b2 <= b1 -> 0 <= p1 -> p1 <= p2 ->
  (if f2 then Qmax 0 (b2 - p2) else b2)
  <= (if f1 then Qmax 0 (b1 - p1) else b1).
Proof.
  intros Hf Hb1 Hb Hp1 Hp. destruct f1, f2.
  - apply Q.max_le_compat_l. lra.
  - specialize (Hf eq_refl). discriminate.
  - apply Q.max_lub; lra.
  - exact Hb.
Qed.

Lemma hasRegulationRisk_mono (regs1 regs2 targets : list string) :
  (forall reg, set_has reg regs1 = true -> set_has reg regs2 = true) ->
  hasRegulationRisk regs1 targets = true ->
  hasRegulationRisk regs2 targets = true.
Proof.
  intros H. unfold hasRegulationRisk. rewrite !existsb_exists.
  intros (reg & Hin & Hreg). exists reg. auto.
Qed.

Lemma penalty_le (m1 m2 : EnvironmentMode) :
  mode_le m1 m2 ->
  (0 <= p_euAiAct (regulationPenalty m1)
   /\ p_euAiAct (regulationPenalty m1) <= p_euAiAct (regulationPenalty m2))
  /\ (0 <= p_section508 (regulationPenalty m1)
      /\ p_section508 (regulationPenalty m1)
         <= p_section508 (regulationPenalty m2))
  /\ (0 <= p_gdpr (regulationPenalty m1)
      /\ p_gdpr (regulationPenalty m1) <= p_gdpr (regulationPenalty m2)).
Proof.
  intros [<- | [-> ->]]; [destruct m1|]; cbn; repeat split; lra.
Qed.

Lemma overall_le (cfg1 cfg2 : EnvironmentConfig) (F1 F2 : list BiasPattern)
  (s1 s2 : ComplianceScore) :
  calculateComplianceScore (Some cfg1) F1 = Ok s1 ->
  calculateComplianceScore (Some cfg2) F2 = Ok s2 ->
  mode_le (mode cfg1) (mode cfg2) ->
  deductions (mode cfg1) F1 <= deductions (mode cfg2) F2 ->
  (forall reg, tagged reg F1 = true -> tagged reg F2 = true) ->
  overallScore s2 <= overallScore s1.
Proof.
  intros E1 E2 Hm Hd Ht.
  unfold calculateComplianceScore in E1, E2.
  injection E1 as <-. injection E2 as <-. cbn [overallScore].
  pose proof (accumulate_fst (mode cfg1) F1 0 []) as T1.
  pose proof (accumulate_fst (mode cfg2) F2 0 []) as T2.
  assert (R : forall reg,
             set_has reg (snd (accumulate (mode cfg1) F1 (0, []))) = true ->
             set_has reg (snd (accumulate (mode cfg2) F2 (0, []))) = true).
  { intros reg. rewrite !accumulate_snd. cbn [set_has existsb orb]. apply Ht. }
  set (a1 := accumulate (mode cfg1) F1 (0, [])) in *.
  set (a2 := accumulate (mode cfg2) F2 (0, [])) in *.
  assert (B : Qmax 0 (100 - fst a2) <= Qmax 0 (100 - fst a1)).
  { apply Q.max_le_compat_l. lra. }
  assert (B0 : 0 <= Qmax 0 (100 - fst a1)) by apply Q.le_max_l.
  destruct (penalty_le Hm) as ((P1 & Q1) & (P2 & Q2) & (P3 & Q3)).
  apply Q.min_le_compat; [apply Q.min_le_compat|]; apply bucket_le;
    try assumption.
  - exact (@hasRegulationRisk_mono (snd a1) (snd a2) euAiActRegulations R).
  - exact (@hasRegulationRisk_mono (snd a1) (snd a2) section508Regulations R).
  - exact (@hasRegulationRisk_mono (snd a1) (snd a2) gdprRegulations R).
Qed.

Lemma score_returns (cfg : EnvironmentConfig) (F : list BiasPattern) :
  exists s, calculateComplianceScore (Some cfg) F = Ok s.
Proof. unfold calculateComplianceScore. eexists. reflexivity. Qed.

(** ** Detection under the two default configurations *)

Lemma of_nat_nonneg (n : nat) : 0 <= of_nat n.
Proof.
  unfold of_nat. change 0 with (inject_Z 0). rewrite <- Zle_Qle. lia.
Qed.

Lemma calculateConfidence_nonneg (ms : list jsstring) (text : jsstring)
  (biasType : BiasType) :
  0 <= calculateConfidence ms text biasType.
Proof.
  unfold calculateConfidence. apply Q.min_glb; [|lra].
  match goal with |- context [of_nat ?n * 0.05] =>
    pose proof (of_nat_nonneg n) end.
  pose proof (of_nat_nonneg (List.length ms)).
  assert (0 <= Qmin (of_nat (List.length ms) * 0.1) 0.2)
    by (apply Q.min_glb; lra).
  lra.
Qed.

Section TwoModes.
Variables cfgH cfgP : EnvironmentConfig.
Hypothesis modeH : mode cfgH = Hackathon.
Hypothesis modeP : mode cfgP = Production.
Hypothesis levelH : biasDetectionLevel cfgH = lenient.
Hypothesis levelP : biasDetectionLevel cfgP = strict.
Variable text : jsstring.

Lemma detectRule_deductions (rule : Rule) :
  (includes (detectionLevel rule) lenient = true ->
   includes (detectionLevel rule) strict = true) ->
  0 <= deductions Hackathon (detectRule cfgH text rule)
  /\ deductions Hackathon (detectRule cfgH text rule)
     <= deductions Production (detectRule cfgP text rule).
Proof.
  intros Hcov. unfold detectRule. rewrite levelH, levelP.
  destruct (includes (detectionLevel rule) lenient) eqn:EL;
    [rewrite (Hcov eq_refl) | destruct (includes (detectionLevel rule) strict)];
    cbn [negb]; destruct (str_match (r_pattern rule) text) as [ms|];
    try (change (deductions Hackathon []) with 0;
         try change (deductions Production []) with 0; lra).
  - rewrite !deductions_cons. cbn [severity confidence].
    change (deductions Hackathon []) with 0.
    change (deductions Production []) with 0.
    unfold adjustConfidence. rewrite modeH, modeP.
    pose proof (calculateConfidence_nonneg ms text (r_type rule)) as Hc.
    set (c := calculateConfidence ms text (r_type rule)) in *.
    assert (P1 : Qmin c 1 <= Qmin (c * 1.1) 1)
      by (apply Q.min_le_compat_r; lra).
    assert (P2 : Qmin (c * 0.8) 1 <= Qmin (c * 1.1) 1)
      by (apply Q.min_le_compat_r; lra).
    assert (P3 : 0 <= Qmin c 1) by (apply Q.min_glb; lra).
    assert (P4 : 0 <= Qmin (c * 0.8) 1) by (apply Q.min_glb; lra).
    destruct (r_severity rule); cbn [severityMultiplier]; lra.
  - rewrite deductions_cons. cbn [severity confidence].
    change (deductions Hackathon []) with 0.
    change (deductions Production []) with 0.
    unfold adjustConfidence. rewrite modeP.
    pose proof (calculateConfidence_nonneg ms text (r_type rule)) as Hc.
    set (c := calculateConfidence ms text (r_type rule)) in *.
    assert (P3 : 0 <= Qmin (c * 1.1) 1) by (apply Q.min_glb; lra).
    destruct (r_severity rule); cbn [severityMultiplier]; lra.
Qed.

Lemma detectRule_tagged (rule : Rule) (reg : string) :
  (includes (detectionLevel rule) lenient = true ->
   includes (detectionLevel rule) strict = true) ->
  tagged reg (detectRule cfgH text rule) = true ->
  tagged reg (detectRule cfgP text rule) = true.
Proof.
  intros Hcov. unfold detectRule. rewrite levelH, levelP.
  destruct (includes (detectionLevel rule) lenient) eqn:EL;
    [rewrite (Hcov eq_refl) | cbn; discriminate].
  cbn [negb]. destruct (str_match (r_pattern rule) text) as [ms|];
    [|cbn; discriminate].
  rewrite !tagged_cons. cbn [regulation_risk]. auto.
Qed.

Lemma detected_deductions (rules : list (string * Rule)) :
  strict_covers_lenient rules = true ->
  0 <= deductions Hackathon (detected cfgH text rules)
  /\ deductions Hackathon (detected cfgH text rules)
     <= deductions Production (detected cfgP text rules).
Proof.
  induction rules as [|[key rule] rules IH]; intros Hcov.
  - change (detected cfgH text []) with (@nil BiasPattern).
    change (detected cfgP text []) with (@nil BiasPattern).
    change (deductions Hackathon []) with 0.
    change (deductions Production []) with 0. lra.
  - cbn [strict_covers_lenient forallb snd] in Hcov.
    apply andb_prop in Hcov as [Hr Hrs].
    change (detected cfgH text ((key, rule) :: rules))
      with (detectRule cfgH text rule ++ detected cfgH text rules).
    change (detected cfgP text ((key, rule) :: rules))
      with (detectRule cfgP text rule ++ detected cfgP text rules).
    rewrite !deductions_app.
    destruct (IH Hrs) as [I0 I1].
    destruct (@detectRule_deductions rule) as [D0 D1].
    { intros E. rewrite E in Hr. exact Hr. }
    lra.
Qed.

Lemma detected_tagged (rules : list (string * Rule)) (reg : string) :
  strict_covers_lenient rules = true ->
  tagged reg (detected cfgH text rules) = true ->
  tagged reg (detected cfgP text rules) = true.
Proof.
  induction rules as [|[key rule] rules IH]; intros Hcov.
  - cbn. discriminate.
  - cbn [strict_covers_lenient forallb snd] in Hcov.
    apply andb_prop in Hcov as [Hr Hrs].
    change (detected cfgH text ((key, rule) :: rules))
      with (detectRule cfgH text rule ++ detected cfgH text rules).
    change (detected cfgP text ((key, rule) :: rules))
      with (detectRule cfgP text rule ++ detected cfgP text rules).
    rewrite !tagged_app, !orb_true_iff. intros [H|H].
    + left. apply detectRule_tagged; [|exact H].
      intros E. rewrite E in Hr. exact Hr.
    + right. now apply IH.
Qed.
End TwoModes.

(** ** The empty input *)

Lemma sanitizeInput_empty : sanitizeInput [] = [].
Proof. vm_compute. reflexivity. Qed.

Lemma detectRule_no_match (cfg : EnvironmentConfig) (s : jsstring)
  (rule : Rule) :
  str_match (r_pattern rule) s = None -> detectRule cfg s rule = [].
Proof.
  intros E. unfold detectRule. rewrite E.
  now destruct (negb (includes (detectionLevel rule) (biasDetectionLevel cfg))).
Qed.

Lemma detected_no_match (cfg : EnvironmentConfig) (s : jsstring)
  (rules : list (string * Rule)) :
  forallb (fun entry =>
             match str_match (r_pattern (snd entry)) s with
             | None => true
             | Some _ => false
             end) rules = true ->
  detected cfg s rules = [].
Proof.
  induction rules as [|[key rule] rules IH]; intros H.
  - reflexivity.
  - cbn [forallb snd] in H. apply andb_prop in H as [Hr Hrs].
    change (detected cfg s ((key, rule) :: rules))
      with (detectRule cfg s rule ++ detected cfg s rules).
    rewrite (IH Hrs), detectRule_no_match; [reflexivity|].
    now destruct (str_match (r_pattern rule) s).
Qed.

Lemma detect_empty (cfg : EnvironmentConfig) :
  detectBiasPatterns (Some cfg) [] = Ok [].
Proof.
  unfold detectBiasPatterns. rewrite sanitizeInput_empty.
  change (flat_map (fun entry => detectRule cfg [] (snd entry)) BIAS_PATTERNS)
    with (detected cfg [] BIAS_PATTERNS).
  rewrite detected_no_match; [reflexivity|].
  vm_compute. reflexivity.
Qed.

Lemma score_empty (cfg : EnvironmentConfig) :
  exists sc,
    calculateComplianceScore (Some cfg) [] = Ok sc
    /\ euAiAct sc = 100 /\ section508 sc = 100 /\ gdpr sc = 100
    /\ overallScore sc = 100
    /\ regulations_triggered sc = []
    /\ riskLevel sc =
       (if Qltb 100 (th_critical (complianceThresholds cfg)) then critical
        else if Qltb 100 (th_high (complianceThresholds cfg)) then high
        else if Qltb 100 (th_medium (complianceThresholds cfg)) then medium
        else low).
Proof.
  eexists. split; [reflexivity|].
  cbn [euAiAct section508 gdpr overallScore regulations_triggered riskLevel].
  repeat split.
Qed.

Lemma Qltb_false (a b : Q) : b <= a -> Qltb a b = false.
Proof.
  intros H. unfold Qltb. apply negb_false_iff. now apply Qle_bool_iff.
Qed.

Lemma Qltb_true (a b : Q) : a < b -> Qltb a b = true.
Proof.
  intros H. unfold Qltb. apply negb_true_iff.
  destruct (Qle_bool b a) eqn:E; [|reflexivity].
  apply Qle_bool_iff in E. lra.
Qed.

(** ** Findings carry confidences between 0 and 1 *)

Lemma detectRule_confidence (cfg : EnvironmentConfig) (s : jsstring)
  (rule : Rule) :
  Forall (fun f => 0 <= confidence f /\ confidence f <= 1)
         (detectRule cfg s rule).
Proof.
  unfold detectRule.
  destruct (negb _); [constructor|].
  destruct (str_match _ _) as [ms|]; [|constructor].
  constructor; [|constructor]. cbn [confidence].
  split; [|apply Q.le_min_r].
  apply Q.min_glb; [|lra].
  pose proof (calculateConfidence_nonneg ms s (r_type rule)) as Hc.
  unfold adjustConfidence.
  destruct (mode cfg); [destruct (r_severity rule)|]; lra.
Qed.

Lemma detect_confidence (cfg : EnvironmentConfig) (text : jsstring)
  (fs : list BiasPattern) :
  detectBiasPatterns (Some cfg) text = Ok fs ->
  Forall (fun f => 0 <= confidence f /\ confidence f <= 1) fs.
Proof.
  unfold detectBiasPatterns. generalize BIAS_PATTERNS.
  intros rules E. injection E as <-.
  eapply Permutation_Forall; [apply Permutation_sym, sort_perm|].
  induction rules as [|entry rules IH]; [constructor|].
  cbn [flat_map]. apply Forall_app. split; [|exact IH].
  apply detectRule_confidence.
Qed.

(** ** The embedding on the sample texts *)

Example sanitize_scenarioA :
  sanitizeInput scenarioA
  = js "We re looking for young  energetic guys... Native English speakers preferred.".
Proof. vm_compute. reflexivity. Qed.

Example scenarioB_production :
  exists sc,
    detectBiasPatterns (Some DEFAULT_PRODUCTION_CONFIG) scenarioB = Ok []
    /\ calculateComplianceScore (Some DEFAULT_PRODUCTION_CONFIG) [] = Ok sc
    /\ overallScore sc == 100 /\ riskLevel sc = low.
Proof.
  eexists. split; [vm_compute; reflexivity|].
  split; [vm_compute; reflexivity|].
  split; vm_compute; reflexivity.
Qed.

(** ** The claims on detection and scoring *)

(** C1, as the code has it: under the default production configuration the
    scenario text yields exactly two findings, [gender_exclusive] matching
    "guys" and [age_discriminatory] matching "young", each with confidence
    0.88; the overall score is 44.2, below 50; and since 44.2 lies between
    the production thresholds 25 and 50 the risk level is [medium]. *)
Theorem scenarioA_production :
  exists fs sc,
    detectBiasPatterns (Some DEFAULT_PRODUCTION_CONFIG) scenarioA = Ok fs
    /\ calculateComplianceScore (Some DEFAULT_PRODUCTION_CONFIG) fs = Ok sc
    /\ map type fs = [gender_exclusive; age_discriminatory]
    /\ map matches fs = [[js "guys"]; [js "young"]]
    /\ Forall (fun f => confidence f == 0.88) fs
    /\ overallScore sc == 44.2
    /\ overallScore sc < 50
    /\ riskLevel sc = medium.
Proof.
  eexists. eexists.
  split; [vm_compute; reflexivity|].
  split; [vm_compute; reflexivity|].
  repeat split; try (vm_compute; reflexivity).
  repeat constructor; vm_compute; reflexivity.
Qed.

(** C1 as stated fails: the risk level of the scenario text under the
    default production configuration is neither [high] nor [critical]. *)
Lemma scenarioA_risk_not_high_or_critical :
  exists fs sc,
    detectBiasPatterns (Some DEFAULT_PRODUCTION_CONFIG) scenarioA = Ok fs
    /\ calculateComplianceScore (Some DEFAULT_PRODUCTION_CONFIG) fs = Ok sc
    /\ riskLevel sc <> high /\ riskLevel sc <> critical.
Proof.
  eexists. eexists.
  split; [vm_compute; reflexivity|].
  split; [vm_compute; reflexivity|].
  split; vm_compute; discriminate.
Qed.



(** C5: for every input text, the overall score under the default
    Production configuration is at most the overall score under the
    default Hackathon configuration (whether or not a finding triggers). *)
Theorem production_score_le_hackathon (text : jsstring) :
  exists fh fp sh sp,
    detectBiasPatterns (Some DEFAULT_HACKATHON_CONFIG) text = Ok fh
    /\ detectBiasPatterns (Some DEFAULT_PRODUCTION_CONFIG) text = Ok fp
    /\ calculateComplianceScore (Some DEFAULT_HACKATHON_CONFIG) fh = Ok sh
    /\ calculateComplianceScore (Some DEFAULT_PRODUCTION_CONFIG) fp = Ok sp
    /\ overallScore sp <= overallScore sh.
Proof.
  unfold detectBiasPatterns.
  set (s := sanitizeInput text).
  change (flat_map (fun entry => detectRule DEFAULT_HACKATHON_CONFIG s
                                   (snd entry)) BIAS_PATTERNS)
    with (detected DEFAULT_HACKATHON_CONFIG s BIAS_PATTERNS).
  change (flat_map (fun entry => detectRule DEFAULT_PRODUCTION_CONFIG s
                                   (snd entry)) BIAS_PATTERNS)
    with (detected DEFAULT_PRODUCTION_CONFIG s BIAS_PATTERNS).
  set (cmp := fun a b : BiasPattern => confidence b - confidence a).
  set (dh := detected DEFAULT_HACKATHON_CONFIG s BIAS_PATTERNS).
  set (dp := detected DEFAULT_PRODUCTION_CONFIG s BIAS_PATTERNS).
  destruct (score_returns DEFAULT_HACKATHON_CONFIG (sort cmp dh)) as [sh Eh].
  destruct (score_returns DEFAULT_PRODUCTION_CONFIG (sort cmp dp)) as [sp Ep].
  exists (sort cmp dh), (sort cmp dp), sh, sp.
  repeat split; try assumption.
  assert (C : strict_covers_lenient BIAS_PATTERNS = true)
    by (vm_compute; reflexivity).
  apply (overall_le Eh Ep).
  - right. split; reflexivity.
  - rewrite (deductions_perm _ (sort_perm cmp dh)),
            (deductions_perm _ (sort_perm cmp dp)).
    change (mode DEFAULT_HACKATHON_CONFIG) with Hackathon.
    change (mode DEFAULT_PRODUCTION_CONFIG) with Production.
    apply detected_deductions; solve [reflexivity | exact C].
  - intros reg.
    rewrite (tagged_perm reg (sort_perm cmp dh)),
            (tagged_perm reg (sort_perm cmp dp)).
    apply detected_tagged; solve [reflexivity | exact C].
Qed.


(** C8, as the code has it: for every configuration the empty string
    yields no finding, and the empty finding list scores 100 overall with
    no triggered regulation; the risk level is [low] when none of the
    configuration's three thresholds exceeds 100. *)
Theorem empty_input_scores_full (cfg : EnvironmentConfig) :
  th_critical (complianceThresholds cfg) <= 100 ->
  th_high (complianceThresholds cfg) <= 100 ->
  th_medium (complianceThresholds cfg) <= 100 ->
  detectBiasPatterns (Some cfg) [] = Ok []
  /\ exists sc,
       calculateComplianceScore (Some cfg) [] = Ok sc
       /\ overallScore sc == 100
       /\ riskLevel sc = low
       /\ regulations_triggered sc = [].
Proof.
  intros Hc Hh Hm. split; [apply detect_empty|].
  destruct (score_empty cfg) as (sc & E & _ & _ & _ & Ho & Hr & Hl).
  exists sc. repeat split; try assumption.
  - rewrite Ho. reflexivity.
  - rewrite Hl, !Qltb_false by assumption. reflexivity.
Qed.

Lemma empty_input_scores_full_witness :
  (th_critical (complianceThresholds DEFAULT_PRODUCTION_CONFIG) <= 100
   /\ th_high (complianceThresholds DEFAULT_PRODUCTION_CONFIG) <= 100
   /\ th_medium (complianceThresholds DEFAULT_PRODUCTION_CONFIG) <= 100)
  /\ (detectBiasPatterns (Some DEFAULT_PRODUCTION_CONFIG) [] = Ok []
      /\ exists sc,
           calculateComplianceScore (Some DEFAULT_PRODUCTION_CONFIG) []
           = Ok sc
           /\ overallScore sc == 100
           /\ riskLevel sc = low
           /\ regulations_triggered sc = []).
Proof.
  assert (Hc : th_critical (complianceThresholds DEFAULT_PRODUCTION_CONFIG)
               <= 100) by (vm_compute; discriminate).
  assert (Hh : th_high (complianceThresholds DEFAULT_PRODUCTION_CONFIG)
               <= 100) by (vm_compute; discriminate).
  assert (Hm : th_medium (complianceThresholds DEFAULT_PRODUCTION_CONFIG)
               <= 100) by (vm_compute; discriminate).
  split; [repeat split; assumption|].
  exact (@empty_input_scores_full DEFAULT_PRODUCTION_CONFIG Hc Hh Hm).
Defined.

(** C8 as stated fails: with a medium threshold of 101 the empty finding
    list scores 100 and yet its risk level is not [low]. *)
Lemma empty_findings_risk_follows_thresholds :
  exists sc,
    calculateComplianceScore (Some config_medium_101) [] = Ok sc
    /\ overallScore sc == 100
    /\ riskLevel sc = medium
    /\ riskLevel sc <> low.
Proof.
  eexists. split; [vm_compute; reflexivity|].
  repeat split; vm_compute; discriminate || reflexivity.
Qed.

(** ** The cache *)

Lemma str_eqb_eq (a b : jsstring) : str_eqb a b = true <-> a = b.
Proof.
  revert b. induction a as [|x a IH]; intros [|y b]; cbn;
    try (split; [discriminate | discriminate]); try tauto.
  rewrite andb_true_iff, N.eqb_eq, IH. split.
  - intros [-> ->]. reflexivity.
  - intros E. injection E as -> ->. auto.
Qed.

Lemma str_eqb_refl (a : jsstring) : str_eqb a a = true.
Proof. now apply str_eqb_eq. Qed.

Section MapFacts.
Variable V : Type.
Implicit Types m : list (jsstring * V).

Lemma map_set_fresh key (v : V) m :
  map_get key m = None -> map_set key v m = m ++ [(key, v)].
Proof.
  induction m as [|[k v'] m IH]; cbn; [reflexivity|].
  destruct (str_eqb key k); [discriminate|].
  intros H. now rewrite IH.
Qed.

Lemma map_get_delete_same key m : map_get key (map_delete key m) = None.
Proof.
  induction m as [|[k v] m IH]; cbn; [reflexivity|].
  destruct (str_eqb key k) eqn:E; cbn; [exact IH|].
  now rewrite E.
Qed.

Lemma map_get_delete_fresh key g m :
  map_get key m = None -> map_get key (map_delete g m) = None.
Proof.
  induction m as [|[k v] m IH]; cbn; [reflexivity|].
  destruct (str_eqb key k) eqn:E; [discriminate|].
  intros H. destruct (str_eqb g k); cbn; [auto|].
  rewrite E. auto.
Qed.

Lemma map_get_app_fresh key g (v : V) m :
  map_get key m = None -> str_eqb key g = false ->
  map_get key (m ++ [(g, v)]) = None.
Proof.
  intros H E. induction m as [|[k v'] m IH]; cbn in *.
  - now rewrite E.
  - destruct (str_eqb key k); [discriminate|]. auto.
Qed.

Lemma map_get_tl key m : map_get key m = None -> map_get key (tl m) = None.
Proof.
  destruct m as [|[k v] m]; cbn; [reflexivity|].
  now destruct (str_eqb key k).
Qed.

Lemma map_delete_cons g k (v : V) m :
  map_delete g ((k, v) :: m)
  = if str_eqb g k then map_delete g m else (k, v) :: map_delete g m.
Proof. unfold map_delete. cbn. now destruct (str_eqb g k). Qed.

Lemma map_delete_absent g m :
  ~ In g (map fst m) -> map_delete g m = m.
Proof.
  induction m as [|[k v] m IH]; [reflexivity|].
  cbn [map fst In]. intros H. rewrite map_delete_cons.
  destruct (str_eqb g k) eqn:E.
  - apply str_eqb_eq in E. subst k. tauto.
  - rewrite IH; tauto.
Qed.

Lemma map_delete_length g (v : V) m :
  NoDup (map fst m) -> map_get g m = Some v ->
  S (List.length (map_delete g m)) = List.length m.
Proof.
  induction m as [|[k v'] m IH]; [discriminate|].
  cbn [map fst map_get]. intros Hnd.
  inversion Hnd as [|? ? Hk Hm]; subst.
  rewrite map_delete_cons.
  destruct (str_eqb g k) eqn:E.
  - apply str_eqb_eq in E. subst k. intros _.
    now rewrite map_delete_absent.
  - intros H. cbn [List.length]. f_equal. now apply IH.
Qed.
End MapFacts.

Section CacheFacts.
Variable T : Type.
Implicit Types c : LRUCache.t T.

Lemma evict_below limit (m : list (jsstring * LRUCache.entry T)) :
  (Z.of_nat (List.length m) < limit)%Z -> LRUCache.evict limit m = m.
Proof.
  destruct m as [|x m]; [reflexivity|]. intros H.
  cbn [LRUCache.evict].
  destruct (Z.geb_spec (Z.of_nat (List.length (x :: m))) limit);
    [lia | reflexivity].
Qed.

Lemma evict_full limit (m : list (jsstring * LRUCache.entry T)) :
  Z.of_nat (List.length m) = limit -> (1 <= limit)%Z ->
  LRUCache.evict limit m = tl m.
Proof.
  destruct m as [|x m]; intros H H1; [reflexivity|].
  cbn [LRUCache.evict tl].
  destruct (Z.geb_spec (Z.of_nat (List.length (x :: m))) limit); [|lia].
  apply evict_below. cbn [List.length] in H. lia.
Qed.

(** On a cache filled to capacity, setting a fresh key drops the first
    entry of the map and appends the new one. *)
Lemma set_full_evicts_first c now key (v : T) :
  Z.of_nat (LRUCache.size c) = LRUCache.maxSize c ->
  (1 <= LRUCache.maxSize c)%Z ->
  map_get key (LRUCache.cache c) = None ->
  LRUCache.cache (LRUCache.set now key v c)
  = tl (LRUCache.cache c)
    ++ [(key, {| LRUCache.value := v; LRUCache.timestamp := now;
                 LRUCache.accessCount := 1 |})].
Proof.
  intros Hfull H1 Hfresh. unfold LRUCache.set. cbn [LRUCache.cache].
  rewrite evict_full by assumption.
  apply map_set_fresh. now apply map_get_tl.
Qed.

(** A successful read moves the entry to the end of the map and counts
    the access. *)
Lemma get_hit_moves_last c now g item :
  map_get g (LRUCache.cache c) = Some item ->
  (now - LRUCache.timestamp item <= LRUCache.ttl c)%Z ->
  LRUCache.get now g c
  = (Some (LRUCache.value item),
     LRUCache.with_cache c
       (map_delete g (LRUCache.cache c)
        ++ [(g, {| LRUCache.value := LRUCache.value item;
                   LRUCache.timestamp := LRUCache.timestamp item;
                   LRUCache.accessCount :=
                     S (LRUCache.accessCount item) |})])).
Proof.
  intros Hg Hfresh. unfold LRUCache.get. rewrite Hg.
  destruct (Z.gtb_spec (now - LRUCache.timestamp item) (LRUCache.ttl c));
    [lia|].
  rewrite map_set_fresh by apply map_get_delete_same. reflexivity.
Qed.
End CacheFacts.

(** The keys of a cache stay distinct, as the keys of a [Map] are. *)
Section CacheKeys.
Variable T : Type.

Lemma keys_delete g (m : list (jsstring * LRUCache.entry T)) :
  NoDup (map fst m) -> NoDup (map fst (map_delete g m)).
Proof.
  induction m as [|[k v] m IH]; [now cbn|].
  cbn [map fst]. intros H. inversion H as [|? ? Hk Hm]; subst.
  rewrite map_delete_cons. destruct (str_eqb g k); [now apply IH|].
  cbn [map fst]. constructor; [|now apply IH].
  intros Hin. apply Hk. unfold map_delete in Hin.
  apply in_map_iff in Hin as (kv & <- & Hf).
  apply filter_In in Hf as [Hf _]. now apply in_map.
Qed.

Lemma keys_set key v (m : list (jsstring * LRUCache.entry T)) :
  NoDup (map fst m) -> NoDup (map fst (map_set key v m)).
Proof.
  induction m as [|[k v'] m IH]; cbn [map_set map fst].
  - intros _. repeat constructor. intros [].
  - intros H. inversion H as [|? ? Hk Hm]; subst.
    destruct (str_eqb key k) eqn:E; cbn [map fst]; [exact H|].
    constructor; [|now apply IH].
    intros Hin. apply Hk. clear IH H Hm Hk.
    induction m as [|[k2 v2] m IHm]; cbn [map_set map fst In] in *.
    + destruct Hin as [->|[]]. now rewrite str_eqb_refl in E.
    + destruct (str_eqb key k2); cbn [map fst In] in Hin; tauto.
Qed.

Lemma keys_evict limit (m : list (jsstring * LRUCache.entry T)) :
  NoDup (map fst m) -> NoDup (map fst (LRUCache.evict limit m)).
Proof.
  induction m as [|kv m IH]; [now cbn|].
  intros H. cbn [LRUCache.evict].
  destruct (_ >=? _)%Z; [|exact H].
  apply IH. now inversion H.
Qed.

Lemma create_keys_distinct maxSize ttl :
  NoDup (LRUCache.keys (LRUCache.create T maxSize ttl)).
Proof. constructor. Qed.

Lemma set_keys_distinct now key v (c : LRUCache.t T) :
  NoDup (LRUCache.keys c) -> NoDup (LRUCache.keys (LRUCache.set now key v c)).
Proof.
  intros H. unfold LRUCache.keys, LRUCache.set. cbn [LRUCache.cache
    LRUCache.with_cache]. now apply keys_set, keys_evict.
Qed.

Lemma get_keys_distinct now key (c : LRUCache.t T) :
  NoDup (LRUCache.keys c) ->
  NoDup (LRUCache.keys (snd (LRUCache.get now key c))).
Proof.
  intros H. unfold LRUCache.keys, LRUCache.get.
  destruct (map_get key (LRUCache.cache c)) as [item|]; [|exact H].
  destruct (_ >? _)%Z; cbn [snd LRUCache.cache LRUCache.with_cache].
  - now apply keys_delete.
  - now apply keys_set, keys_delete.
Qed.
End CacheKeys.

(** C2, as the code has it: on a cache filled to capacity, the next [set]
    of a fresh key evicts the first entry of the map's order; a successful
    [get] returns the value, increments the entry's access counter and
    moves the entry to the end of that order, so that the entry evicted
    next is the first of the reordered map: the least recently inserted or
    read one. *)
Theorem eviction_follows_recency (T : Type) (c : LRUCache.t T)
  (now now' : Z) (g key : jsstring) (item : LRUCache.entry T) (v : T) :
  NoDup (LRUCache.keys c) ->
  Z.of_nat (LRUCache.size c) = LRUCache.maxSize c ->
  (1 <= LRUCache.maxSize c)%Z ->
  map_get g (LRUCache.cache c) = Some item ->
  (now - LRUCache.timestamp item <= LRUCache.ttl c)%Z ->
  map_get key (LRUCache.cache c) = None ->
  let read :=
    (g, {| LRUCache.value := LRUCache.value item;
           LRUCache.timestamp := LRUCache.timestamp item;
           LRUCache.accessCount := S (LRUCache.accessCount item) |}) in
  let new :=
    (key, {| LRUCache.value := v; LRUCache.timestamp := now';
             LRUCache.accessCount := 1 |}) in
  let c' := snd (LRUCache.get now g c) in
  LRUCache.cache (LRUCache.set now' key v c)
    = tl (LRUCache.cache c) ++ [new]
  /\ fst (LRUCache.get now g c) = Some (LRUCache.value item)
  /\ LRUCache.cache c' = map_delete g (LRUCache.cache c) ++ [read]
  /\ LRUCache.cache (LRUCache.set now' key v c')
     = tl (map_delete g (LRUCache.cache c) ++ [read]) ++ [new].
Proof.
  intros Hnd Hfull H1 Hg Httl Hkey read new c'.
  assert (Hget := get_hit_moves_last c now g Hg Httl).
  assert (Ec' : LRUCache.cache c'
                = map_delete g (LRUCache.cache c) ++ [read]).
  { unfold c'. rewrite Hget. reflexivity. }
  split; [now apply set_full_evicts_first|].
  split; [now rewrite Hget|].
  split; [exact Ec'|].
  rewrite <- Ec'. apply set_full_evicts_first.
  - unfold LRUCache.size. rewrite Ec', length_app. cbn [List.length].
    unfold c'. rewrite Hget. cbn [snd LRUCache.maxSize LRUCache.with_cache].
    rewrite <- Hfull. unfold LRUCache.size.
    rewrite <- (@map_delete_length _ g item _ Hnd Hg). lia.
  - unfold c'. rewrite Hget. exact H1.
  - rewrite Ec'. apply map_get_app_fresh.
    + now apply map_get_delete_fresh.
    + destruct (str_eqb key g) eqn:E; [|reflexivity].
      apply str_eqb_eq in E. subst key. congruence.
Qed.

Lemma eviction_follows_recency_witness :
  (NoDup (LRUCache.keys sample_cache)
   /\ Z.of_nat (LRUCache.size sample_cache) = LRUCache.maxSize sample_cache
   /\ (1 <= LRUCache.maxSize sample_cache)%Z
   /\ map_get (js "a") (LRUCache.cache sample_cache) = Some entry_a
   /\ (3 - LRUCache.timestamp entry_a <= LRUCache.ttl sample_cache)%Z
   /\ map_get (js "c") (LRUCache.cache sample_cache) = None)
  /\ (let read :=
        (js "a", {| LRUCache.value := LRUCache.value entry_a;
                    LRUCache.timestamp := LRUCache.timestamp entry_a;
                    LRUCache.accessCount :=
                      S (LRUCache.accessCount entry_a) |}) in
      let new :=
        (js "c", {| LRUCache.value := 30%Z; LRUCache.timestamp := 4;
                    LRUCache.accessCount := 1 |}) in
      let c' := snd (LRUCache.get 3 (js "a") sample_cache) in
      LRUCache.cache (LRUCache.set 4 (js "c") 30%Z sample_cache)
        = tl (LRUCache.cache sample_cache) ++ [new]
      /\ fst (LRUCache.get 3 (js "a") sample_cache)
         = Some (LRUCache.value entry_a)
      /\ LRUCache.cache c'
         = map_delete (js "a") (LRUCache.cache sample_cache) ++ [read]
      /\ LRUCache.cache (LRUCache.set 4 (js "c") 30%Z c')
         = tl (map_delete (js "a") (LRUCache.cache sample_cache) ++ [read])
           ++ [new]).
Proof.
  assert (H1 : NoDup (LRUCache.keys sample_cache)).
  { vm_compute. repeat constructor; cbn; intuition discriminate. }
  assert (H2 : Z.of_nat (LRUCache.size sample_cache)
               = LRUCache.maxSize sample_cache) by reflexivity.
  assert (H3 : (1 <= LRUCache.maxSize sample_cache)%Z)
    by (vm_compute; discriminate).
  assert (H4 : map_get (js "a") (LRUCache.cache sample_cache) = Some entry_a)
    by reflexivity.
  assert (H5 : (3 - LRUCache.timestamp entry_a
                <= LRUCache.ttl sample_cache)%Z)
    by (vm_compute; discriminate).
  assert (H6 : map_get (js "c") (LRUCache.cache sample_cache) = None)
    by reflexivity.
  split; [repeat split; assumption|].
  exact (@eviction_follows_recency Z sample_cache 3 4 (js "a") (js "c")
           entry_a 30%Z H1 H2 H3 H4 H5 H6).
Defined.

(** C2 as stated fails: in a cache of capacity two holding "a" (inserted
    first) and "b", setting "c" evicts "a"; after a successful read of "a"
    the same [set] evicts "b" instead, and "a", still the entry with the
    oldest insertion time, stays. *)
Lemma read_changes_next_eviction :
  LRUCache.keys sample_cache = [js "a"; js "b"]
  /\ LRUCache.keys (LRUCache.set 4 (js "c") 30%Z sample_cache)
     = [js "b"; js "c"]
  /\ fst (LRUCache.get 3 (js "a") sample_cache) = Some 10%Z
  /\ map (fun kv => (fst kv, LRUCache.timestamp (snd kv)))
         (LRUCache.cache (snd (LRUCache.get 3 (js "a") sample_cache)))
     = [(js "b", 2%Z); (js "a", 1%Z)]
  /\ LRUCache.keys
       (LRUCache.set 4 (js "c") 30%Z
          (snd (LRUCache.get 3 (js "a") sample_cache)))
     = [js "a"; js "c"].
Proof. repeat split; vm_compute; reflexivity. Qed.

(** ** The circuit breaker *)

Section BreakerFacts.
Variables W T : Type.
Variable clock : W -> Z.
Implicit Types (b : CircuitBreaker.t) (w : W)
  (fn : W -> result T * W).

Import CircuitBreaker.

Lemma execute_failure b b1 w fn e w' :
  guard (clock w) b = Some b1 -> fn w = (Throw e, w') ->
  execute clock fn b w = (Throw e, onFailure (clock w') b1, w').
Proof. intros A F. unfold execute. now rewrite A, F. Qed.

Lemma execute_success b b1 w fn v w' :
  guard (clock w) b = Some b1 -> fn w = (Ok v, w') ->
  execute clock fn b w = (Ok v, onSuccess b1, w').
Proof. intros A F. unfold execute. now rewrite A, F. Qed.

Lemma guard_closed b now : state b = closed -> guard now b = Some b.
Proof. intros E. unfold guard. now rewrite E. Qed.

Lemma guard_half_open b now : state b = half_open -> guard now b = Some b.
Proof. intros E. unfold guard. now rewrite E. Qed.

(** Failures accumulate while the breaker is closed and open it when the
    count reaches the threshold. *)
Lemma failures_open (calls : list (call W T)) :
  forall b w,
    state b = closed ->
    (Z.of_nat (failures b) < threshold b)%Z ->
    Z.of_nat (failures b + List.length calls) = threshold b ->
    Forall (fun c => fails (snd c)) calls ->
    state_after clock calls b w = open.
Proof.
  induction calls as [|[pause fn] calls IH]; intros b w Hc Hlt Hsum Hf.
  - cbn [List.length] in Hsum. lia.
  - inversion Hf as [|? ? Hfn Hfns]; subst. cbn [snd] in Hfn.
    destruct (Hfn (pause w)) as (e & w' & Efn).
    unfold state_after. cbn [executeAll].
    rewrite (@execute_failure b b (pause w) fn e w'
               (@guard_closed b (clock (pause w)) Hc) Efn).
    cbn [List.length] in Hsum.
    destruct calls as [|c' calls].
    + cbn [executeAll fst]. unfold onFailure. cbn [state].
      destruct (Z.geb_spec (Z.of_nat (S (failures b))) (threshold b));
        [reflexivity | cbn [List.length] in Hsum; lia].
    + apply (IH (onFailure (clock w') b) w').
      * unfold onFailure. cbn [state].
        destruct (Z.geb_spec (Z.of_nat (S (failures b))) (threshold b));
          [cbn [List.length] in Hsum; lia | exact Hc].
      * unfold onFailure. cbn [failures threshold].
        cbn [List.length] in Hsum. lia.
      * unfold onFailure. cbn [failures threshold].
        cbn [List.length] in *. lia.
      * exact Hfns.
Qed.

Lemma onFailure_tripped b now : tripped b -> tripped (onFailure now b).
Proof.
  unfold tripped, onFailure. cbn [state failures threshold].
  destruct (Z.geb_spec (Z.of_nat (S (failures b))) (threshold b)) as [G|G].
  - intros _ _. lia.
  - intros H Hs. specialize (H Hs). lia.
Qed.

Lemma onSuccess_tripped b : tripped b -> tripped (onSuccess b).
Proof.
  unfold tripped, onSuccess.
  destruct (state b) eqn:E; cbn [state failures threshold];
    try (intros _ H; now elim H).
  destruct (3 <=? S (successCount b))%nat; cbn [state failures threshold].
  - intros _ H. now elim H.
  - intros H _. apply H. discriminate.
Qed.

Lemma guard_tripped b b1 now :
  guard now b = Some b1 -> tripped b -> tripped b1.
Proof.
  unfold guard, tripped.
  destruct (state b) eqn:E.
  - intros [= <-]. now rewrite E.
  - destruct (now - lastFailureTime b >? timeout b)%Z; [|discriminate].
    intros [= <-]. cbn [state failures threshold].
    intros H _. apply H. discriminate.
  - intros [= <-]. now rewrite E.
Qed.

Lemma execute_tripped fn b w :
  tripped b -> tripped (snd (fst (execute clock fn b w))).
Proof.
  intros H. unfold execute.
  destruct (guard (clock w) b) as [b1|] eqn:A; [|exact H].
  pose proof (@guard_tripped b b1 (clock w) A H) as H1.
  destruct (fn w) as [[v|e] w']; cbn [fst snd].
  - now apply onSuccess_tripped.
  - now apply onFailure_tripped.
Qed.

Lemma executeAll_tripped (calls : list (call W T)) :
  forall b w, tripped b -> tripped (fst (executeAll clock calls b w)).
Proof.
  induction calls as [|[pause fn] calls IH]; intros b w H; [exact H|].
  cbn [executeAll].
  pose proof (@execute_tripped fn b (pause w) H) as H'.
  destruct (execute clock fn b (pause w)) as [[r b'] w']. now apply IH.
Qed.

Lemma create_tripped th to : tripped (create th to).
Proof. intros H. now elim H. Qed.
End BreakerFacts.

Section BreakerClaim.
Variables W T : Type.
Variable clock : W -> Z.

Import CircuitBreaker.

(** C3: starting from the initial closed state of a breaker with
    threshold [th >= 1] and timeout [to]:
    (a) after [th] consecutive failed calls the state is open;
    (b) while open and no more than [to] ms after the last failure,
        every call throws the breaker-open error, the wrapped operation
        is not run and nothing changes;
    (c) once more than [to] ms have passed, the next call runs the
        wrapped operation with the state half-open;
    (d) three consecutive successful calls from there close the breaker
        (it is still half-open after the first and the second);
    (e) in every state reached from the initial one, a call admitted in
        the half-open state that fails leaves the state open. *)
Theorem breaker_transitions (th to : Z) :
  (1 <= th)%Z ->
  (forall (calls : list (call W T)) (w : W),
      List.length calls = Z.to_nat th ->
      Forall (fun c => fails (snd c)) calls ->
      state_after clock calls (create th to) w = open)
  /\ (forall b w (fn : W -> result T * W),
         state b = open ->
         (clock w - lastFailureTime b <= timeout b)%Z ->
         execute clock fn b w
         = (Throw (Error "Circuit breaker is OPEN - too many failures"),
            b, w))
  /\ (forall b w (fn : W -> result T * W),
         state b = open ->
         (clock w - lastFailureTime b > timeout b)%Z ->
         exists b1,
           guard (clock w) b = Some b1
           /\ state b1 = half_open
           /\ execute clock fn b w
              = (let (r, w') := fn w in
                 match r with
                 | Ok v => (Ok v, onSuccess b1, w')
                 | Throw e => (Throw e, onFailure (clock w') b1, w')
                 end))
  /\ (forall b w (p1 p2 p3 : W -> W) (f1 f2 f3 : W -> result T * W),
         state b = open ->
         (clock (p1 w) - lastFailureTime b > timeout b)%Z ->
         succeeds f1 -> succeeds f2 -> succeeds f3 ->
         state_after clock [(p1, f1)] b w = half_open
         /\ state_after clock [(p1, f1); (p2, f2)] b w = half_open
         /\ state_after clock [(p1, f1); (p2, f2); (p3, f3)] b w = closed)
  /\ (forall (calls : list (call W T)) (w0 w1 w2 : W) b b1
             (fn : W -> result T * W),
         executeAll clock calls (create th to) w0 = (b, w1) ->
         guard (clock w2) b = Some b1 ->
         state b1 = half_open ->
         fails fn ->
         state (snd (fst (execute clock fn b w2))) = open).
Proof.
  intros Hth. repeat apply conj.
  - intros calls w Hlen Hf. apply failures_open.
    + reflexivity.
    + cbn [failures threshold create]. lia.
    + cbn [failures threshold create]. rewrite Hlen. cbn [Nat.add]. lia.
    + exact Hf.
  - intros b w fn Hs Ht. unfold execute, guard. rewrite Hs.
    destruct (Z.gtb_spec (clock w - lastFailureTime b) (timeout b));
      [lia | reflexivity].
  - intros b w fn Hs Ht. unfold execute, guard. rewrite Hs.
    destruct (Z.gtb_spec (clock w - lastFailureTime b) (timeout b));
      [|lia].
    eexists. split; [reflexivity|]. split; reflexivity.
  - intros b w p1 p2 p3 f1 f2 f3 Hs Ht S1 S2 S3.
    destruct (S1 (p1 w)) as (v1 & w1 & E1).
    destruct (S2 (p2 w1)) as (v2 & w2 & E2).
    destruct (S3 (p3 w2)) as (v3 & w3 & E3).
    set (b1 := {| failures := failures b;
                  lastFailureTime := lastFailureTime b;
                  threshold := threshold b; timeout := timeout b;
                  state := half_open; successCount := 0 |}).
    assert (A1 : guard (clock (p1 w)) b = Some b1).
    { unfold guard. rewrite Hs.
      destruct (Z.gtb_spec (clock (p1 w) - lastFailureTime b) (timeout b));
        [reflexivity | lia]. }
    pose proof (@execute_success W T clock b b1 (p1 w) f1 v1 w1 A1 E1)
      as X1.
    assert (H2 : state (onSuccess b1) = half_open) by reflexivity.
    pose proof (@execute_success W T clock _ _ (p2 w1) f2 v2 w2
                  (@guard_half_open (onSuccess b1) (clock (p2 w1)) H2) E2)
      as X2.
    assert (H3 : state (onSuccess (onSuccess b1)) = half_open)
      by reflexivity.
    pose proof (@execute_success W T clock _ _ (p3 w2) f3 v3 w3
                  (@guard_half_open (onSuccess (onSuccess b1))
                     (clock (p3 w2)) H3) E3) as X3.
    unfold state_after. cbn [executeAll]. rewrite X1, X2, X3.
    cbn [fst]. repeat split.
  - intros calls w0 w1 w2 b b1 fn Hreach Ha Hh Hf.
    destruct (Hf w2) as (e & w' & Efn).
    rewrite (@execute_failure W T clock b b1 w2 fn e w' Ha Efn).
    cbn [fst snd].
    assert (Hb : tripped b).
    { pose proof (@executeAll_tripped W T clock calls (create th to) w0
                    (@create_tripped th to)) as H.
      now rewrite Hreach in H. }
    pose proof (@guard_tripped b b1 (clock w2) Ha Hb) as H1.
    unfold onFailure. cbn [state].
    destruct (Z.geb_spec (Z.of_nat (S (failures b1))) (threshold b1))
      as [G|G]; [reflexivity|].
    assert (state b1 <> closed) by (rewrite Hh; discriminate).
    specialize (H1 H). lia.
Qed.
End BreakerClaim.

Lemma op_fail_fails : CircuitBreaker.fails op_fail.
Proof. intros w. do 2 eexists. reflexivity. Defined.

Lemma op_ok_succeeds : CircuitBreaker.succeeds op_ok.
Proof. intros w. do 2 eexists. reflexivity. Defined.

Lemma breaker_transitions_witness :
  (1 <= 2)%Z
  /\ CircuitBreaker.state_after read_clock
       [(no_pause, op_fail); (no_pause, op_fail)]
       (CircuitBreaker.create 2 100) 0%Z = CircuitBreaker.open
  /\ CircuitBreaker.execute read_clock op_ok breaker_open 50%Z
     = (Throw (Error "Circuit breaker is OPEN - too many failures"),
        breaker_open, 50%Z)
  /\ CircuitBreaker.state_after read_clock
       [(pause_ms 200, op_ok); (no_pause, op_ok); (no_pause, op_ok)]
       breaker_open 2%Z = CircuitBreaker.closed
  /\ CircuitBreaker.state
       (snd (fst (CircuitBreaker.execute read_clock op_fail breaker_open
                    200%Z))) = CircuitBreaker.open.
Proof.
  assert (H : (1 <= 2)%Z) by (vm_compute; discriminate).
  destruct (@breaker_transitions Z unit read_clock 2 100 H)
    as (Ha & Hb & _ & Hd & He).
  split; [exact H|]. split; [|split; [|split]].
  - apply Ha; [reflexivity|].
    repeat constructor; exact op_fail_fails.
  - apply Hb; [reflexivity | vm_compute; discriminate].
  - apply (Hd breaker_open 2%Z (pause_ms 200) no_pause no_pause
              op_ok op_ok op_ok);
      [reflexivity | vm_compute; reflexivity | exact op_ok_succeeds ..].
  - eapply (He [(no_pause, op_fail); (no_pause, op_fail)] 0%Z 2%Z 200%Z);
      [vm_compute; reflexivity | vm_compute; reflexivity | reflexivity
      | exact op_fail_fails].
Defined.

(** ** The rate limiter *)

Section LimiterFacts.
Import SimpleRateLimiter.

Lemma removeTokens_wait (l : t) (now count : Z) :
  (tokens l < count)%Z -> (now - lastRefill l < interval l)%Z ->
  removeTokens now count l
  = (l, Some (interval l - (now - lastRefill l))%Z).
Proof.
  intros Ht Hi. unfold removeTokens.
  destruct (Z.geb_spec (now - lastRefill l) (interval l)) as [G|G];
    [lia|].
  destruct (Z.geb_spec (tokens l) count) as [G'|G']; [lia|].
  reflexivity.
Qed.

(** C9: with fewer than [count] tokens left and the interval not yet
    over, [removeTokens] returns the limiter unchanged (no token
    deducted, [lastRefill] as before) and a promise that a timer
    resolves at the refill boundary [lastRefill + interval]; hence any
    number of such calls, whatever their counts and arrival times before
    the boundary, all resume at that boundary and leave the limiter as
    it was. *)
Theorem removeTokens_wait_path_is_free (l : t) (calls : list (Z * Z)) :
  Forall (fun c => (fst c - lastRefill l < interval l)%Z
                   /\ (tokens l < snd c)%Z) calls ->
  Forall (fun c =>
            exists waitTime,
              removeTokens (fst c) (snd c) l = (l, Some waitTime)
              /\ (0 < waitTime)%Z
              /\ (fst c + waitTime = lastRefill l + interval l)%Z) calls
  /\ removeTokensAll calls l
     = (l, map (fun _ => (lastRefill l + interval l)%Z) calls).
Proof.
  induction calls as [|[now count] calls IH]; intros H.
  - split; [constructor | reflexivity].
  - inversion H as [|? ? [Hi Ht] Hrest]; subst. cbn [fst snd] in *.
    destruct (IH Hrest) as [IH1 IH2].
    pose proof (@removeTokens_wait l now count Ht Hi) as E.
    split.
    + constructor; [|exact IH1]. cbn [fst snd].
      eexists. split; [exact E|]. lia.
    + cbn [removeTokensAll map]. rewrite E, IH2. f_equal. f_equal. lia.
Qed.
End LimiterFacts.

Lemma removeTokens_wait_path_is_free_witness :
  Forall (fun c =>
            (fst c - SimpleRateLimiter.lastRefill limiter_spent
             < SimpleRateLimiter.interval limiter_spent)%Z
            /\ (SimpleRateLimiter.tokens limiter_spent < snd c)%Z)
         five_calls
  /\ (Forall (fun c =>
                exists waitTime,
                  SimpleRateLimiter.removeTokens (fst c) (snd c) limiter_spent
                  = (limiter_spent, Some waitTime)
                  /\ (0 < waitTime)%Z
                  /\ (fst c + waitTime
                      = SimpleRateLimiter.lastRefill limiter_spent
                        + SimpleRateLimiter.interval limiter_spent)%Z)
             five_calls
      /\ SimpleRateLimiter.removeTokensAll five_calls limiter_spent
         = (limiter_spent,
            map (fun _ =>
                   (SimpleRateLimiter.lastRefill limiter_spent
                    + SimpleRateLimiter.interval limiter_spent)%Z)
                five_calls)).
Proof.
  assert (H : Forall (fun c =>
            (fst c - SimpleRateLimiter.lastRefill limiter_spent
             < SimpleRateLimiter.interval limiter_spent)%Z
            /\ (SimpleRateLimiter.tokens limiter_spent < snd c)%Z)
         five_calls).
  { repeat constructor. }
  split; [exact H|].
  exact (@removeTokens_wait_path_is_free limiter_spent five_calls H).
Defined.

(** ** The audit trail *)

Section ClientFacts.
Variables RawEntity W : Type.
Variable clock : W -> Z.
Variable sha256 : jsstring -> string.
Variable generateSessionId : W -> string * W.
Variable sanitizeOutput : RawEntity -> result QlooEntity.
Variable searchAll : list jsstring -> W -> list RawEntity * nat * W.
Variable getDemographicAnalysis :
  list QlooEntity -> W -> list DemographicAnalysis * nat * W.
Variable sleep : Z -> W -> W.
Variable MAX_AUDIT_TRAILS : Z.

Abbreviation Client := (Client RawEntity W).
Abbreviation culturalAnalysis :=
  (culturalAnalysis clock sanitizeOutput searchAll getDemographicAnalysis).
Abbreviation tryBlock :=
  (tryBlock clock sanitizeOutput searchAll getDemographicAnalysis).
Abbreviation analyzeContent :=
  (analyzeContent clock sha256 generateSessionId sanitizeOutput searchAll
     getDemographicAnalysis MAX_AUDIT_TRAILS).
Abbreviation addAuditTrail := (addAuditTrail MAX_AUDIT_TRAILS).
Abbreviation batchCulturalAudit :=
  (batchCulturalAudit clock sha256 generateSessionId sanitizeOutput
     searchAll getDemographicAnalysis sleep MAX_AUDIT_TRAILS).



(** What [addAuditTrail] leaves: the old trail with the record pushed,
    less a prefix. *)
Lemma addAuditTrail_pushes (trail : AuditTrail) (c : Client) :
  exists k,
    auditTrails (addAuditTrail trail c)
    = skipn k (auditTrails c ++ [trail]).
Proof.
  unfold addAuditTrail. cbn [auditTrails].
  destruct (_ >? _)%Z.
  - unfold js_slice. eexists. reflexivity.
  - exists 0%nat. reflexivity.
Qed.

Lemma addAuditTrail_room (trail : AuditTrail) (c : Client) :
  (Z.of_nat (List.length (auditTrails c)) < MAX_AUDIT_TRAILS)%Z ->
  auditTrails (addAuditTrail trail c) = auditTrails c ++ [trail].
Proof.
  intros H. unfold addAuditTrail. cbn [auditTrails].
  rewrite length_app. cbn [List.length].
  destruct (Z.gtb_spec (Z.of_nat (List.length (auditTrails c) + 1))
                       MAX_AUDIT_TRAILS); [lia | reflexivity].
Qed.


(** C10: the empty batch returns [success: true] with no result and
    [totalProcessed] 0, leaves the client as it was, and its
    [avgComplianceScore] is the quotient 0 / 0, which is NaN; for every
    batch the average is the accumulated score divided by the number of
    requests, whatever that number is. *)
Theorem empty_batch_average_is_NaN (c : Client) :
  success (fst (batchCulturalAudit [] c)) = true
  /\ results (fst (batchCulturalAudit [] c)) = []
  /\ totalProcessed (summary (fst (batchCulturalAudit [] c))) = 0%nat
  /\ criticalIssuesCount (summary (fst (batchCulturalAudit [] c))) = 0%nat
  /\ avgComplianceScore (summary (fst (batchCulturalAudit [] c)))
     = js_div 0 0
  /\ avgComplianceScore (summary (fst (batchCulturalAudit [] c))) = NaN
  /\ is_finite (avgComplianceScore (summary (fst (batchCulturalAudit [] c))))
     = false
  /\ snd (batchCulturalAudit [] c) = c
  /\ forall requests c1,
       exists total,
         avgComplianceScore (summary (fst (batchCulturalAudit requests c1)))
         = js_div total (of_nat (List.length requests)).
Proof.
  repeat split; try reflexivity.
  intros requests c1. unfold batchCulturalAudit. cbn [fst summary
    avgComplianceScore]. eexists. reflexivity.
Qed.
End ClientFacts.

(** ** Fuel

    The loop of [batchCulturalAudit] takes at least one request per round:
    any fuel above the number of pending requests gives the same result. *)

Section BatchFuel.
Variables RawEntity W : Type.
Variable clock : W -> Z.
Variable sha256 : jsstring -> string.
Variable generateSessionId : W -> string * W.
Variable sanitizeOutput : RawEntity -> result QlooEntity.
Variable searchAll : list jsstring -> W -> list RawEntity * nat * W.
Variable getDemographicAnalysis :
  list QlooEntity -> W -> list DemographicAnalysis * nat * W.
Variable sleep : Z -> W -> W.
Variable MAX_AUDIT_TRAILS : Z.

Abbreviation rounds :=
  (rounds clock sha256 generateSessionId sanitizeOutput searchAll
     getDemographicAnalysis sleep MAX_AUDIT_TRAILS).

Lemma rounds_fuel (fuel : nat) :
  forall i pending s,
    (List.length pending <= fuel)%nat ->
    rounds (S fuel) i pending s = rounds fuel i pending s.
Proof.
  induction fuel as [|fuel IH]; intros i pending s Hlen.
  - destruct pending; [reflexivity | cbn [List.length] in Hlen; lia].
  - destruct pending as [|r pending]; [reflexivity|].
    change (rounds (S (S fuel)) i (r :: pending) s)
      with (let s1 := auditBatch clock sha256 generateSessionId
                        sanitizeOutput searchAll getDemographicAnalysis
                        MAX_AUDIT_TRAILS i
                        (firstn batchSize (r :: pending)) s in
            let later := skipn batchSize (r :: pending) in
            let s2 :=
              match later with
              | [] => s1
              | _ =>
                  let c := acc_client s1 in
                  {| acc_results := acc_results s1;
                     totalComplianceScore := totalComplianceScore s1;
                     acc_criticalIssuesCount := acc_criticalIssuesCount s1;
                     acc_client :=
                       with_world c (entityCache c) 0
                                  (sleep 1000 (world c)) |}
              end in
            rounds (S fuel) (i + batchSize) later s2).
    cbv zeta. rewrite IH; [reflexivity|].
    cbn [List.length] in Hlen.
    change (skipn batchSize (r :: pending)) with (skipn 4 pending).
    rewrite length_skipn. lia.
Qed.
End BatchFuel.

(** ** Both exits of [analyzeContent] on the sample client *)

Example analyzeContent_error_path :
  let run :=
    analyzeContent read_clock sample_hash sample_session
      sample_sanitize_throws sample_search sample_demographics 1000
      sample_content None sample_client in
  fst run = Throw (TypeError "Cannot read properties of undefined")
  /\ map (fun t => (detectedBias t,
                    regulations_triggered (complianceScore t),
                    riskLevel (complianceScore t),
                    apiCallsCount t, cacheHits t, processingTime t))
         (auditTrails (snd run))
     = [([], ["SYSTEM_ERROR"%string], critical, 2%nat, 0%nat, 5%Z)].
Proof. vm_compute. split; reflexivity. Qed.

Example analyzeContent_success_path :
  let run :=
    analyzeContent read_clock sample_hash sample_session sample_sanitize
      sample_search sample_demographics 1000 sample_content None
      sample_client in
  (exists r,
     fst run = Ok r
     /\ map type (biasAnalysis r) = [age_discriminatory]
     /\ overallScore (a_complianceScore r) == 69
     /\ riskLevel (a_complianceScore r) = low
     /\ auditTrails (snd run) = [auditTrail r])
  /\ LRUCache.keys (entityCache (snd run)) = [js "Marvel Studios|Young"].
Proof.
  split; [|vm_compute; reflexivity].
  eexists. split; [vm_compute; reflexivity|].
  repeat split; vm_compute; reflexivity.
Qed.

(* ================================================================== *)
(** * Further properties of the sources *)

(** ** sanitizeInput *)

Lemma exec_unsafe_cons (b : option N) (c : N) (s : jsstring) :
  exec re_unsafe b (c :: s) = if isSafeChar c then None else Some 1%nat.
Proof.
  unfold exec, re_unsafe, plain, isSafeChar. cbn.
  now destruct (isWordChar c || isWhiteSpace c || (c =? 45)%N
                || (c =? 95)%N || (c =? 46)%N).
Qed.

Lemma replace_unsafe_map (s : jsstring) :
  forall b,
    replaceAll re_unsafe (js " ") b 0 s
    = map (fun c => if isSafeChar c then c else 32%N) s.
Proof.
  induction s as [|c s IH]; intros b; [reflexivity|].
  cbn [replaceAll map]. rewrite exec_unsafe_cons.
  destruct (isSafeChar c); rewrite IH; reflexivity.
Qed.

Lemma safe_after_replace (s : jsstring) :
  Forall (fun c => isSafeChar c = true) (replace re_unsafe (js " ") s).
Proof.
  unfold replace. rewrite replace_unsafe_map.
  induction s as [|c s IH]; cbn [map]; constructor; [|exact IH].
  destruct (isSafeChar c) eqn:E; [exact E | reflexivity].
Qed.

Lemma Forall_prefix (A : Type) (P : A -> Prop) (n : nat) (l : list A) :
  Forall P l -> Forall P (firstn n l).
Proof.
  revert l. induction n as [|n IH]; intros [|x l] H; cbn; try constructor.
  - now inversion H.
  - apply IH. now inversion H.
Qed.

Lemma sanitizeInput_length (text : jsstring) :
  (N.of_nat (List.length (sanitizeInput text)) <= 10000)%N.
Proof.
  unfold sanitizeInput, slice0.
  match goal with |- context [firstn ?n ?l] =>
    pose proof (firstn_le_length n l) as H end.
  lia.
Qed.

Lemma sanitizeInput_chars (text : jsstring) :
  Forall (fun c => isSafeChar c = true) (sanitizeInput text).
Proof.
  unfold sanitizeInput, slice0. apply Forall_prefix, safe_after_replace.
Qed.

Lemma eat_unsafe_literal (ic : bool) (lit : jsstring) :
  forall p,
    Forall (fun c => isSafeChar c = true) (rest p) ->
    unsafe_literal ic lit ->
    eat ic lit p = None.
Proof.
  induction lit as [|a lit IH]; intros p Hs Hbad.
  - inversion Hbad.
  - cbn [eat]. destruct (rest p) as [|c s'] eqn:E; [reflexivity|].
    destruct (char_eq ic a c) eqn:Ec; [|reflexivity].
    inversion Hs as [|? ? Hc Hs']; subst.
    inversion Hbad as [? ? Ha | ? ? Hl]; subst.
    + rewrite (Ha c Ec) in Hc. discriminate.
    + apply IH; [exact Hs' | exact Hl].
Qed.

Lemma exec_unsafe_literal (ic : bool) (lit : jsstring) (more : list atom)
  (b : option N) (s : jsstring) :
  Forall (fun c => isSafeChar c = true) s ->
  unsafe_literal ic lit ->
  exec (plain (Chars lit :: more) ic) b s = None.
Proof.
  intros Hs Hbad. unfold exec, plain.
  cbn [items ignoreCase map run step].
  now rewrite (@eat_unsafe_literal ic lit (mkPos b 0 s) Hs Hbad).
Qed.

Lemma replace_unsafe_literal (ic : bool) (lit : jsstring)
  (more : list atom) (by_ : jsstring) (s : jsstring) :
  Forall (fun c => isSafeChar c = true) s ->
  unsafe_literal ic lit ->
  replace (plain (Chars lit :: more) ic) by_ s = s.
Proof.
  intros Hs Hbad. unfold replace. generalize (@None N).
  induction s as [|c s IH]; intros b; cbn [replaceAll].
  - now rewrite (exec_unsafe_literal more b Hs Hbad).
  - rewrite (exec_unsafe_literal more b Hs Hbad).
    rewrite IH; [reflexivity|]. now inversion Hs.
Qed.

Lemma colon_matches_colon (c : N) : char_eq true 58 c = true -> c = 58%N.
Proof.
  unfold char_eq, canonicalize. cbn [in_range N.leb andb].
  change (if in_range 97 122 58 then (58 - 32)%N else 58%N) with 58%N.
  destruct (in_range 97 122 c) eqn:R; rewrite N.eqb_eq; intros H.
  - unfold in_range in R. apply andb_prop in R as [R1 R2].
    apply N.leb_le in R1, R2. lia.
  - now symmetry.
Qed.

Lemma replace_safe_id (s : jsstring) :
  Forall (fun c => isSafeChar c = true) s ->
  replace re_unsafe (js " ") s = s.
Proof.
  intros Hs. unfold replace. rewrite replace_unsafe_map.
  induction Hs as [|c s Hc Hs IH]; [reflexivity|].
  cbn [map]. now rewrite Hc, IH.
Qed.

Lemma sanitizeInput_fixed (text : jsstring) :
  sanitizeInput (sanitizeInput text) = sanitizeInput text.
Proof.
  pose proof (sanitizeInput_length text) as Hlen.
  pose proof (sanitizeInput_chars text) as Hs.
  set (t := sanitizeInput text) in *.
  unfold sanitizeInput at 1.
  assert (Hlt : unsafe_literal false (js "<")).
  { left. intros c H. apply N.eqb_eq in H. now subst c. }
  assert (Hcm : unsafe_literal false (js "<!--")).
  { left. intros c H. apply N.eqb_eq in H. now subst c. }
  assert (Hjs : unsafe_literal true (js "javascript:")).
  { do 10 right. left. intros c H.
    apply colon_matches_colon in H. now subst c. }
  assert (Hda : unsafe_literal true (js "data:")).
  { do 4 right. left. intros c H.
    apply colon_matches_colon in H. now subst c. }
  unfold re_tag, re_comment, re_javascript, re_data.
  rewrite (replace_unsafe_literal _ _ Hs Hlt).
  rewrite (replace_unsafe_literal _ _ Hs Hcm).
  rewrite (replace_unsafe_literal _ _ Hs Hjs).
  rewrite (replace_unsafe_literal _ _ Hs Hda).
  rewrite (replace_safe_id Hs).
  unfold slice0. apply firstn_all2. lia.
Qed.

(** X1: Whatever the input, the sanitized text holds at most 10,000 code units,
    each of them a word character, white space, a hyphen, an underscore or
    a period: no markup bracket, colon, quote or other punctuation gets
    through to matching; and sanitizing is idempotent: sanitized text
    passes through the sanitizer unchanged. *)
Theorem sanitizeInput_safe (text : jsstring) :
  (N.of_nat (List.length (sanitizeInput text)) <= 10000)%N
  /\ Forall (fun c => isSafeChar c = true) (sanitizeInput text)
  /\ sanitizeInput (sanitizeInput text) = sanitizeInput text.
Proof.
  split; [|split].
  - apply sanitizeInput_length.
  - apply sanitizeInput_chars.
  - apply sanitizeInput_fixed.
Qed.

(** ** detectBiasPatterns *)

Lemma str_match_nonempty (re : regex) (s : jsstring) (ms : list jsstring) :
  str_match re s = Some ms -> ms <> [].
Proof.
  unfold str_match. destruct (matchAll re None 0 s); [discriminate|].
  intros [= <-]. discriminate.
Qed.

Lemma of_nat_pos (n : nat) : (1 <= n)%nat -> 1 <= of_nat n.
Proof.
  intros H. unfold of_nat. change 1 with (inject_Z 1).
  rewrite <- Zle_Qle. lia.
Qed.




Lemma Qltb_spec_le (a b : Q) : Qltb a b = false -> b <= a.
Proof.
  unfold Qltb. intros H. apply negb_false_iff in H.
  now apply Qle_bool_iff.
Qed.

Lemma Qltb_spec_lt (a b : Q) : Qltb a b = true -> a < b.
Proof.
  unfold Qltb. intros H. apply negb_true_iff in H.
  destruct (Qlt_le_dec a b) as [L|L]; [exact L|].
  apply Qle_bool_iff in L. congruence.
Qed.

Lemma insert_descending (x : BiasPattern) (l : list BiasPattern) :
  descending l ->
  descending (insert (fun a b => confidence b - confidence a) x l).
Proof.
  induction l as [|y l IH]; intros H.
  - cbn. split; [constructor | exact I].
  - cbn [insert]. destruct H as [Hy Hl].
    destruct (Qltb 0 (confidence y - confidence x)) eqn:E.
    + apply Qltb_spec_lt in E. cbn [descending]. split; [|now apply IH].
      eapply Permutation_Forall;
        [apply Permutation_sym, insert_perm|].
      constructor; [lra | exact Hy].
    + apply Qltb_spec_le in E. cbn [descending]. split; [|split; assumption].
      constructor; [lra|].
      eapply Forall_impl; [|exact Hy]. cbn. intros g Hg. lra.
Qed.

Lemma sort_descending (l : list BiasPattern) :
  descending (sort (fun a b => confidence b - confidence a) l).
Proof.
  induction l as [|x l IH]; [exact I|].
  cbn [sort]. now apply insert_descending.
Qed.

(** X3: The findings come back in order of falling confidence: no finding is
    followed by one of higher confidence. *)
Theorem detect_sorted (cfg : EnvironmentConfig) (text : jsstring) :
  exists fs,
    detectBiasPatterns (Some cfg) text = Ok fs /\ descending fs.
Proof.
  unfold detectBiasPatterns. eexists. split; [reflexivity|].
  apply sort_descending.
Qed.

Lemma toLowerCase_idempotent (m : jsstring) :
  toLowerCase (toLowerCase m) = toLowerCase m.
Proof.
  unfold toLowerCase. rewrite map_map. apply map_ext. intros c.
  destruct (in_range 65 90 c) eqn:R; [|now rewrite R].
  assert (R' : in_range 65 90 (c + 32) = false).
  { unfold in_range in *. apply andb_prop in R as [R1 R2].
    apply N.leb_le in R1, R2. apply andb_false_iff. right.
    apply N.leb_gt. lia. }
  now rewrite R'.
Qed.

Lemma detectRule_at_most_one (cfg : EnvironmentConfig) (s : jsstring)
  (rule : Rule) :
  (List.length (detectRule cfg s rule) <= 1)%nat
  /\ Forall (fun f =>
               includes (detectionLevel rule) (biasDetectionLevel cfg) = true
               /\ type f = r_type rule /\ severity f = r_severity rule
               /\ regulation_risk f = r_regulation_risk rule
               /\ suggestions f = r_suggestions rule
               /\ matches f <> []
               /\ Forall (fun m => toLowerCase m = m) (matches f))
            (detectRule cfg s rule).
Proof.
  unfold detectRule.
  destruct (includes _ _) eqn:I; cbn [negb]; [|split; [cbn; lia | constructor]].
  destruct (str_match _ _) as [ms|] eqn:E; [|split; [cbn; lia | constructor]].
  split; [cbn; lia|]. constructor; [|constructor].
  cbn [type severity regulation_risk suggestions matches].
  repeat split.
  - pose proof (str_match_nonempty _ _ E). destruct ms; [congruence|].
    discriminate.
  - clear E. induction ms as [|m ms IH]; cbn [map]; constructor; [|exact IH].
    apply toLowerCase_idempotent.
Qed.

(** X4: Each registry entry yields at most one finding, and only when it is
    active at the configured detection level: there are never more
    findings than the ten registry entries, and every finding carries the
    category, severity, suggestions and regulation tags of an entry active
    at that level, together with at least one matched term, in lower
    case. *)
Theorem detect_from_registry (cfg : EnvironmentConfig) (text : jsstring) :
  exists fs,
    detectBiasPatterns (Some cfg) text = Ok fs
    /\ (List.length fs <= 10)%nat
    /\ Forall (fun f =>
                 exists key rule,
                   In (key, rule) BIAS_PATTERNS
                   /\ includes (detectionLevel rule) (biasDetectionLevel cfg)
                      = true
                   /\ type f = r_type rule /\ severity f = r_severity rule
                   /\ regulation_risk f = r_regulation_risk rule
                   /\ suggestions f = r_suggestions rule
                   /\ matches f <> []
                   /\ Forall (fun m => toLowerCase m = m) (matches f))
              fs.
Proof.
  unfold detectBiasPatterns.
  change (List.length ?l <= 10)%nat
    with (List.length l <= List.length BIAS_PATTERNS)%nat.
  eexists. split; [reflexivity|].
  rewrite (Permutation_length (sort_perm _ _)).
  split.
  - generalize BIAS_PATTERNS. intros rules.
    induction rules as [|entry rules IH]; [cbn; lia|].
    cbn [flat_map]. rewrite length_app. cbn [List.length].
    pose proof (proj1 (detectRule_at_most_one cfg (sanitizeInput text)
                         (snd entry))). lia.
  - eapply Permutation_Forall; [apply Permutation_sym, sort_perm|].
    assert (G : forall rules,
               (forall e, In e rules -> In e BIAS_PATTERNS) ->
               Forall (fun f =>
                 exists key rule,
                   In (key, rule) BIAS_PATTERNS
                   /\ includes (detectionLevel rule) (biasDetectionLevel cfg)
                      = true
                   /\ type f = r_type rule /\ severity f = r_severity rule
                   /\ regulation_risk f = r_regulation_risk rule
                   /\ suggestions f = r_suggestions rule
                   /\ matches f <> []
                   /\ Forall (fun m => toLowerCase m = m) (matches f))
                 (flat_map (fun entry => detectRule cfg (sanitizeInput text)
                                           (snd entry)) rules)).
    { induction rules as [|[key rule] rules IH]; intros Hin; [constructor|].
      cbn [flat_map snd]. apply Forall_app. split.
      - eapply Forall_impl;
          [|apply (proj2 (detectRule_at_most_one cfg (sanitizeInput text)
                            rule))].
        cbn. intros f Hf. exists key, rule. split; [|exact Hf].
        apply Hin. now left.
      - apply IH. intros e He. apply Hin. now right. }
    apply G. auto.
Qed.

Lemma detectRule_nest (cfg1 cfg2 : EnvironmentConfig) (s : jsstring)
  (rule : Rule) (f : BiasPattern) :
  mode cfg1 = mode cfg2 ->
  (includes (detectionLevel rule) (biasDetectionLevel cfg1) = true ->
   includes (detectionLevel rule) (biasDetectionLevel cfg2) = true) ->
  In f (detectRule cfg1 s rule) -> In f (detectRule cfg2 s rule).
Proof.
  intros Hm Hl. unfold detectRule, adjustConfidence. rewrite Hm.
  destruct (includes (detectionLevel rule) (biasDetectionLevel cfg1));
    [|intros []].
  rewrite (Hl eq_refl). auto.
Qed.

Lemma includes_nest (rules : list (string * Rule)) (key : string)
  (rule : Rule) (l1 l2 : DetectionLevel) :
  levels_nest rules = true -> In (key, rule) rules ->
  (level_rank l1 <= level_rank l2)%nat ->
  includes (detectionLevel rule) l1 = true ->
  includes (detectionLevel rule) l2 = true.
Proof.
  intros Hn Hin Hr. unfold levels_nest in Hn.
  rewrite forallb_forall in Hn. specialize (Hn _ Hin). cbn [snd] in Hn.
  apply andb_prop in Hn as [H1 H2].
  destruct l1, l2; cbn in Hr; try lia; try tauto; intros H.
  - rewrite H in H2. exact H2.
  - rewrite H in H1. cbn in H1. rewrite H1 in H2. exact H2.
  - rewrite H in H1. exact H1.
Qed.

(** X5: A stricter detection level only adds findings: with the mode
    unchanged, every finding reported at a laxer level (lenient before
    moderate before strict) is reported, identically, at each stricter
    level. *)
Theorem stricter_level_keeps_findings (cfg1 cfg2 : EnvironmentConfig)
  (text : jsstring) :
  mode cfg1 = mode cfg2 ->
  (level_rank (biasDetectionLevel cfg1)
   <= level_rank (biasDetectionLevel cfg2))%nat ->
  exists fs1 fs2,
    detectBiasPatterns (Some cfg1) text = Ok fs1
    /\ detectBiasPatterns (Some cfg2) text = Ok fs2
    /\ forall f, In f fs1 -> In f fs2.
Proof.
  intros Hm Hr. unfold detectBiasPatterns.
  eexists. eexists. split; [reflexivity|]. split; [reflexivity|].
  intros f Hf.
  apply (Permutation_in _ (sort_perm _ _)) in Hf.
  apply (Permutation_in _ (Permutation_sym (sort_perm _ _))).
  assert (N : levels_nest BIAS_PATTERNS = true) by (vm_compute; reflexivity).
  rewrite in_flat_map in *. destruct Hf as ([key rule] & Hin & Hf).
  exists (key, rule). split; [exact Hin|]. cbn [snd] in *.
  apply (@detectRule_nest cfg1 cfg2 (sanitizeInput text) rule f Hm);
    [|exact Hf].
  exact (@includes_nest BIAS_PATTERNS key rule _ _ N Hin Hr).
Qed.

Lemma stricter_level_keeps_findings_witness :
  (mode DEFAULT_HACKATHON_CONFIG = mode config_hackathon_strict
   /\ (level_rank (biasDetectionLevel DEFAULT_HACKATHON_CONFIG)
       <= level_rank (biasDetectionLevel config_hackathon_strict))%nat)
  /\ exists fs1 fs2,
       detectBiasPatterns (Some DEFAULT_HACKATHON_CONFIG) scenarioA = Ok fs1
       /\ detectBiasPatterns (Some config_hackathon_strict) scenarioA
          = Ok fs2
       /\ forall f, In f fs1 -> In f fs2.
Proof.
  assert (Hm : mode DEFAULT_HACKATHON_CONFIG = mode config_hackathon_strict)
    by reflexivity.
  assert (Hr : (level_rank (biasDetectionLevel DEFAULT_HACKATHON_CONFIG)
                <= level_rank (biasDetectionLevel config_hackathon_strict))
               %nat)
    by (vm_compute; repeat constructor).
  split; [split; assumption|].
  exact (@stricter_level_keeps_findings DEFAULT_HACKATHON_CONFIG
           config_hackathon_strict scenarioA Hm Hr).
Defined.

(** ** calculateComplianceScore *)

Lemma bucket_range (flag : bool) (base penalty : Q) :
  0 <= base -> base <= 100 -> 0 <= penalty ->
  0 <= (if flag then Qmax 0 (base - penalty) else base)
  /\ (if flag then Qmax 0 (base - penalty) else base) <= 100.
Proof.
  intros H0 H1 Hp. destruct flag; [|split; assumption].
  split; [apply Q.le_max_l | apply Q.max_lub; lra].
Qed.

Lemma penalty_nonneg (m : EnvironmentMode) :
  0 <= p_euAiAct (regulationPenalty m)
  /\ 0 <= p_section508 (regulationPenalty m)
  /\ 0 <= p_gdpr (regulationPenalty m).
Proof. destruct m; cbn; repeat split; lra. Qed.

(** X6: For findings of non-negative confidence the three regulation scores
    and the overall score all lie between 0 and 100, and the overall score
    is the least of the three. *)
Theorem scores_within_scale (cfg : EnvironmentConfig)
  (F : list BiasPattern) :
  (forall f, In f F -> 0 <= confidence f) ->
  exists sc,
    calculateComplianceScore (Some cfg) F = Ok sc
    /\ 0 <= overallScore sc
    /\ overallScore sc <= euAiAct sc /\ euAiAct sc <= 100
    /\ overallScore sc <= section508 sc /\ section508 sc <= 100
    /\ overallScore sc <= gdpr sc /\ gdpr sc <= 100
    /\ (overallScore sc == euAiAct sc \/ overallScore sc == section508 sc
        \/ overallScore sc == gdpr sc).
Proof.
  intros HF. unfold calculateComplianceScore. eexists.
  split; [reflexivity|].
  cbn [overallScore euAiAct section508 gdpr].
  pose proof (accumulate_fst (mode cfg) F 0 []) as T.
  pose proof (deductions_nonneg (mode cfg) F HF) as D.
  set (a := accumulate (mode cfg) F (0, [])) in *.
  assert (B0 : 0 <= Qmax 0 (100 - fst a)) by apply Q.le_max_l.
  assert (B1 : Qmax 0 (100 - fst a) <= 100) by (apply Q.max_lub; lra).
  destruct (penalty_nonneg (mode cfg)) as (P1 & P2 & P3).
  set (base := Qmax 0 (100 - fst a)) in *.
  destruct (bucket_range (hasRegulationRisk (snd a) euAiActRegulations)
              B0 B1 P1) as [E0 E1].
  destruct (bucket_range (hasRegulationRisk (snd a) section508Regulations)
              B0 B1 P2) as [S0 S1].
  destruct (bucket_range (hasRegulationRisk (snd a) gdprRegulations)
              B0 B1 P3) as [G0 G1].
  set (e := if hasRegulationRisk (snd a) euAiActRegulations
            then Qmax 0 (base - p_euAiAct (regulationPenalty (mode cfg)))
            else base) in *.
  set (s := if hasRegulationRisk (snd a) section508Regulations
            then Qmax 0 (base - p_section508 (regulationPenalty (mode cfg)))
            else base) in *.
  set (g := if hasRegulationRisk (snd a) gdprRegulations
            then Qmax 0 (base - p_gdpr (regulationPenalty (mode cfg)))
            else base) in *.
  pose proof (Q.le_min_l (Qmin e s) g).
  pose proof (Q.le_min_r (Qmin e s) g).
  pose proof (Q.le_min_l e s).
  pose proof (Q.le_min_r e s).
  repeat split; try assumption; try lra.
  - repeat apply Q.min_glb; assumption.
  - destruct (Q.min_spec (Qmin e s) g) as [[_ ->]|[_ ->]];
      [|right; right; reflexivity].
    destruct (Q.min_spec e s) as [[_ ->]|[_ ->]];
      [left | right; left]; reflexivity.
Qed.

Lemma scores_within_scale_witness :
  (forall f, In f [sample_finding high ["ADEA"%string] 0.9] ->
             0 <= confidence f)
  /\ exists sc,
       calculateComplianceScore (Some DEFAULT_PRODUCTION_CONFIG)
         [sample_finding high ["ADEA"%string] 0.9] = Ok sc
       /\ 0 <= overallScore sc
       /\ overallScore sc <= euAiAct sc /\ euAiAct sc <= 100
       /\ overallScore sc <= section508 sc /\ section508 sc <= 100
       /\ overallScore sc <= gdpr sc /\ gdpr sc <= 100
       /\ (overallScore sc == euAiAct sc \/ overallScore sc == section508 sc
           \/ overallScore sc == gdpr sc).
Proof.
  assert (H : forall f, In f [sample_finding high ["ADEA"%string] 0.9] ->
                        0 <= confidence f).
  { intros g [<-|[]]. vm_compute. discriminate. }
  split; [exact H|].
  exact (@scores_within_scale DEFAULT_PRODUCTION_CONFIG
           [sample_finding high ["ADEA"%string] 0.9] H).
Defined.





Lemma set_has_In (reg : string) (regs : list string) :
  set_has reg regs = true <-> In reg regs.
Proof.
  unfold set_has. rewrite existsb_exists. split.
  - intros (x & Hx & E). apply String.eqb_eq in E. now subst.
  - intros H. exists reg. split; [exact H | apply String.eqb_refl].
Qed.

Lemma tagged_In (reg : string) (F : list BiasPattern) :
  tagged reg F = true <-> exists f, In f F /\ In reg (regulation_risk f).
Proof.
  unfold tagged. rewrite existsb_exists. split.
  - intros (f & Hf & E). exists f. split; [exact Hf|].
    now apply set_has_In.
  - intros (f & Hf & E). exists f. split; [exact Hf|].
    now apply set_has_In.
Qed.

Lemma set_add_NoDup (regs : list string) (reg : string) :
  NoDup regs -> NoDup (set_add regs reg).
Proof.
  intros H. unfold set_add. destruct (set_has reg regs) eqn:E; [exact H|].
  apply NoDup_app; [exact H | repeat constructor; intros [] |].
  intros x Hx [<-|[]]. apply set_has_In in Hx. congruence.
Qed.

Lemma fold_set_add_NoDup (rs regs : list string) :
  NoDup regs -> NoDup (fold_left set_add rs regs).
Proof.
  revert regs. induction rs as [|r rs IH]; intros regs H; [exact H|].
  cbn [fold_left]. apply IH. now apply set_add_NoDup.
Qed.

Lemma accumulate_NoDup (m : EnvironmentMode) (F : list BiasPattern) :
  forall t regs, NoDup regs -> NoDup (snd (accumulate m F (t, regs))).
Proof.
  induction F as [|b F IH]; intros t regs H; [exact H|].
  rewrite accumulate_cons. apply IH. now apply fold_set_add_NoDup.
Qed.

Lemma triggered_In (m : EnvironmentMode) (F : list BiasPattern)
  (reg : string) :
  In reg (snd (accumulate m F (0, [])))
  <-> exists f, In f F /\ In reg (regulation_risk f).
Proof.
  rewrite <- set_has_In, accumulate_snd, <- tagged_In.
  cbn [set_has existsb orb]. reflexivity.
Qed.

Lemma score_regulations (cfg : EnvironmentConfig) (F : list BiasPattern)
  (sc : ComplianceScore) :
  calculateComplianceScore (Some cfg) F = Ok sc ->
  regulations_triggered sc = snd (accumulate (mode cfg) F (0, [])).
Proof.
  unfold calculateComplianceScore. intros E. injection E as <-. reflexivity.
Qed.

(** X8: The triggered regulations are exactly the tags that occur on some
    finding, each listed once. *)
Theorem regulations_triggered_exact (cfg : EnvironmentConfig)
  (F : list BiasPattern) :
  exists sc,
    calculateComplianceScore (Some cfg) F = Ok sc
    /\ NoDup (regulations_triggered sc)
    /\ forall reg,
         In reg (regulations_triggered sc)
         <-> exists f, In f F /\ In reg (regulation_risk f).
Proof.
  destruct (score_returns cfg F) as [sc E]. exists sc.
  split; [exact E|]. rewrite (score_regulations E). split.
  - apply accumulate_NoDup. constructor.
  - intros reg. apply triggered_In.
Qed.





(** ** extractEntities *)

Lemma NoDup_prefix (A : Type) (n : nat) (l : list A) :
  NoDup l -> NoDup (firstn n l).
Proof.
  revert l. induction n as [|n IH]; intros [|x l] H; cbn; try constructor.
  - inversion H as [|? ? Hx Hl]; subst. intros Hin. apply Hx.
    rewrite <- (firstn_skipn n l). apply in_or_app. now left.
  - apply IH. now inversion H.
Qed.

Lemma str_in_In (e : jsstring) (l : list jsstring) :
  str_in e l = true <-> In e l.
Proof.
  unfold str_in. rewrite existsb_exists. split.
  - intros (x & Hx & E). apply str_eqb_eq in E. now subst.
  - intros H. exists e. split; [exact H | apply str_eqb_refl].
Qed.

Lemma entities_add_keeps (l : list jsstring) (e : jsstring) :
  NoDup l /\ Forall (fun x => entity_ok x = true) l ->
  entity_ok e = true ->
  NoDup (entities_add l e)
  /\ Forall (fun x => entity_ok x = true) (entities_add l e).
Proof.
  intros [Hn Hf] He. unfold entities_add.
  destruct (str_in e l) eqn:E; [split; assumption|].
  split.
  - apply NoDup_app; [exact Hn | repeat constructor; intros [] |].
    intros x Hx [<-|[]]. apply str_in_In in Hx. congruence.
  - apply Forall_app. split; [exact Hf | now repeat constructor].
Qed.

(** X10: [extractEntities] returns at most ten names, all different, each of 3
    to 50 code units and none a stop word or a common business word
    (compared in upper case). *)
Theorem extractEntities_bounds (text : jsstring) :
  (List.length (extractEntities text) <= 10)%nat
  /\ NoDup (extractEntities text)
  /\ Forall (fun e => entity_ok e = true) (extractEntities text).
Proof.
  unfold extractEntities.
  set (stepm := fun (entities : list jsstring) (m : jsstring) =>
                  let cleaned :=
                    trim (replace (plain [OneOf isQuote] false) [] m) in
                  if (3 <=? List.length cleaned)%nat
                     && (List.length cleaned <=? 50)%nat
                     && negb (str_in (toUpperCase cleaned) ENTITY_STOPLIST)
                     && negb (isCommonWord cleaned)
                  then entities_add entities cleaned
                  else entities).
  assert (Hm : forall ms l,
             NoDup l /\ Forall (fun x => entity_ok x = true) l ->
             NoDup (fold_left stepm ms l)
             /\ Forall (fun x => entity_ok x = true) (fold_left stepm ms l)).
  { induction ms as [|m ms IH]; intros l Hl; [exact Hl|].
    cbn [fold_left]. apply IH. unfold stepm. cbv zeta.
    match goal with |- context [if ?c then _ else _] =>
      destruct c eqn:C end; [|exact Hl].
    apply entities_add_keeps; [exact Hl | exact C]. }
  assert (Hp : forall ps l,
             NoDup l /\ Forall (fun x => entity_ok x = true) l ->
             NoDup (fold_left
                      (fun entities pattern_ =>
                         fold_left stepm
                           (matchAll pattern_ None 0 (sanitizeInput text))
                           entities) ps l)
             /\ Forall (fun x => entity_ok x = true)
                  (fold_left
                     (fun entities pattern_ =>
                        fold_left stepm
                          (matchAll pattern_ None 0 (sanitizeInput text))
                          entities) ps l)).
  { induction ps as [|pat ps IH]; intros l Hl; [exact Hl|].
    cbn [fold_left]. apply IH, Hm, Hl. }
  destruct (Hp ENTITY_PATTERNS [] (conj (NoDup_nil _) (Forall_nil _)))
    as [Hn Hf].
  split; [|split].
  - etransitivity; [apply firstn_le_length | reflexivity].
  - now apply NoDup_prefix.
  - now apply Forall_prefix.
Qed.

(** ** The cache in use *)

Section CacheInUse.
Variable T : Type.
Implicit Types (c : LRUCache.t T) (m : list (jsstring * LRUCache.entry T)).

Lemma map_get_set_same key (e : LRUCache.entry T) m :
  map_get key (map_set key e m) = Some e.
Proof.
  induction m as [|[k e'] m IH]; cbn [map_set map_get].
  - now rewrite str_eqb_refl.
  - destruct (str_eqb key k) eqn:E; cbn [map_get]; now rewrite E.
Qed.

Lemma map_set_length key (e : LRUCache.entry T) m :
  (List.length (map_set key e m) <= S (List.length m))%nat.
Proof.
  induction m as [|[k e'] m IH]; cbn [map_set List.length]; [lia|].
  destruct (str_eqb key k); cbn [List.length]; lia.
Qed.

Lemma map_delete_shorter key (e : LRUCache.entry T) m :
  map_get key m = Some e ->
  (S (List.length (map_delete key m)) <= List.length m)%nat.
Proof.
  induction m as [|[k e'] m IH]; cbn [map_get]; [discriminate|].
  rewrite map_delete_cons.
  destruct (str_eqb key k); cbn [List.length].
  - intros _. pose proof (filter_length_le
      (fun kv => negb (str_eqb key (fst kv))) m) as H.
    unfold map_delete. lia.
  - intros H. apply IH in H. lia.
Qed.

Lemma map_delete_le key m :
  (List.length (map_delete key m) <= List.length m)%nat.
Proof. apply filter_length_le. Qed.

Lemma evict_fits limit m :
  (1 <= limit)%Z ->
  (Z.of_nat (List.length (LRUCache.evict limit m)) < limit)%Z.
Proof.
  intros H. induction m as [|x m IH]; cbn [LRUCache.evict].
  - cbn. lia.
  - destruct (Z.geb_spec (Z.of_nat (List.length (x :: m))) limit) as [G|G];
      [exact IH | exact G].
Qed.

Lemma set_size now key (v : T) c :
  (1 <= LRUCache.maxSize c)%Z ->
  (Z.of_nat (LRUCache.size (LRUCache.set now key v c))
   <= LRUCache.maxSize c)%Z.
Proof.
  intros H. unfold LRUCache.size, LRUCache.set.
  cbn [LRUCache.cache LRUCache.with_cache].
  match goal with |- context [map_set key ?e ?m] =>
    pose proof (map_set_length key e m) as L end.
  pose proof (evict_fits (LRUCache.cache c) H). lia.
Qed.

Lemma get_size now key c :
  (LRUCache.size (snd (LRUCache.get now key c)) <= LRUCache.size c)%nat.
Proof.
  unfold LRUCache.size, LRUCache.get.
  destruct (map_get key (LRUCache.cache c)) as [item|] eqn:E;
    [|cbn; lia].
  destruct (_ >? _)%Z; cbn [snd LRUCache.cache LRUCache.with_cache].
  - apply map_delete_le.
  - match goal with |- context [map_set key ?e ?m] =>
      pose proof (map_set_length key e m) as L end.
    pose proof (map_delete_shorter _ _ E). lia.
Qed.

Lemma perform_maxSize c (o : LRUCache.op T) :
  LRUCache.maxSize (LRUCache.perform c o) = LRUCache.maxSize c
  /\ LRUCache.ttl (LRUCache.perform c o) = LRUCache.ttl c.
Proof.
  destruct o as [now key|now key v|]; cbn [LRUCache.perform];
    try (split; reflexivity).
  unfold LRUCache.get.
  destruct (map_get key (LRUCache.cache c)); [|split; reflexivity].
  destruct (_ >? _)%Z; split; reflexivity.
Qed.

(** X11: A cache of capacity at least 1 never holds more entries than its
    capacity, whatever gets, sets and clears are made on it. *)
Theorem cache_never_exceeds_capacity (maxSize ttl : Z)
  (ops : list (LRUCache.op T)) :
  (1 <= maxSize)%Z ->
  (Z.of_nat (LRUCache.size
               (LRUCache.run ops (LRUCache.create T maxSize ttl)))
   <= maxSize)%Z.
Proof.
  intros H. unfold LRUCache.run.
  assert (G : forall c,
             LRUCache.maxSize c = maxSize ->
             (Z.of_nat (LRUCache.size c) <= maxSize)%Z ->
             (Z.of_nat (LRUCache.size (fold_left (@LRUCache.perform T) ops c))
              <= maxSize)%Z).
  { induction ops as [|o ops IH]; intros c Hm Hs; [exact Hs|].
    cbn [fold_left]. apply IH.
    - now rewrite (proj1 (perform_maxSize c o)).
    - destruct o as [now key|now key v|]; cbn [LRUCache.perform].
      + pose proof (get_size now key c). lia.
      + rewrite <- Hm. apply set_size. lia.
      + cbn. lia. }
  apply G; [reflexivity | cbn; lia].
Qed.

Lemma get_within_ttl (c : LRUCache.t T) (now now' : Z) (key : jsstring)
  (v : T) :
  (now' - now <= LRUCache.ttl c)%Z ->
  fst (LRUCache.get now' key (LRUCache.set now key v c)) = Some v.
Proof.
  intros H. unfold LRUCache.get, LRUCache.set.
  cbn [LRUCache.cache LRUCache.with_cache LRUCache.ttl].
  rewrite map_get_set_same. cbn [LRUCache.timestamp LRUCache.value].
  destruct (Z.gtb_spec (now' - now) (LRUCache.ttl c)); [lia | reflexivity].
Qed.

Lemma get_after_ttl (c : LRUCache.t T) (t t2 : Z) (key : jsstring)
  (v : T) (reads : list Z) :
  (t2 - t > LRUCache.ttl c)%Z ->
  fst (LRUCache.get t2 key
         (LRUCache.run (map (fun t1 => LRUCache.OpGet T t1 key) reads)
                       (LRUCache.set t key v c))) = None.
Proof.
  intros H. unfold LRUCache.run.
  assert (G : forall c',
             LRUCache.ttl c' = LRUCache.ttl c ->
             (map_get key (LRUCache.cache c') = None
              \/ exists item, map_get key (LRUCache.cache c') = Some item
                              /\ LRUCache.timestamp item = t) ->
             fst (LRUCache.get t2 key
                    (fold_left (@LRUCache.perform T)
                       (map (fun t1 => LRUCache.OpGet T t1 key) reads) c'))
             = None).
  { induction reads as [|t1 reads IH]; intros c' Httl Hk.
    - cbn [map fold_left]. unfold LRUCache.get.
      destruct Hk as [-> | (item & -> & Ht)]; [reflexivity|].
      rewrite Ht, Httl.
      destruct (Z.gtb_spec (t2 - t) (LRUCache.ttl c)); [reflexivity | lia].
    - cbn [map fold_left LRUCache.perform]. apply IH.
      + unfold LRUCache.get.
        destruct (map_get key (LRUCache.cache c')); [|exact Httl].
        destruct (_ >? _)%Z; exact Httl.
      + unfold LRUCache.get.
        destruct Hk as [E | (item & E & Ht)]; rewrite E; [now left|].
        destruct (_ >? _)%Z; cbn [snd LRUCache.cache LRUCache.with_cache].
        * left. apply map_get_delete_same.
        * right. eexists. split; [apply map_get_set_same | exact Ht]. }
  apply G; [reflexivity|].
  right. eexists. unfold LRUCache.set.
  cbn [LRUCache.cache LRUCache.with_cache].
  split; [apply map_get_set_same | reflexivity].
Qed.

(** X12: An entry lives for its time to live, counted from the moment it was
    set.  Up to then a get returns what was set, whatever the cache held
    and whatever its capacity; later a get misses, however often and
    however recently the entry was read in between: reading does not
    renew an entry. *)
Theorem entry_lives_for_its_ttl (c : LRUCache.t T) (t : Z) (key : jsstring)
  (v : T) :
  (forall now, (now - t <= LRUCache.ttl c)%Z ->
     fst (LRUCache.get now key (LRUCache.set t key v c)) = Some v)
  /\ (forall (reads : list Z) (now : Z),
        (now - t > LRUCache.ttl c)%Z ->
        fst (LRUCache.get now key
               (LRUCache.run (map (fun t1 => LRUCache.OpGet T t1 key) reads)
                             (LRUCache.set t key v c))) = None).
Proof.
  split.
  - intros now H. now apply get_within_ttl.
  - intros reads now H. now apply get_after_ttl.
Qed.
End CacheInUse.

Section CacheOrder.
Variable T : Type.
Implicit Types (c : LRUCache.t T) (m : list (jsstring * LRUCache.entry T)).

Lemma map_get_absent key m :
  ~ In key (map fst m) -> map_get key m = None.
Proof.
  induction m as [|[k e] m IH]; cbn [map fst In map_get]; [reflexivity|].
  intros H. destruct (str_eqb key k) eqn:E.
  - apply str_eqb_eq in E. subst. tauto.
  - apply IH. tauto.
Qed.

Lemma map_set_present_keys key (e e' : LRUCache.entry T) m :
  map_get key m = Some e -> map fst (map_set key e' m) = map fst m.
Proof.
  induction m as [|[k e0] m IH]; cbn [map_get map_set]; [discriminate|].
  destruct (str_eqb key k) eqn:E; cbn [map fst].
  - intros _. apply str_eqb_eq in E. now subst.
  - intros H. f_equal. now apply IH.
Qed.

Lemma NoDup_suffix (A : Type) (n : nat) (l : list A) :
  NoDup l -> NoDup (skipn n l).
Proof.
  revert l. induction n as [|n IH]; intros [|x l] H; cbn; try assumption.
  apply IH. now inversion H.
Qed.

Lemma lastn_app_lastn (A : Type) (n : nat) (a b : list A) :
  lastn n (lastn n a ++ b) = lastn n (a ++ b).
Proof.
  unfold lastn. rewrite !length_app, length_skipn.
  rewrite !skipn_app, skipn_skipn, length_skipn.
  assert (E : skipn (List.length a - (List.length a - n) + List.length b - n
                     + (List.length a - n)) a
              = skipn (List.length a + List.length b - n) a)
    by (f_equal; lia).
  rewrite E. f_equal. f_equal. lia.
Qed.

Lemma set_fresh_keys c now key (v : T) :
  (1 <= LRUCache.maxSize c)%Z ->
  (Z.of_nat (LRUCache.size c) <= LRUCache.maxSize c)%Z ->
  ~ In key (LRUCache.keys c) ->
  LRUCache.keys (LRUCache.set now key v c)
  = lastn (Z.to_nat (LRUCache.maxSize c)) (LRUCache.keys c ++ [key]).
Proof.
  intros H1 Hs Hk. apply map_get_absent in Hk.
  unfold LRUCache.keys, lastn.
  rewrite length_app, length_map. cbn [List.length].
  destruct (Z.eq_dec (Z.of_nat (LRUCache.size c)) (LRUCache.maxSize c))
    as [E|E].
  - rewrite set_full_evicts_first by assumption.
    unfold LRUCache.size in E.
    replace (List.length (LRUCache.cache c) + 1
             - Z.to_nat (LRUCache.maxSize c))%nat with 1%nat by lia.
    destruct (LRUCache.cache c) as [|x m]; [cbn in E; lia|].
    cbn [tl map app skipn]. now rewrite map_app.
  - unfold LRUCache.size in *.
    replace (List.length (LRUCache.cache c) + 1
             - Z.to_nat (LRUCache.maxSize c))%nat with 0%nat by lia.
    cbn [skipn]. unfold LRUCache.set.
    cbn [LRUCache.cache LRUCache.with_cache].
    rewrite evict_below by lia.
    rewrite map_set_fresh by assumption. now rewrite map_app.
Qed.

(** X13: Keys that are all different are kept first in, first out: after
    setting them one after the other in an empty cache of capacity at
    least 1, the cache holds exactly the last [maxSize] of them, in the
    order they were set. *)
Theorem distinct_sets_keep_the_latest (maxSize ttl : Z)
  (ins : list (Z * jsstring * T)) :
  (1 <= maxSize)%Z ->
  NoDup (map (fun i => snd (fst i)) ins) ->
  LRUCache.keys
    (LRUCache.run
       (map (fun i => LRUCache.OpSet (fst (fst i)) (snd (fst i)) (snd i)) ins)
       (LRUCache.create T maxSize ttl))
  = lastn (Z.to_nat maxSize) (map (fun i => snd (fst i)) ins).
Proof.
  intros H1 Hd. unfold LRUCache.run.
  assert (G : forall c,
             LRUCache.maxSize c = maxSize ->
             (Z.of_nat (LRUCache.size c) <= maxSize)%Z ->
             NoDup (LRUCache.keys c ++ map (fun i => snd (fst i)) ins) ->
             LRUCache.keys
               (fold_left (@LRUCache.perform T)
                  (map (fun i => LRUCache.OpSet (fst (fst i))
                                   (snd (fst i)) (snd i)) ins) c)
             = lastn (Z.to_nat maxSize)
                 (LRUCache.keys c ++ map (fun i => snd (fst i)) ins)).
  { clear Hd. induction ins as [|[[now key] v] ins IH]; intros c Hm Hs Hn.
    - cbn [map fold_left]. rewrite app_nil_r. unfold lastn, LRUCache.keys.
      rewrite length_map. unfold LRUCache.size in Hs.
      replace (List.length (LRUCache.cache c) - Z.to_nat maxSize)%nat
        with 0%nat by lia.
      reflexivity.
    - cbn [map fold_left LRUCache.perform fst snd].
      assert (Hk : ~ In key (LRUCache.keys c)).
      { apply NoDup_remove_2 in Hn. intros Hin. apply Hn.
        apply in_or_app. now left. }
      assert (Hset := @set_fresh_keys c now key v).
      rewrite Hm in Hset. specialize (Hset H1 Hs Hk).
      rewrite IH.
      + rewrite Hset, lastn_app_lastn, <- app_assoc. reflexivity.
      + exact Hm.
      + rewrite <- Hm. apply set_size. lia.
      + rewrite Hset. unfold lastn.
        set (n := (List.length (LRUCache.keys c ++ [key])
                   - Z.to_nat maxSize)%nat).
        assert (Hskip : skipn n (LRUCache.keys c ++ [key])
                        ++ map (fun i => snd (fst i)) ins
                        = skipn n ((LRUCache.keys c ++ [key])
                                   ++ map (fun i => snd (fst i)) ins)).
        { rewrite (@skipn_app _ n (LRUCache.keys c ++ [key])).
          replace (n - List.length (LRUCache.keys c ++ [key]))%nat
            with 0%nat by (subst n; lia).
          reflexivity. }
        rewrite Hskip. apply NoDup_suffix.
        rewrite <- app_assoc. exact Hn. }
  rewrite G; [reflexivity | reflexivity | cbn; lia | exact Hd].
Qed.

(** X14: Setting a key the cache already holds, when the cache is full, still
    evicts the oldest entry: no key is added, the first one is lost and
    the cache ends up one entry short of its capacity. *)
Theorem overwrite_in_full_cache_evicts (c : LRUCache.t T) (now : Z)
  (key k0 : jsstring) (v : T) (e0 e : LRUCache.entry T)
  (m : list (jsstring * LRUCache.entry T)) :
  LRUCache.cache c = (k0, e0) :: m ->
  Z.of_nat (LRUCache.size c) = LRUCache.maxSize c ->
  map_get key m = Some e ->
  LRUCache.keys (LRUCache.set now key v c) = map fst m
  /\ S (LRUCache.size (LRUCache.set now key v c)) = LRUCache.size c.
Proof.
  intros Hc Hfull Hk.
  assert (Hkeys : LRUCache.keys (LRUCache.set now key v c) = map fst m).
  { unfold LRUCache.keys, LRUCache.set.
    cbn [LRUCache.cache LRUCache.with_cache].
    rewrite evict_full; [| exact Hfull |].
    - rewrite Hc. cbn [tl]. now apply map_set_present_keys with (e := e).
    - unfold LRUCache.size in Hfull. rewrite Hc in Hfull.
      cbn [List.length] in Hfull. lia. }
  split; [exact Hkeys|].
  unfold LRUCache.size at 1. rewrite <- (length_map fst).
  change (map fst (LRUCache.cache (LRUCache.set now key v c)))
    with (LRUCache.keys (LRUCache.set now key v c)).
  rewrite Hkeys, length_map. unfold LRUCache.size. now rewrite Hc.
Qed.

Lemma accesses_from (m : list (jsstring * LRUCache.entry T)) (n : nat) :
  Forall (fun kv => (1 <= LRUCache.accessCount (snd kv))%nat) m ->
  (n + List.length m
   <= fold_left (fun sum item => (sum + LRUCache.accessCount (snd item))%nat)
        m n)%nat.
Proof.
  revert n. induction m as [|kv m IH]; intros n H; cbn [fold_left List.length].
  - lia.
  - inversion H as [|? ? Hkv Hm]; subst.
    specialize (IH (n + LRUCache.accessCount (snd kv))%nat Hm). lia.
Qed.

Lemma map_set_counted key (e : LRUCache.entry T) m :
  (1 <= LRUCache.accessCount e)%nat ->
  Forall (fun kv => (1 <= LRUCache.accessCount (snd kv))%nat) m ->
  Forall (fun kv => (1 <= LRUCache.accessCount (snd kv))%nat)
         (map_set key e m).
Proof.
  intros He. induction m as [|[k e'] m IH]; intros H; cbn [map_set].
  - repeat constructor. exact He.
  - inversion H as [|? ? Hkv Hm]; subst.
    destruct (str_eqb key k); constructor; auto.
Qed.

Lemma evict_counted limit m :
  Forall (fun kv => (1 <= LRUCache.accessCount (snd kv))%nat) m ->
  Forall (fun kv => (1 <= LRUCache.accessCount (snd kv))%nat)
         (LRUCache.evict limit m).
Proof.
  induction m as [|kv m IH]; intros H; cbn [LRUCache.evict]; [constructor|].
  destruct (_ >=? _)%Z; [|exact H]. apply IH. now inversion H.
Qed.

Lemma map_delete_counted key m :
  Forall (fun kv => (1 <= LRUCache.accessCount (snd kv))%nat) m ->
  Forall (fun kv => (1 <= LRUCache.accessCount (snd kv))%nat)
         (map_delete key m).
Proof.
  intros H. unfold map_delete. rewrite Forall_forall in *.
  intros kv Hin. apply filter_In in Hin as [Hin _]. now apply H.
Qed.

Lemma perform_counted c (o : LRUCache.op T) :
  Forall (fun kv => (1 <= LRUCache.accessCount (snd kv))%nat)
         (LRUCache.cache c) ->
  Forall (fun kv => (1 <= LRUCache.accessCount (snd kv))%nat)
         (LRUCache.cache (LRUCache.perform c o)).
Proof.
  intros H. destruct o as [now key|now key v|]; cbn [LRUCache.perform].
  - unfold LRUCache.get.
    destruct (map_get key (LRUCache.cache c)) as [item|]; [|exact H].
    destruct (_ >? _)%Z; cbn [snd LRUCache.cache LRUCache.with_cache].
    + now apply map_delete_counted.
    + apply map_set_counted; [cbn; lia | now apply map_delete_counted].
  - unfold LRUCache.set. cbn [LRUCache.cache LRUCache.with_cache].
    apply map_set_counted; [cbn; lia | now apply evict_counted].
  - constructor.
Qed.

(** X15: The statistics of a cache in use: the reported size is the number of
    entries, the reported hit rate lies between 0 and 1, and it is 0
    only for an empty cache. *)
Theorem getStats_hitRate_range (maxSize ttl : Z)
  (ops : list (LRUCache.op T)) :
  let c := LRUCache.run ops (LRUCache.create T maxSize ttl) in
  LRUCache.stat_size (LRUCache.getStats c) = LRUCache.size c
  /\ 0 <= LRUCache.hitRate (LRUCache.getStats c) <= 1
  /\ (LRUCache.hitRate (LRUCache.getStats c) == 0 <-> LRUCache.size c = 0%nat).
Proof.
  cbv zeta.
  assert (G : Forall (fun kv => (1 <= LRUCache.accessCount (snd kv))%nat)
                (LRUCache.cache
                   (LRUCache.run ops (LRUCache.create T maxSize ttl)))).
  { unfold LRUCache.run.
    assert (K : forall c,
               Forall (fun kv => (1 <= LRUCache.accessCount (snd kv))%nat)
                      (LRUCache.cache c) ->
               Forall (fun kv => (1 <= LRUCache.accessCount (snd kv))%nat)
                      (LRUCache.cache
                         (fold_left (@LRUCache.perform T) ops c))).
    { induction ops as [|o ops IH]; intros c H; [exact H|].
      cbn [fold_left]. apply IH. now apply perform_counted. }
    apply K. constructor. }
  set (c := LRUCache.run ops (LRUCache.create T maxSize ttl)) in *.
  pose proof (accesses_from 0 G) as Hsum. cbn [Nat.add] in Hsum.
  unfold LRUCache.getStats, LRUCache.size.
  cbn [LRUCache.stat_size LRUCache.hitRate].
  set (total := fold_left _ _ _) in *.
  split; [reflexivity|].
  destruct (Nat.ltb_spec 0 total) as [P|P].
  - assert (Ht : 1 <= of_nat total) by (apply of_nat_pos; lia).
    assert (Hl : of_nat (List.length (LRUCache.cache c)) <= of_nat total).
    { unfold of_nat. rewrite <- Zle_Qle. lia. }
    pose proof (of_nat_nonneg (List.length (LRUCache.cache c))) as Hn.
    split; [split|].
    + apply Qle_shift_div_l; [lra | lra].
    + apply Qle_shift_div_r; [lra | lra].
    + split.
      * intros Hz. destruct (List.length (LRUCache.cache c)) eqn:El;
          [reflexivity|].
        assert (Hp : 1 <= of_nat (S n)) by (apply of_nat_pos; lia).
        assert (Hq : 0 < of_nat (S n) / of_nat total).
        { apply Qlt_shift_div_l; lra. }
        lra.
      * intros ->. change (of_nat 0) with 0. unfold Qdiv.
        apply Qmult_0_l.
  - split; [lra|]. split; [intros _; lia | reflexivity].
Qed.
End CacheOrder.

Lemma entry_lives_for_its_ttl_witness :
  (5 - 2 <= LRUCache.ttl sample_cache)%Z
  /\ fst (LRUCache.get 5 (js "a") (LRUCache.set 2 (js "a") 7%Z sample_cache))
     = Some 7%Z
  /\ (300003 - 2 > LRUCache.ttl sample_cache)%Z
  /\ fst (LRUCache.get 300003 (js "a")
            (LRUCache.run
               (map (fun t1 => LRUCache.OpGet Z t1 (js "a")) [100; 300001]%Z)
               (LRUCache.set 2 (js "a") 7%Z sample_cache))) = None.
Proof.
  assert (H1 : (5 - 2 <= LRUCache.ttl sample_cache)%Z)
    by (vm_compute; discriminate).
  assert (H2 : (300003 - 2 > LRUCache.ttl sample_cache)%Z)
    by (vm_compute; reflexivity).
  destruct (@entry_lives_for_its_ttl Z sample_cache 2 (js "a") 7%Z)
    as [A B].
  split; [exact H1|]. split; [exact (A 5%Z H1)|].
  split; [exact H2|]. exact (B [100; 300001]%Z 300003%Z H2).
Defined.

Lemma cache_never_exceeds_capacity_witness :
  (1 <= 2)%Z
  /\ (Z.of_nat (LRUCache.size
                  (LRUCache.run
                     [LRUCache.OpSet 1 (js "a") 10%Z;
                      LRUCache.OpSet 2 (js "b") 20%Z;
                      LRUCache.OpGet Z 3 (js "a");
                      LRUCache.OpSet 4 (js "c") 30%Z]
                     (LRUCache.create Z 2 300000)))
      <= 2)%Z.
Proof.
  split; [lia|].
  apply (@cache_never_exceeds_capacity Z 2 300000); lia.
Defined.

Lemma distinct_sets_keep_the_latest_witness :
  (1 <= 2)%Z
  /\ NoDup (map (fun i : Z * jsstring * Z => snd (fst i))
              [(1%Z, js "a", 10%Z); (2%Z, js "b", 20%Z); (3%Z, js "c", 30%Z)])
  /\ LRUCache.keys
       (LRUCache.run
          (map (fun i : Z * jsstring * Z =>
                  LRUCache.OpSet (fst (fst i)) (snd (fst i)) (snd i))
             [(1%Z, js "a", 10%Z); (2%Z, js "b", 20%Z); (3%Z, js "c", 30%Z)])
          (LRUCache.create Z 2 300000))
     = [js "b"; js "c"].
Proof.
  assert (D : NoDup (map (fun i : Z * jsstring * Z => snd (fst i))
              [(1%Z, js "a", 10%Z); (2%Z, js "b", 20%Z); (3%Z, js "c", 30%Z)])).
  { repeat constructor; cbn; intros H;
      repeat (destruct H as [H|H]; [discriminate H|]); exact H. }
  split; [lia|]. split; [exact D|].
  rewrite (@distinct_sets_keep_the_latest Z 2 300000 _ ltac:(lia) D).
  reflexivity.
Defined.

Lemma overwrite_in_full_cache_evicts_witness :
  LRUCache.keys (LRUCache.set 3 (js "b") 21%Z sample_cache) = [js "b"]
  /\ S (LRUCache.size (LRUCache.set 3 (js "b") 21%Z sample_cache))
     = LRUCache.size sample_cache.
Proof.
  apply (@overwrite_in_full_cache_evicts Z sample_cache 3 (js "b") (js "a")
           21%Z entry_a
           {| LRUCache.value := 20%Z; LRUCache.timestamp := 2;
              LRUCache.accessCount := 1 |}
           [(js "b", {| LRUCache.value := 20%Z; LRUCache.timestamp := 2;
                        LRUCache.accessCount := 1 |})]);
    reflexivity.
Defined.

(** ** The circuit breaker in use *)

Section BreakerInUse.
Variables W T : Type.
Variable clock : W -> Z.
Implicit Types (b : CircuitBreaker.t) (w : W)
  (fn : W -> result T * W).

Import CircuitBreaker.

Lemma executeAll_app (xs ys : list (call W T)) b w :
  executeAll clock (xs ++ ys) b w
  = executeAll clock ys (fst (executeAll clock xs b w))
      (snd (executeAll clock xs b w)).
Proof.
  revert b w. induction xs as [|[pause fn] xs IH]; intros b w;
    cbn [app executeAll]; [reflexivity|].
  destruct (execute clock fn b (pause w)) as [[r b'] w']. apply IH.
Qed.

(** Failures below the threshold are counted and leave the breaker
    closed. *)
Lemma failures_counted (calls : list (call W T)) :
  forall b w,
    state b = closed ->
    (Z.of_nat (failures b + List.length calls) < threshold b)%Z ->
    Forall (fun c => fails (snd c)) calls ->
    let b' := fst (executeAll clock calls b w) in
    state b' = closed
    /\ failures b' = (failures b + List.length calls)%nat
    /\ threshold b' = threshold b /\ timeout b' = timeout b.
Proof.
  induction calls as [|[pause fn] calls IH]; intros b w Hc Hlt Hf; cbv zeta.
  - cbn [executeAll fst List.length]. rewrite Nat.add_0_r. tauto.
  - inversion Hf as [|? ? Hfn Hfns]; subst. cbn [snd] in Hfn.
    destruct (Hfn (pause w)) as (e & w' & Efn).
    cbn [executeAll List.length] in *.
    rewrite (@execute_failure W T clock b b (pause w) fn e w'
               (@guard_closed b (clock (pause w)) Hc) Efn).
    destruct (IH (onFailure (clock w') b) w') as (I1 & I2 & I3 & I4).
    + unfold onFailure. cbn [state].
      destruct (Z.geb_spec (Z.of_nat (S (failures b))) (threshold b));
        [lia | exact Hc].
    + unfold onFailure. cbn [failures threshold]. lia.
    + exact Hfns.
    + rewrite I1, I2, I3, I4. unfold onFailure.
      cbn [failures threshold timeout]. repeat split. lia.
Qed.

Lemma success_resets b w fn :
  state b = closed -> succeeds fn ->
  let b' := snd (fst (execute clock fn b w)) in
  state b' = closed /\ failures b' = 0%nat
  /\ threshold b' = threshold b /\ timeout b' = timeout b.
Proof.
  intros Hc Hs. cbv zeta. destruct (Hs w) as (v & w' & Efn).
  rewrite (@execute_success W T clock b b w fn v w'
             (@guard_closed b (clock w) Hc) Efn).
  cbn [fst snd]. unfold onSuccess. rewrite Hc. cbn. tauto.
Qed.

(** X16: The threshold counts consecutive failures, not failures in total: as
    long as every run of failed calls is shorter than the threshold and
    ends in a successful call, the breaker stays closed, however many
    calls fail in all; and the failure count it holds is the length of
    the run of failures it is in. *)
Theorem scattered_failures_keep_closed (th to : Z)
  (blocks : list (list (call W T) * call W T)) (rest : list (call W T))
  (w : W) :
  (1 <= th)%Z ->
  Forall (fun blk => Forall (fun c => fails (snd c)) (fst blk)
                     /\ (Z.of_nat (List.length (fst blk)) < th)%Z
                     /\ succeeds (snd (snd blk))) blocks ->
  Forall (fun c => fails (snd c)) rest ->
  (Z.of_nat (List.length rest) < th)%Z ->
  let b := fst (executeAll clock
                  (flat_map (fun blk => fst blk ++ [snd blk]) blocks ++ rest)
                  (create th to) w) in
  state b = closed /\ failures b = List.length rest.
Proof.
  intros Hth Hb Hr Hl. cbv zeta.
  assert (G : forall b0 w0,
             state b0 = closed -> failures b0 = 0%nat ->
             threshold b0 = th ->
             let b := fst (executeAll clock
                             (flat_map (fun blk => fst blk ++ [snd blk]) blocks
                              ++ rest) b0 w0) in
             state b = closed /\ failures b = List.length rest).
  { induction blocks as [|[fs [pause fn]] blocks IH]; intros b0 w0 Hc Hf Ht;
      cbv zeta.
    - cbn [flat_map app].
      destruct (@failures_counted rest b0 w0 Hc) as (I1 & I2 & _);
        [rewrite Hf, Ht; cbn [Nat.add]; exact Hl | exact Hr |].
      rewrite I1, I2, Hf. split; reflexivity.
    - inversion Hb as [|? ? (B1 & B2 & B3) Hbs]; subst.
      cbn [fst snd] in B1, B2, B3.
      cbn [flat_map fst snd]. rewrite <- !app_assoc.
      rewrite executeAll_app.
      destruct (@failures_counted fs b0 w0 Hc) as (I1 & I2 & I3 & I4);
        [rewrite Hf; cbn [Nat.add]; exact B2 | exact B1 |].
      set (b1 := fst (executeAll clock fs b0 w0)) in *.
      set (w1 := snd (executeAll clock fs b0 w0)).
      cbn [app executeAll].
      destruct (@success_resets b1 (pause w1) fn I1 B3) as (S1 & S2 & S3 & _).
      destruct (execute clock fn b1 (pause w1)) as [[r b2] w2].
      cbn [fst snd] in S1, S2, S3.
      apply (IH Hbs b2 w2 S1 S2). now rewrite S3, I3. }
  apply G; reflexivity.
Qed.

(** X17: Across any sequence of calls on a breaker created with a threshold
    of at least 1, the threshold and the timeout stay as given, and the
    breaker is closed exactly when its failure count is below the
    threshold. *)
Theorem closed_iff_below_threshold (th to : Z) (calls : list (call W T))
  (w : W) :
  (1 <= th)%Z ->
  let b := fst (executeAll clock calls (create th to) w) in
  threshold b = th /\ timeout b = to
  /\ (state b = closed <-> (Z.of_nat (failures b) < th)%Z).
Proof.
  intros Hth. cbv zeta.
  set (Inv := fun b => threshold b = th /\ timeout b = to
                       /\ (state b = closed <->
                           (Z.of_nat (failures b) < th)%Z)).
  assert (Hfail : forall b now, Inv b -> Inv (onFailure now b)).
  { intros b now (I1 & I2 & I3). unfold Inv, onFailure.
    cbn [threshold timeout state failures]. rewrite I1.
    split; [reflexivity|]. split; [exact I2|].
    destruct (Z.geb_spec (Z.of_nat (S (failures b))) th).
    - split; [discriminate | lia].
    - split; [intros _; lia|]. intros _. apply I3. lia. }
  assert (Hok : forall b, Inv b -> Inv (onSuccess b)).
  { intros b (I1 & I2 & I3). unfold Inv, onSuccess.
    destruct (state b) eqn:E; cbn [threshold timeout state failures].
    - split; [exact I1|]. split; [exact I2|]. split; [lia | reflexivity].
    - split; [exact I1|]. split; [exact I2|]. split; [lia | reflexivity].
    - destruct (3 <=? S (successCount b))%nat;
        cbn [threshold timeout state failures].
      + split; [exact I1|]. split; [exact I2|]. split; [lia | reflexivity].
      + split; [exact I1|]. split; [exact I2|].
        split; [discriminate|]. intros Hlt. apply I3 in Hlt. discriminate. }
  assert (Hguard : forall b b1 now, guard now b = Some b1 -> Inv b -> Inv b1).
  { intros b b1 now Hg (I1 & I2 & I3). unfold guard in Hg.
    destruct (state b) eqn:E.
    - injection Hg as <-. unfold Inv. rewrite E. tauto.
    - destruct (_ >? _)%Z; [|discriminate]. injection Hg as <-.
      unfold Inv. cbn [threshold timeout state failures].
      split; [exact I1|]. split; [exact I2|].
      split; [discriminate|]. intros Hlt. apply I3 in Hlt. discriminate.
    - injection Hg as <-. unfold Inv. rewrite E. tauto. }
  assert (Hexec : forall fn b w0,
             Inv b -> Inv (snd (fst (execute clock fn b w0)))).
  { intros fn b w0 HI. unfold execute.
    destruct (guard (clock w0) b) as [b1|] eqn:Hg; [|exact HI].
    pose proof (Hguard b b1 (clock w0) Hg HI) as H1.
    destruct (fn w0) as [[v|e] w']; cbn [fst snd]; auto. }
  assert (Hall : forall b w0, Inv b -> Inv (fst (executeAll clock calls b w0))).
  { induction calls as [|[pause fn] calls IH]; intros b w0 HI;
      cbn [executeAll]; [exact HI|].
    pose proof (Hexec fn b (pause w0) HI) as H1.
    destruct (execute clock fn b (pause w0)) as [[r b'] w'].
    now apply IH. }
  apply (Hall (create th to) w).
  unfold Inv. cbn [create threshold timeout state failures].
  split; [reflexivity|]. split; [reflexivity|]. split; [lia | reflexivity].
Qed.
End BreakerInUse.

Lemma scattered_failures_keep_closed_witness :
  (1 <= 2)%Z
  /\ CircuitBreaker.state
       (fst (CircuitBreaker.executeAll read_clock
               (flat_map (fun blk => fst blk ++ [snd blk])
                  [([(no_pause, op_fail)], (no_pause, op_ok));
                   ([(no_pause, op_fail)], (no_pause, op_ok));
                   ([], (no_pause, op_ok))]
                ++ [(no_pause, op_fail)])
               (CircuitBreaker.create 2 100) 0%Z))
     = CircuitBreaker.closed
  /\ CircuitBreaker.failures
       (fst (CircuitBreaker.executeAll read_clock
               (flat_map (fun blk => fst blk ++ [snd blk])
                  [([(no_pause, op_fail)], (no_pause, op_ok));
                   ([(no_pause, op_fail)], (no_pause, op_ok));
                   ([], (no_pause, op_ok))]
                ++ [(no_pause, op_fail)])
               (CircuitBreaker.create 2 100) 0%Z))
     = 1%nat.
Proof.
  split; [lia|].
  apply (@scattered_failures_keep_closed Z unit read_clock 2 100
           [([(no_pause, op_fail)], (no_pause, op_ok));
            ([(no_pause, op_fail)], (no_pause, op_ok));
            ([], (no_pause, op_ok))]
           [(no_pause, op_fail)] 0%Z).
  - lia.
  - repeat constructor; cbn; try lia;
      try exact op_fail_fails; try exact op_ok_succeeds.
  - repeat constructor. exact op_fail_fails.
  - cbn. lia.
Defined.

Lemma closed_iff_below_threshold_witness :
  (1 <= 2)%Z
  /\ CircuitBreaker.threshold breaker_open = 2%Z
  /\ CircuitBreaker.timeout breaker_open = 100%Z
  /\ (CircuitBreaker.state breaker_open = CircuitBreaker.closed
      <-> (Z.of_nat (CircuitBreaker.failures breaker_open) < 2)%Z).
Proof.
  split; [lia|].
  apply (@closed_iff_below_threshold Z unit read_clock 2 100
           [(no_pause, op_fail); (no_pause, op_fail)] 0%Z).
  lia.
Defined.

(** ** The rate limiter in use *)

Section LimiterInUse.
Import SimpleRateLimiter.

Lemma removeTokens_bounds (l : t) (now count : Z) :
  (0 <= count)%Z ->
  (0 <= tokens l <= tokensPerInterval l)%Z ->
  let l' := fst (removeTokens now count l) in
  (0 <= tokens l' <= tokensPerInterval l')%Z
  /\ tokensPerInterval l' = tokensPerInterval l
  /\ interval l' = interval l.
Proof.
  intros Hc Hb. cbv zeta. unfold removeTokens.
  destruct (Z.geb_spec (now - lastRefill l) (interval l));
    cbn [tokens tokensPerInterval interval lastRefill];
    match goal with |- context [(?a >=? ?b)%Z] =>
      destruct (Z.geb_spec a b) end;
    cbn [fst tokens tokensPerInterval interval]; lia.
Qed.

(** X18: The bucket never goes below zero nor above its capacity: for a
    limiter created with a non-negative capacity and calls asking for
    non-negative counts, at whatever times they come. *)
Theorem tokens_stay_within_capacity (now0 n : Z) (iv : string)
  (calls : list (Z * Z)) :
  (0 <= n)%Z ->
  Forall (fun c => (0 <= snd c)%Z) calls ->
  let l := fst (removeTokensAll calls (create now0 n iv)) in
  (0 <= tokens l <= n)%Z /\ tokensPerInterval l = n.
Proof.
  intros Hn Hc. cbv zeta.
  assert (G : forall l0,
             (0 <= tokens l0 <= tokensPerInterval l0)%Z ->
             tokensPerInterval l0 = n ->
             (0 <= tokens (fst (removeTokensAll calls l0)) <= n)%Z
             /\ tokensPerInterval (fst (removeTokensAll calls l0)) = n).
  { induction calls as [|[now count] calls IH]; intros l0 Hb Hcap.
    - cbn [removeTokensAll fst]. lia.
    - inversion Hc as [|? ? Hcount Hrest]; subst. cbn [snd] in Hcount.
      cbn [removeTokensAll].
      destruct (@removeTokens_bounds l0 now count Hcount Hb) as (B1 & B2 & _).
      destruct (removeTokens now count l0) as [l' w]. cbn [fst] in B1, B2.
      specialize (IH Hrest l' B1 B2).
      destruct (removeTokensAll calls l') as [l'' rs]. exact IH. }
  apply G; cbn [create tokens tokensPerInterval]; lia.
Qed.

(** X19: Between two refills the limiter hands out no more than it holds:
    for calls that all come before the interval is over, the tokens left
    are the tokens held minus the tokens granted, and the refill time is
    untouched; so with non-negative counts at most [tokens l] tokens are
    granted. *)
Theorem grants_within_an_interval (l : t) (calls : list (Z * Z)) :
  (0 <= tokens l)%Z ->
  Forall (fun c => (fst c - lastRefill l < interval l)%Z
                   /\ (0 <= snd c)%Z) calls ->
  let l' := fst (removeTokensAll calls l) in
  tokens l' = (tokens l - granted calls l)%Z
  /\ lastRefill l' = lastRefill l
  /\ (0 <= granted calls l <= tokens l)%Z.
Proof.
  revert l. induction calls as [|[now count] calls IH]; intros l Ht Hc;
    cbv zeta.
  - cbn [removeTokensAll granted fst]. lia.
  - inversion Hc as [|? ? [Hnow Hcount] Hrest]; subst.
    cbn [fst snd] in Hnow, Hcount.
    cbn [removeTokensAll granted].
    assert (E : removeTokens now count l
                = if (tokens l >=? count)%Z
                  then ({| tokens := (tokens l - count)%Z;
                           lastRefill := lastRefill l;
                           tokensPerInterval := tokensPerInterval l;
                           interval := interval l |}, None)
                  else (l, Some (interval l - (now - lastRefill l))%Z)).
    { unfold removeTokens.
      destruct (Z.geb_spec (now - lastRefill l) (interval l)); [lia|].
      reflexivity. }
    rewrite E.
    destruct (Z.geb_spec (tokens l) count) as [G|G].
    + set (l1 := {| tokens := (tokens l - count)%Z;
                    lastRefill := lastRefill l;
                    tokensPerInterval := tokensPerInterval l;
                    interval := interval l |}).
      destruct (IH l1) as (I1 & I2 & I3).
      * cbn [l1 tokens]. lia.
      * exact Hrest.
      * destruct (removeTokensAll calls l1) as [l'' rs].
        cbn [fst] in *. cbn [l1 tokens lastRefill] in *. lia.
    + destruct (IH l Ht Hrest) as (I1 & I2 & I3).
      destruct (removeTokensAll calls l) as [l'' rs].
      cbn [fst] in *. lia.
Qed.

(** X20: The windows are fixed ones, so a burst can straddle a refill: a
    caller that takes the whole capacity at any moment of the first
    interval and again at its end is served at once both times, twice
    the capacity within less than one interval. *)
Theorem burst_across_refill (now0 n d : Z) (iv : string) :
  (0 <= n)%Z ->
  (0 <= d < interval (create now0 n iv))%Z ->
  let l := create now0 n iv in
  let first := removeTokens (now0 + d) n l in
  let second := removeTokens (now0 + interval l) n (fst first) in
  snd first = None /\ snd second = None
  /\ granted [((now0 + d)%Z, n); ((now0 + interval l)%Z, n)] l = (2 * n)%Z.
Proof.
  intros Hn Hd. cbv zeta. cbn [granted].
  unfold removeTokens, create in *.
  cbn [tokens lastRefill tokensPerInterval interval fst snd] in *.
  set (i := if String.eqb iv "minute" then 60000%Z else 1000%Z) in *.
  destruct (Z.geb_spec (now0 + d - now0) i); [lia|].
  cbn [tokens lastRefill tokensPerInterval interval fst snd].
  destruct (Z.geb_spec n n); [|lia].
  cbn [tokens lastRefill tokensPerInterval interval fst snd].
  destruct (Z.geb_spec (now0 + i - now0) i); [|lia].
  cbn [tokens lastRefill tokensPerInterval interval fst snd].
  destruct (Z.geb_spec n n); [|lia].
  cbn [fst snd]. repeat split. lia.
Qed.
End LimiterInUse.

Lemma tokens_stay_within_capacity_witness :
  (0 <= 2)%Z
  /\ Forall (fun c : Z * Z => (0 <= snd c)%Z) [(1, 1); (2, 1)]%Z
  /\ (0 <= SimpleRateLimiter.tokens limiter_spent <= 2)%Z
  /\ SimpleRateLimiter.tokensPerInterval limiter_spent = 2%Z.
Proof.
  assert (F : Forall (fun c : Z * Z => (0 <= snd c)%Z) [(1, 1); (2, 1)]%Z)
    by (repeat constructor; cbn; lia).
  split; [lia|]. split; [exact F|].
  apply (@tokens_stay_within_capacity 0 2 "second" [(1, 1); (2, 1)]%Z);
    [lia | exact F].
Defined.

Lemma grants_within_an_interval_witness :
  (0 <= SimpleRateLimiter.tokens (SimpleRateLimiter.create 0 2 "second"))%Z
  /\ SimpleRateLimiter.tokens
       (fst (SimpleRateLimiter.removeTokensAll [(1, 1); (2, 1); (3, 1)]%Z
               (SimpleRateLimiter.create 0 2 "second")))
     = (SimpleRateLimiter.tokens (SimpleRateLimiter.create 0 2 "second")
        - granted [(1, 1); (2, 1); (3, 1)]%Z
            (SimpleRateLimiter.create 0 2 "second"))%Z
  /\ (0 <= granted [(1, 1); (2, 1); (3, 1)]%Z
             (SimpleRateLimiter.create 0 2 "second")
      <= 2)%Z.
Proof.
  assert (H0 : (0 <= SimpleRateLimiter.tokens
                       (SimpleRateLimiter.create 0 2 "second"))%Z)
    by (vm_compute; discriminate).
  destruct (@grants_within_an_interval
              (SimpleRateLimiter.create 0 2 "second")
              [(1, 1); (2, 1); (3, 1)]%Z H0) as (G1 & _ & G3).
  - repeat constructor; vm_compute; congruence.
  - split; [exact H0|]. split; [exact G1 | exact G3].
Defined.

Lemma burst_across_refill_witness :
  (0 <= 2)%Z
  /\ (0 <= 999 < 1000)%Z
  /\ granted [(999, 2); (1000, 2)]%Z (SimpleRateLimiter.create 0 2 "second")
     = 4%Z.
Proof.
  split; [lia|]. split; [lia|].
  apply (@burst_across_refill 0 2 999 "second"); [lia|].
  vm_compute. split; [discriminate | reflexivity].
Defined.

(** ** The audit trail in use *)

Section TrailInUse.
Variables RawEntity W : Type.
Variable clock : W -> Z.
Variable sha256 : jsstring -> string.
Variable generateSessionId : W -> string * W.
Variable sanitizeOutput : RawEntity -> result QlooEntity.
Variable searchAll : list jsstring -> W -> list RawEntity * nat * W.
Variable getDemographicAnalysis :
  list QlooEntity -> W -> list DemographicAnalysis * nat * W.
Variable sleep : Z -> W -> W.

Abbreviation Client := (Client RawEntity W).
Abbreviation tryBlock :=
  (tryBlock clock sanitizeOutput searchAll getDemographicAnalysis).
Abbreviation analyzeContent :=
  (analyzeContent clock sha256 generateSessionId sanitizeOutput searchAll
     getDemographicAnalysis).

Lemma js_slice_last (A : Type) (n : Z) (l : list A) :
  (1 <= n)%Z -> js_slice (- n) l = lastn (Z.to_nat n) l.
Proof.
  intros H. unfold js_slice, lastn.
  destruct (Z.ltb_spec (- n) 0); [|lia]. f_equal. lia.
Qed.

Lemma js_slice_zero (A : Type) (l : list A) : js_slice (- 0) l = l.
Proof.
  unfold js_slice. cbn [Z.opp]. destruct (Z.ltb_spec 0 0); [lia|].
  rewrite Z.min_l by lia. reflexivity.
Qed.

Lemma lastn_length (A : Type) (n : nat) (l : list A) :
  List.length (lastn n l) = Nat.min n (List.length l).
Proof. unfold lastn. rewrite length_skipn. lia. Qed.

Lemma lastn_all (A : Type) (n : nat) (l : list A) :
  (List.length l <= n)%nat -> lastn n l = l.
Proof.
  intros H. unfold lastn.
  replace (List.length l - n)%nat with 0%nat by lia. reflexivity.
Qed.

Lemma lastn_snoc (A : Type) (n : nat) (l : list A) (x : A) :
  lastn (S n) (l ++ [x]) = lastn n l ++ [x].
Proof.
  unfold lastn. rewrite length_app. cbn [List.length].
  rewrite skipn_app.
  replace (List.length l + 1 - S n)%nat with (List.length l - n)%nat by lia.
  replace (List.length l - n - List.length l)%nat with 0%nat by lia.
  reflexivity.
Qed.

Lemma addAuditTrail_last (maxTrails : Z) (trail : AuditTrail) (c : Client) :
  (1 <= maxTrails)%Z ->
  auditTrails (addAuditTrail maxTrails trail c)
  = lastn (Z.to_nat maxTrails) (auditTrails c ++ [trail]).
Proof.
  intros H. unfold addAuditTrail. cbn [auditTrails].
  destruct (Z.gtb_spec (Z.of_nat (List.length (auditTrails c ++ [trail])))
                       maxTrails).
  - now apply js_slice_last.
  - symmetry. apply lastn_all. lia.
Qed.

Lemma retention_bounds (maxTrails : Z) :
  (1 <= maxTrails)%Z ->
  (forall (trail : AuditTrail) (c : Client),
      auditTrails (addAuditTrail maxTrails trail c)
      = lastn (Z.to_nat maxTrails - 1) (auditTrails c) ++ [trail]
      /\ (Z.of_nat (List.length (auditTrails (addAuditTrail maxTrails trail c)))
          <= maxTrails)%Z)
  /\ (forall (content_ : jsstring) (userId_ : option string) (c : Client),
         (Z.of_nat (List.length
                      (auditTrails
                         (snd (analyzeContent maxTrails content_ userId_ c))))
          <= maxTrails)%Z).
Proof.
  intros H.
  assert (A : forall (trail : AuditTrail) (c : Client),
             auditTrails (addAuditTrail maxTrails trail c)
             = lastn (Z.to_nat maxTrails - 1) (auditTrails c) ++ [trail]
             /\ (Z.of_nat (List.length
                             (auditTrails (addAuditTrail maxTrails trail c)))
                 <= maxTrails)%Z).
  { intros trail c. rewrite addAuditTrail_last by exact H.
    replace (Z.to_nat maxTrails) with (S (Z.to_nat maxTrails - 1)) at 1 3
      by lia.
    rewrite lastn_snoc. split; [reflexivity|].
    rewrite length_app, lastn_length. cbn [List.length]. lia. }
  split; [exact A|].
  intros content_ userId_ c. unfold analyzeContent.
  destruct (generateSessionId (world c)) as [sid w0].
  destruct (tryBlock content_ _) as [[[a|e] hits] c1]; cbn [snd];
    apply A.
Qed.

Lemma retention_zero (trail : AuditTrail) (c : Client) :
  auditTrails (addAuditTrail 0 trail c) = auditTrails c ++ [trail].
Proof.
  unfold addAuditTrail. cbn [auditTrails].
  destruct (_ >? _)%Z; [|reflexivity].
  apply (js_slice_zero (auditTrails c ++ [trail])).
Qed.

(** X21: Retention.  With a limit of at least 1, the trail never holds more
    records than the limit after a record is added, whatever it held
    before; the records kept are the latest ones, in order, the new one
    last; and so it is after every call of [analyzeContent], returning
    or throwing.  The limit 0 keeps everything: [slice(-0)] is the whole
    array, so no record is ever dropped. *)
Theorem audit_trail_keeps_the_latest :
  (forall maxTrails : Z,
     (1 <= maxTrails)%Z ->
     (forall (trail : AuditTrail) (c : Client),
         auditTrails (addAuditTrail maxTrails trail c)
         = lastn (Z.to_nat maxTrails - 1) (auditTrails c) ++ [trail]
         /\ (Z.of_nat (List.length
                         (auditTrails (addAuditTrail maxTrails trail c)))
             <= maxTrails)%Z)
     /\ (forall (content_ : jsstring) (userId_ : option string) (c : Client),
            (Z.of_nat (List.length
                         (auditTrails
                            (snd (analyzeContent maxTrails content_ userId_
                                    c))))
             <= maxTrails)%Z))
  /\ (forall (trail : AuditTrail) (c : Client),
        auditTrails (addAuditTrail 0 trail c) = auditTrails c ++ [trail]).
Proof.
  split.
  - intros maxTrails H. now apply retention_bounds.
  - intros trail c. apply retention_zero.
Qed.

(** X22: [getAuditTrails]: a limit of at least 1 gives the latest records, at
    most that many, in the order of the trail; without a limit, the
    latest 100; the limit 0 gives the whole trail, not the empty list. *)
Theorem getAuditTrails_limit (c : Client) :
  (forall limit, (1 <= limit)%Z ->
     getAuditTrails (Some limit) c = lastn (Z.to_nat limit) (auditTrails c)
     /\ List.length (getAuditTrails (Some limit) c)
        = Nat.min (Z.to_nat limit) (List.length (auditTrails c)))
  /\ getAuditTrails None c = lastn 100 (auditTrails c)
  /\ getAuditTrails (Some 0%Z) c = auditTrails c.
Proof.
  split; [|split].
  - intros limit H. unfold getAuditTrails.
    rewrite js_slice_last by exact H. split; [reflexivity|].
    apply lastn_length.
  - unfold getAuditTrails. now rewrite js_slice_last by lia.
  - unfold getAuditTrails. apply js_slice_zero.
Qed.
End TrailInUse.

Lemma audit_trail_keeps_the_latest_witness :
  (1 <= 1)%Z
  /\ (Z.of_nat (List.length
                  (auditTrails
                     (snd (analyzeContent read_clock sample_hash
                             sample_session sample_sanitize sample_search
                             sample_demographics 1 sample_content None
                             (snd (analyzeContent read_clock sample_hash
                                     sample_session sample_sanitize
                                     sample_search sample_demographics 1
                                     sample_content None sample_client))))))
      <= 1)%Z.
Proof.
  split; [lia|].
  apply (proj1 (@audit_trail_keeps_the_latest _ _ read_clock sample_hash
                  sample_session sample_sanitize sample_search
                  sample_demographics) 1%Z ltac:(lia)).
Defined.

Lemma getAuditTrails_limit_witness :
  (1 <= 1)%Z
  /\ List.length
       (getAuditTrails (Some 1%Z)
          (snd (analyzeContent read_clock sample_hash sample_session
                  sample_sanitize sample_search sample_demographics 1000
                  sample_content None
                  (snd (analyzeContent read_clock sample_hash sample_session
                          sample_sanitize sample_search sample_demographics
                          1000 sample_content None sample_client)))))
     = 1%nat.
Proof.
  split; [lia|].
  destruct (@getAuditTrails_limit _ _
              (snd (analyzeContent read_clock sample_hash sample_session
                      sample_sanitize sample_search sample_demographics 1000
                      sample_content None
                      (snd (analyzeContent read_clock sample_hash
                              sample_session sample_sanitize sample_search
                              sample_demographics 1000 sample_content None
                              sample_client))))) as (H & _).
  destruct (H 1%Z ltac:(lia)) as [_ Hlen].
  rewrite Hlen. vm_compute. reflexivity.
Defined.

(** ** generateMitigationActions *)

Lemma severity_eqb_eq (a b : Severity) : severity_eqb a b = true <-> a = b.
Proof. destruct a, b; cbn; split; congruence. Qed.

Lemma max_reaches (A : Type) (g : A -> nat) (k : nat) (l : list A) :
  (1 <= k)%nat ->
  (k <=? fold_right Nat.max 0%nat (map g l))%nat
  = existsb (fun x => (k <=? g x)%nat) l.
Proof.
  intros H. induction l as [|x l IH]; cbn [map fold_right existsb].
  - destruct (Nat.leb_spec k 0); [lia | reflexivity].
  - rewrite <- IH.
    destruct (Nat.leb_spec k (Nat.max (g x) (fold_right Nat.max 0%nat (map g l))));
      destruct (Nat.leb_spec k (g x));
      destruct (Nat.leb_spec k (fold_right Nat.max 0%nat (map g l)));
      cbn; try reflexivity; lia.
Qed.

Lemma existsb_agree (A : Type) (p q : A -> bool) (l : list A) :
  (forall x, p x = q x) -> existsb p l = existsb q l.
Proof.
  intros H. induction l as [|x l IH]; cbn [existsb]; [reflexivity|].
  now rewrite H, IH.
Qed.

Lemma existsb_either (A : Type) (p q : A -> bool) (l : list A) :
  existsb (fun x => p x || q x) l = existsb p l || existsb q l.
Proof.
  induction l as [|x l IH]; cbn [existsb]; [reflexivity|].
  rewrite IH. destruct (p x), (q x), (existsb p l), (existsb q l);
    reflexivity.
Qed.

Lemma recommendation_last (fs : list BiasPattern) :
  let found s := existsb (fun b => severity_eqb (severity b) s) fs in
  last (generateMitigationActions fs) NoBiasDetected
  = match fs with
    | [] => NoBiasDetected
    | _ =>
        if found critical then DoNotPublish
        else if found high then AddressHighRisk
        else if found medium then AcceptableWithImprovements
        else MeetsStandards
    end.
Proof.
  cbv zeta. destruct fs as [|f fs]; [reflexivity|].
  unfold generateMitigationActions. cbv beta iota zeta.
  set (F := f :: fs). rewrite !app_assoc, last_last.
  rewrite !(@max_reaches BiasPattern (fun b => riskScores (severity b)))
    by lia.
  rewrite (@existsb_agree _ (fun x => (4 <=? riskScores (severity x))%nat)
             (fun b => severity_eqb (severity b) critical))
    by (intros x; destruct (severity x); reflexivity).
  rewrite (@existsb_agree _ (fun x => (3 <=? riskScores (severity x))%nat)
             (fun b => severity_eqb (severity b) high
                       || severity_eqb (severity b) critical))
    by (intros x; destruct (severity x); reflexivity).
  rewrite (@existsb_agree _ (fun x => (2 <=? riskScores (severity x))%nat)
             (fun b => severity_eqb (severity b) medium
                       || (severity_eqb (severity b) high
                           || severity_eqb (severity b) critical)))
    by (intros x; destruct (severity x); reflexivity).
  rewrite !existsb_either.
  destruct (existsb (fun b => severity_eqb (severity b) critical) F),
    (existsb (fun b => severity_eqb (severity b) high) F),
    (existsb (fun b => severity_eqb (severity b) medium) F); reflexivity.
Qed.

Lemma detail_lines (fs : list BiasPattern)
  (ms : list jsstring) (rk alts : list string) (fm : option jsstring) :
  (In (ReplaceMatches ms rk) (generateMitigationActions fs)
   <-> exists f, In f fs /\ severity f = critical
                 /\ matches f = ms /\ regulation_risk f = rk)
  /\ (In (ConsiderInstead alts fm) (generateMitigationActions fs)
      <-> exists f, In f fs /\ severity f = high
                    /\ firstn 2 (suggestions f) = alts
                    /\ hd_error (matches f) = fm).
Proof.
  destruct fs as [|f0 fs].
  { split; split; cbn.
    - intros [H|[]]; discriminate H.
    - intros (f & [] & _).
    - intros [H|[]]; discriminate H.
    - intros (f & [] & _). }
  unfold generateMitigationActions. cbv beta iota zeta.
  set (F := f0 :: fs). split.
  - rewrite !in_app_iff. split.
    + intros [H|[H|[H|[H|H]]]].
      * destruct (filter _ F) as [|x xs] eqn:E; [destruct H|].
        destruct H as [H|H]; [discriminate H|].
        apply in_map_iff in H as (f & Hf & Hin). rewrite <- E in Hin.
        apply filter_In in Hin as [Hin Hs]. apply severity_eqb_eq in Hs.
        exists f. injection Hf as <- <-. tauto.
      * destruct (filter _ F) as [|x xs]; [destruct H|].
        destruct H as [H|H]; [discriminate H|].
        apply in_map_iff in H as (f & Hf & _). discriminate Hf.
      * destruct (filter _ F); [destruct H|].
        destruct H as [H|[]]. discriminate H.
      * destruct (filter _ F); [destruct H|].
        destruct H as [H|[]]. discriminate H.
      * destruct H as [H|[]].
        repeat (destruct (_ <=? _)%nat); discriminate H.
    + intros (f & Hin & Hs & <- & <-). left.
      assert (Hf : In f (filter (fun b => severity_eqb (severity b) critical)
                           F)).
      { apply filter_In. split; [exact Hin|]. now apply severity_eqb_eq. }
      destruct (filter _ F) as [|x xs]; [destruct Hf|].
      right. apply in_map_iff. exists f. split; [reflexivity | exact Hf].
  - rewrite !in_app_iff. split.
    + intros [H|[H|[H|[H|H]]]].
      * destruct (filter _ F) as [|x xs]; [destruct H|].
        destruct H as [H|H]; [discriminate H|].
        apply in_map_iff in H as (f & Hf & _). discriminate Hf.
      * destruct (filter (fun b => severity_eqb (severity b) high) F)
          as [|x xs] eqn:E; [destruct H|].
        destruct H as [H|H]; [discriminate H|].
        apply in_map_iff in H as (f & Hf & Hin). rewrite <- E in Hin.
        apply filter_In in Hin as [Hin Hs]. apply severity_eqb_eq in Hs.
        exists f. injection Hf as <- <-. tauto.
      * destruct (filter _ F); [destruct H|].
        destruct H as [H|[]]. discriminate H.
      * destruct (filter _ F); [destruct H|].
        destruct H as [H|[]]. discriminate H.
      * destruct H as [H|[]].
        repeat (destruct (_ <=? _)%nat); discriminate H.
    + intros (f & Hin & Hs & <- & <-). right. left.
      assert (Hf : In f (filter (fun b => severity_eqb (severity b) high) F)).
      { apply filter_In. split; [exact Hin|]. now apply severity_eqb_eq. }
      destruct (filter _ F) as [|x xs]; [destruct Hf|].
      right. apply in_map_iff. exists f. split; [reflexivity | exact Hf].
Qed.

(** X23: The actions follow the findings.  The recommendation closes the list
    and goes by the worst severity found, whatever the number and the
    order of the findings: not to publish as soon as one finding is
    critical; otherwise to address the high risks as soon as one is
    high; and so on down.  The detailed lines follow the findings one to
    one: a line telling what to replace is written for each critical
    finding and for no other, with that finding's matches and
    regulations; a line proposing alternatives for each high finding and
    for no other, with its first two suggestions and its first match. *)
Theorem mitigation_actions_follow_findings (fs : list BiasPattern) :
  let found s := existsb (fun b => severity_eqb (severity b) s) fs in
  last (generateMitigationActions fs) NoBiasDetected
  = match fs with
    | [] => NoBiasDetected
    | _ =>
        if found critical then DoNotPublish
        else if found high then AddressHighRisk
        else if found medium then AcceptableWithImprovements
        else MeetsStandards
    end
  /\ (forall ms rk,
        In (ReplaceMatches ms rk) (generateMitigationActions fs)
        <-> exists f, In f fs /\ severity f = critical
                      /\ matches f = ms /\ regulation_risk f = rk)
  /\ (forall alts fm,
        In (ConsiderInstead alts fm) (generateMitigationActions fs)
        <-> exists f, In f fs /\ severity f = high
                      /\ firstn 2 (suggestions f) = alts
                      /\ hd_error (matches f) = fm).
Proof.
  cbv zeta. split; [apply recommendation_last|]. split.
  - intros ms rk. apply (proj1 (@detail_lines fs ms rk [] None)).
  - intros alts fm. apply (proj2 (@detail_lines fs [] [] alts fm)).
Qed.

(** ** analyzeContent and batchCulturalAudit *)

Section AnalysisInUse.
Variables RawEntity W : Type.
Variable clock : W -> Z.
Variable sha256 : jsstring -> string.
Variable generateSessionId : W -> string * W.
Variable sanitizeOutput : RawEntity -> result QlooEntity.
Variable searchAll : list jsstring -> W -> list RawEntity * nat * W.
Variable getDemographicAnalysis :
  list QlooEntity -> W -> list DemographicAnalysis * nat * W.
Variable sleep : Z -> W -> W.
Variable MAX_AUDIT_TRAILS : Z.

Abbreviation Client := (Client RawEntity W).
Abbreviation culturalAnalysis :=
  (culturalAnalysis clock sanitizeOutput searchAll getDemographicAnalysis).
Abbreviation tryBlock :=
  (tryBlock clock sanitizeOutput searchAll getDemographicAnalysis).
Abbreviation analyzeContent :=
  (analyzeContent clock sha256 generateSessionId sanitizeOutput searchAll
     getDemographicAnalysis MAX_AUDIT_TRAILS).
Abbreviation auditOne :=
  (auditOne clock sha256 generateSessionId sanitizeOutput searchAll
     getDemographicAnalysis MAX_AUDIT_TRAILS).
Abbreviation auditBatch :=
  (auditBatch clock sha256 generateSessionId sanitizeOutput searchAll
     getDemographicAnalysis MAX_AUDIT_TRAILS).
Abbreviation rounds :=
  (rounds clock sha256 generateSessionId sanitizeOutput searchAll
     getDemographicAnalysis sleep MAX_AUDIT_TRAILS).
Abbreviation batchCulturalAudit :=
  (batchCulturalAudit clock sha256 generateSessionId sanitizeOutput
     searchAll getDemographicAnalysis sleep MAX_AUDIT_TRAILS).

Lemma mapM_total (A B : Type) (f : A -> result B) (l : list A) :
  (forall x, exists y, f x = Ok y) -> exists ys, mapM f l = Ok ys.
Proof.
  intros H. induction l as [|x l [ys IH]]; cbn [mapM].
  - eexists. reflexivity.
  - destruct (H x) as [y ->]. rewrite IH. eexists. reflexivity.
Qed.

Lemma mapM_throws (A B : Type) (f : A -> result B) (l : list A) :
  Exists (fun x => exists e, f x = Throw e) l -> exists e, mapM f l = Throw e.
Proof.
  induction 1 as [x l [e He]|x l _ [e IH]]; cbn [mapM].
  - rewrite He. eexists. reflexivity.
  - destruct (f x); [|eexists; reflexivity].
    rewrite IH. eexists. reflexivity.
Qed.


Lemma culturalAnalysis_returns (content_ : jsstring) (c : Client) :
  (forall raw, exists e, sanitizeOutput raw = Ok e) ->
  exists es ds hits c1,
    culturalAnalysis content_ c = (Ok (es, ds), hits, c1).
Proof.
  intros Hs. unfold culturalAnalysis.
  destruct (extractEntities content_) as [|e es];
    [repeat eexists|].
  destruct (LRUCache.get _ _ _) as [[cached|] cache1].
  - destruct (@mapM_total _ _ sanitizeOutput cached Hs) as [ys ->].
    destruct ys as [|y ys]; [repeat eexists|].
    destruct (isFeatureEnabled _ _); [|repeat eexists].
    destruct (getDemographicAnalysis _ _) as [[ds calls] w2].
    repeat eexists.
  - destruct (searchAll _ _) as [[found calls] w1].
    destruct (@mapM_total _ _ sanitizeOutput found Hs) as [ys ->].
    destruct ys as [|y ys]; [repeat eexists|].
    destruct (isFeatureEnabled _ _); [|repeat eexists].
    destruct (getDemographicAnalysis _ _) as [[ds calls'] w2].
    repeat eexists.
Qed.

Lemma overall_range (cfg : EnvironmentConfig) (F : list BiasPattern)
  (sc : ComplianceScore) :
  (forall f, In f F -> 0 <= confidence f) ->
  calculateComplianceScore (Some cfg) F = Ok sc ->
  0 <= overallScore sc /\ overallScore sc <= 100.
Proof.
  intros HF E. unfold calculateComplianceScore in E. injection E as <-.
  cbn [overallScore].
  pose proof (accumulate_fst (mode cfg) F 0 []) as T.
  pose proof (deductions_nonneg (mode cfg) F HF) as D.
  set (a := accumulate (mode cfg) F (0, [])) in *.
  assert (B0 : 0 <= Qmax 0 (100 - fst a)) by apply Q.le_max_l.
  assert (B1 : Qmax 0 (100 - fst a) <= 100) by (apply Q.max_lub; lra).
  destruct (penalty_nonneg (mode cfg)) as (P1 & P2 & P3).
  set (base := Qmax 0 (100 - fst a)) in *.
  destruct (bucket_range (hasRegulationRisk (snd a) euAiActRegulations)
              B0 B1 P1) as [E0 E1].
  destruct (bucket_range (hasRegulationRisk (snd a) section508Regulations)
              B0 B1 P2) as [S0 S1].
  destruct (bucket_range (hasRegulationRisk (snd a) gdprRegulations)
              B0 B1 P3) as [G0 G1].
  split.
  - apply Q.min_glb; [apply Q.min_glb|]; assumption.
  - eapply Qle_trans; [apply Q.le_min_r|]. exact G1.
Qed.

(** X24: With the detector configured and a service whose entities all have
    the fields [sanitizeOutput] reads, [analyzeContent] returns for every
    content and every state of the client; the findings and the score it
    returns are the detector's for that content, the score lies between
    0 and 100, and the record it files holds the same findings, the
    actions drawn from them and the first 1000 code units of the
    content. *)
Theorem analyzeContent_returns_detector_output (cfg : EnvironmentConfig)
  (content_ : jsstring) (userId_ : option string) (c : Client) :
  detectorConfig c = Some cfg ->
  (forall raw, exists e, sanitizeOutput raw = Ok e) ->
  exists r,
    fst (analyzeContent content_ userId_ c) = Ok r
    /\ detectBiasPatterns (Some cfg) content_ = Ok (biasAnalysis r)
    /\ calculateComplianceScore (Some cfg) (biasAnalysis r)
       = Ok (a_complianceScore r)
    /\ 0 <= overallScore (a_complianceScore r) <= 100
    /\ detectedBias (auditTrail r) = biasAnalysis r
    /\ complianceScore (auditTrail r) = a_complianceScore r
    /\ mitigationActions (auditTrail r)
       = generateMitigationActions (biasAnalysis r)
    /\ originalContent (auditTrail r) = slice0 1000%N content_
    /\ userId (auditTrail r) = userId_.
Proof.
  intros Hcfg Hs. unfold analyzeContent.
  destruct (generateSessionId (world c)) as [sid w0].
  unfold tryBlock. cbn [detectorConfig with_world]. rewrite Hcfg.
  assert (D : exists fs, detectBiasPatterns (Some cfg) content_ = Ok fs)
    by (unfold detectBiasPatterns; eexists; reflexivity).
  destruct D as [fs D]. rewrite D.
  destruct (score_returns cfg fs) as [sc S]. rewrite S.
  match goal with |- context [culturalAnalysis content_ ?c0] =>
    destruct (@culturalAnalysis_returns content_ c0 Hs)
      as (es & ds & hits & c1 & ->) end.
  cbn [fst]. eexists. split; [reflexivity|].
  cbn [biasAnalysis a_complianceScore auditTrail detectedBias complianceScore
       mitigationActions originalContent userId t_detectedBias
       t_complianceScore].
  repeat split; try reflexivity; try assumption.
  - apply (@overall_range cfg fs sc); [|exact S].
    intros f Hf. pose proof (@detect_confidence cfg content_ fs D) as Hc.
    rewrite Forall_forall in Hc. now apply Hc.
  - apply (@overall_range cfg fs sc); [|exact S].
    intros f Hf. pose proof (@detect_confidence cfg content_ fs D) as Hc.
    rewrite Forall_forall in Hc. now apply Hc.
Qed.

(** X25: One entity that [sanitizeOutput] rejects fails the whole analysis:
    when the content names an entity, the cache is empty and the service
    returns an entity lacking the fields read, [analyzeContent] throws,
    findings and score are lost to the caller, and the record filed is
    the one of a system error. *)
Theorem malformed_entity_fails_analysis (cfg : EnvironmentConfig)
  (content_ : jsstring) (userId_ : option string) (c : Client) :
  detectorConfig c = Some cfg ->
  extractEntities content_ <> [] ->
  LRUCache.cache (entityCache c) = [] ->
  (forall names w,
      names <> [] ->
      Exists (fun raw => exists e, sanitizeOutput raw = Throw e)
             (fst (fst (searchAll names w)))) ->
  exists e,
    fst (analyzeContent content_ userId_ c) = Throw e
    /\ exists record k,
         auditTrails (snd (analyzeContent content_ userId_ c))
         = skipn k (auditTrails c ++ [record])
         /\ mitigationActions record = [SystemErrorOccurred]
         /\ regulations_triggered (complianceScore record)
            = ["SYSTEM_ERROR"%string]
         /\ detectedBias record = [].
Proof.
  intros Hcfg Hne Hempty Hbad. unfold analyzeContent.
  destruct (generateSessionId (world c)) as [sid w0].
  unfold tryBlock. cbn [detectorConfig with_world]. rewrite Hcfg.
  assert (D : exists fs, detectBiasPatterns (Some cfg) content_ = Ok fs)
    by (unfold detectBiasPatterns; eexists; reflexivity).
  destruct D as [fs D]. rewrite D.
  destruct (score_returns cfg fs) as [sc S]. rewrite S.
  unfold culturalAnalysis.
  destruct (extractEntities content_) as [|n ns]; [congruence|].
  unfold LRUCache.get.
  change (entityCache (with_world c (entityCache c) 0 w0))
    with (entityCache c).
  rewrite Hempty.
  cbn [map_get].
  match goal with |- context [searchAll ?names ?w] =>
    assert (Hnames : names <> []);
      [|specialize (Hbad names w Hnames); destruct (searchAll names w)
          as [[found calls] w1]] end.
  { match goal with |- firstn 5 (sort ?cmp ?l) <> [] =>
      pose proof (sort_perm cmp l) as P; destruct (sort cmp l) end.
    - apply Permutation_nil in P. discriminate P.
    - discriminate. }
  cbn [fst] in Hbad.
  destruct (@mapM_throws _ _ sanitizeOutput found Hbad) as [e ->].
  cbn [fst snd]. exists e. split; [reflexivity|].
  match goal with |- context [addAuditTrail ?m ?t ?c1] =>
    destruct (@addAuditTrail_pushes _ _ m t c1) as [k Hk]; exists t, k end.
  split; [exact Hk | repeat split].
Qed.
End AnalysisInUse.

Section BatchInUse.
Variables RawEntity W : Type.
Variable clock : W -> Z.
Variable sha256 : jsstring -> string.
Variable generateSessionId : W -> string * W.
Variable sanitizeOutput : RawEntity -> result QlooEntity.
Variable searchAll : list jsstring -> W -> list RawEntity * nat * W.
Variable getDemographicAnalysis :
  list QlooEntity -> W -> list DemographicAnalysis * nat * W.
Variable sleep : Z -> W -> W.
Variable MAX_AUDIT_TRAILS : Z.

Abbreviation Client := (Client RawEntity W).
Abbreviation BatchState := (BatchState RawEntity W).
Abbreviation tryBlock :=
  (tryBlock clock sanitizeOutput searchAll getDemographicAnalysis).
Abbreviation analyzeContent :=
  (analyzeContent clock sha256 generateSessionId sanitizeOutput searchAll
     getDemographicAnalysis MAX_AUDIT_TRAILS).
Abbreviation auditOne :=
  (auditOne clock sha256 generateSessionId sanitizeOutput searchAll
     getDemographicAnalysis MAX_AUDIT_TRAILS).
Abbreviation auditBatch :=
  (auditBatch clock sha256 generateSessionId sanitizeOutput searchAll
     getDemographicAnalysis MAX_AUDIT_TRAILS).
Abbreviation rounds :=
  (rounds clock sha256 generateSessionId sanitizeOutput searchAll
     getDemographicAnalysis sleep MAX_AUDIT_TRAILS).
Abbreviation batchCulturalAudit :=
  (batchCulturalAudit clock sha256 generateSessionId sanitizeOutput
     searchAll getDemographicAnalysis sleep MAX_AUDIT_TRAILS).

(** A score that [analyzeContent] returns lies between 0 and 100. *)
Lemma analyzeContent_score_range (content_ : jsstring)
  (userId_ : option string) (c : Client) (r : AnalysisResult) :
  fst (analyzeContent content_ userId_ c) = Ok r ->
  0 <= overallScore (a_complianceScore r)
  /\ overallScore (a_complianceScore r) <= 100.
Proof.
  unfold analyzeContent.
  destruct (generateSessionId (world c)) as [sid w0].
  unfold tryBlock. cbn [detectorConfig with_world].
  destruct (detectorConfig c) as [cfg|]; [|cbn; discriminate].
  assert (D : exists fs, detectBiasPatterns (Some cfg) content_ = Ok fs)
    by (unfold detectBiasPatterns; eexists; reflexivity).
  destruct D as [fs D]. rewrite D.
  destruct (score_returns cfg fs) as [sc S]. rewrite S.
  destruct (culturalAnalysis _ _ _ _ _ _) as [[[[es ds]|e] hits] c1];
    cbn [fst]; [|discriminate].
  intros E. injection E as <-. cbn [a_complianceScore].
  apply (@overall_range cfg fs sc); [|exact S].
  intros f Hf. pose proof (@detect_confidence cfg content_ fs D) as Hc.
  rewrite Forall_forall in Hc. now apply Hc.
Qed.

Lemma scoreSum_cons (e : BatchEntry) (es : list BatchEntry) :
  scoreSum (e :: es) = overallScore (b_complianceScore e) + scoreSum es.
Proof. reflexivity. Qed.

Lemma scoreSum_app (es1 es2 : list BatchEntry) :
  scoreSum (es1 ++ es2) == scoreSum es1 + scoreSum es2.
Proof.
  induction es1 as [|e es1 IH]; cbn [app].
  - change (scoreSum []) with 0. lra.
  - rewrite !scoreSum_cons, IH. lra.
Qed.

Lemma scoreSum_range (es : list BatchEntry) :
  Forall (fun e => 0 <= overallScore (b_complianceScore e)
                   /\ overallScore (b_complianceScore e) <= 100) es ->
  0 <= scoreSum es /\ scoreSum es <= 100 * of_nat (List.length es).
Proof.
  induction 1 as [|e es [H0 H1] _ [I0 I1]].
  - change (scoreSum []) with 0. change (of_nat (List.length [])) with 0.
    split; lra.
  - rewrite scoreSum_cons. cbn [List.length].
    assert (E : of_nat (S (List.length es)) == of_nat (List.length es) + 1).
    { unfold of_nat. rewrite Nat2Z.inj_succ, <- Z.add_1_r, inject_Z_plus.
      reflexivity. }
    rewrite E. split; lra.
Qed.

Lemma appended_refl (s : BatchState) (i : nat) : appended s s i 0.
Proof.
  exists []. rewrite app_nil_r. change (scoreSum []) with 0.
  cbn [map seq filter List.length].
  repeat split; try constructor; try lia. lra.
Qed.

Lemma appended_trans (s0 s1 s2 : BatchState) (i k1 k2 : nat) :
  appended s0 s1 i k1 -> appended s1 s2 (i + k1) k2 ->
  appended s0 s2 i (k1 + k2).
Proof.
  intros (es1 & A1 & A2 & A3 & A4 & A5 & A6)
         (es2 & B1 & B2 & B3 & B4 & B5 & B6).
  exists (es1 ++ es2). repeat split.
  - rewrite B1, A1. now rewrite app_assoc.
  - rewrite map_app, A2, B2. symmetry. apply seq_app.
  - rewrite B3, A3, scoreSum_app. lra.
  - rewrite B4, A4, filter_app, length_app. lia.
  - apply Forall_app. split; assumption.
  - apply Forall_app. split; assumption.
Qed.

Lemma auditOne_appended (i : nat) (request : BatchAuditRequest)
  (s : BatchState) :
  appended s (auditOne i request s) i 1.
Proof.
  unfold auditOne.
  pose proof (@analyzeContent_score_range (content request)
                (user_id request) (acc_client s)) as R.
  destruct (analyzeContent _ _ _) as [[analysis|e] c']; cbn [fst] in R.
  - eexists. cbn [acc_results totalComplianceScore acc_criticalIssuesCount].
    split; [reflexivity|].
    rewrite scoreSum_cons. change (scoreSum []) with 0.
    cbn [map index seq filter analysedCritical error b_complianceScore].
    specialize (R analysis eq_refl).
    repeat split.
    + lra.
    + destruct (severity_eqb _ _); cbn [List.length]; lia.
    + constructor; [|constructor]. cbn [error]. congruence.
    + constructor; [|constructor]. cbn [b_complianceScore]. exact R.
  - eexists. cbn [acc_results totalComplianceScore acc_criticalIssuesCount].
    split; [reflexivity|].
    rewrite scoreSum_cons. change (scoreSum []) with 0.
    cbn [map index seq filter analysedCritical error b_complianceScore
         overallScore List.length].
    repeat split.
    + lra.
    + lia.
    + constructor; [|constructor]. intros _. repeat split.
    + constructor; [|constructor]. cbn [b_complianceScore overallScore].
      split; lra.
Qed.

Lemma auditBatch_appended (batch : list BatchAuditRequest) :
  forall (i : nat) (s : BatchState),
    appended s (auditBatch i batch s) i (List.length batch).
Proof.
  induction batch as [|request batch IH]; intros i s;
    cbn [auditBatch List.length].
  - apply appended_refl.
  - change (S (List.length batch)) with (1 + List.length batch)%nat.
    apply appended_trans with (s1 := auditOne i request s).
    + apply auditOne_appended.
    + rewrite Nat.add_1_r. apply IH.
Qed.

Lemma rounds_appended (fuel : nat) :
  forall (i : nat) (pending : list BatchAuditRequest) (s : BatchState),
    (List.length pending <= fuel)%nat ->
    appended s (rounds fuel i pending s) i (List.length pending).
Proof.
  induction fuel as [|fuel IH]; intros i pending s Hlen.
  - destruct pending; [apply appended_refl | cbn [List.length] in Hlen; lia].
  - destruct pending as [|r pending]; [apply appended_refl|].
    set (p := r :: pending) in *.
    change (rounds (S fuel) i p s)
      with (let s1 := auditBatch i (firstn batchSize p) s in
            let later := skipn batchSize p in
            let s2 :=
              match later with
              | [] => s1
              | _ =>
                  let c := acc_client s1 in
                  {| acc_results := acc_results s1;
                     totalComplianceScore := totalComplianceScore s1;
                     acc_criticalIssuesCount := acc_criticalIssuesCount s1;
                     acc_client :=
                       with_world c (entityCache c) 0
                                  (sleep 1000 (world c)) |}
              end in
            rounds fuel (i + batchSize) later s2).
    cbv zeta.
    pose proof (auditBatch_appended (firstn batchSize p) i s) as H1.
    set (s1 := auditBatch i (firstn batchSize p) s) in *.
    assert (Hp : List.length p
                 = (List.length (firstn batchSize p)
                    + List.length (skipn batchSize p))%nat).
    { rewrite <- length_app, firstn_skipn. reflexivity. }
    rewrite Hp.
    apply appended_trans with (s1 := s1); [exact H1|].
    destruct (skipn batchSize p) as [|x later] eqn:El.
    + destruct fuel; apply appended_refl.
    + assert (Hf : List.length (firstn batchSize p) = batchSize).
      { rewrite length_firstn.
        assert (batchSize < List.length p)%nat; [|lia].
        pose proof (length_skipn batchSize p) as Hs. rewrite El in Hs.
        cbn [List.length] in Hs. lia. }
      rewrite Hf.
      match goal with |- appended s1 (rounds fuel _ _ ?s2) _ _ =>
        assert (H2 : appended s2 (rounds fuel (i + batchSize) (x :: later) s2)
                       (i + batchSize) (List.length (x :: later))) end.
      { apply IH. rewrite <- El, length_skipn. unfold batchSize.
        subst p. cbn [List.length] in *. lia. }
      destruct H2 as (es & B1 & B2 & B3 & B4 & B5 & B6).
      exists es. cbn [acc_results totalComplianceScore
                      acc_criticalIssuesCount] in *.
      repeat split; assumption.
Qed.

Lemma js_div_count (total : Q) (n : nat) :
  (1 <= n)%nat -> js_div total (of_nat n) = Num (total / of_nat n).
Proof.
  intros H. unfold js_div.
  destruct (Qeq_bool (of_nat n) 0) eqn:E; [|reflexivity].
  apply Qeq_bool_iff in E. pose proof (of_nat_pos H). lra.
Qed.

(** X26: What a batch returns: one entry per request, in the order of the
    requests and numbered from 0; the count of critical issues counts
    the analyses that returned with a critical risk level and leaves out
    the requests that failed, although their entries are marked critical
    and score 0; and for a batch that is not empty the average is the sum
    of the entries' overall scores, failed ones included, over the number
    of requests, a number between 0 and 100. *)
Theorem batch_summary_accounts_for_every_request
  (requests : list BatchAuditRequest) (c : Client) :
  let r := fst (batchCulturalAudit requests c) in
  map index (results r) = seq 0 (List.length requests)
  /\ totalProcessed (summary r) = List.length requests
  /\ criticalIssuesCount (summary r)
     = List.length (filter analysedCritical (results r))
  /\ Forall (fun e => error e <> None -> failedEntry e) (results r)
  /\ (requests <> [] ->
      exists avg,
        avgComplianceScore (summary r) = Num avg
        /\ avg == scoreSum (results r) / of_nat (List.length requests)
        /\ 0 <= avg /\ avg <= 100).
Proof.
  cbv zeta. unfold batchCulturalAudit.
  cbn [fst results summary totalProcessed criticalIssuesCount
       avgComplianceScore].
  match goal with |- context [rounds ?f 0 requests ?s0] =>
    destruct (@rounds_appended f 0 requests s0 ltac:(lia))
      as (es & A1 & A2 & A3 & A4 & A5 & A6);
    set (s := rounds f 0 requests s0) in * end.
  cbn [acc_results totalComplianceScore acc_criticalIssuesCount app Nat.add]
    in A1, A3, A4.
  rewrite A1, A4.
  split; [exact A2|]. split; [reflexivity|]. split; [reflexivity|].
  split; [exact A5|].
  intros Hne.
  assert (Hn : (1 <= List.length requests)%nat)
    by (destruct requests; [congruence | cbn; lia]).
  rewrite (js_div_count _ Hn). eexists. split; [reflexivity|].
  assert (Hlen : List.length es = List.length requests).
  { rewrite <- (length_map index), A2. apply length_seq. }
  destruct (scoreSum_range A6) as [S0 S1]. rewrite Hlen in S1.
  pose proof (of_nat_pos Hn) as Hpos.
  split; [|split].
  - rewrite A3. unfold Qdiv. lra.
  - apply Qle_shift_div_l; [lra|]. rewrite A3. lra.
  - apply Qle_shift_div_r; [lra|]. rewrite A3. lra.
Qed.
End BatchInUse.

Lemma analyzeContent_returns_detector_output_witness :
  exists r,
    fst (analyzeContent read_clock sample_hash sample_session sample_sanitize
           sample_search sample_demographics 1000 sample_content None
           sample_client) = Ok r
    /\ detectBiasPatterns (Some DEFAULT_HACKATHON_CONFIG) sample_content
       = Ok (biasAnalysis r)
    /\ 0 <= overallScore (a_complianceScore r) <= 100.
Proof.
  destruct (@analyzeContent_returns_detector_output unit Z read_clock
              sample_hash sample_session sample_sanitize sample_search
              sample_demographics 1000 DEFAULT_HACKATHON_CONFIG
              sample_content None sample_client)
    as (r & H1 & H2 & _ & H4 & _).
  - reflexivity.
  - intros raw. exists sample_entity. reflexivity.
  - exists r. split; [exact H1|]. split; [exact H2 | exact H4].
Defined.

Lemma malformed_entity_fails_analysis_witness :
  exists e,
    fst (analyzeContent read_clock sample_hash sample_session
           sample_sanitize_throws sample_search sample_demographics 1000
           sample_content None sample_client) = Throw e.
Proof.
  destruct (@malformed_entity_fails_analysis unit Z read_clock sample_hash
              sample_session sample_sanitize_throws sample_search
              sample_demographics 1000 DEFAULT_HACKATHON_CONFIG
              sample_content None sample_client)
    as (e & H & _).
  - reflexivity.
  - vm_compute. discriminate.
  - reflexivity.
  - intros [|n names] w Hn; [congruence|].
    cbn [sample_search map fst]. left. eexists. reflexivity.
  - exists e. exact H.
Defined.

Lemma batch_summary_accounts_for_every_request_witness :
  let requests :=
    repeat {| content := sample_content; user_id := None;
              include_demographics := None |} 6 in
  let r :=
    fst (batchCulturalAudit read_clock sample_hash sample_session
           sample_sanitize sample_search sample_demographics
           (fun d w => (w + d)%Z) 1000 requests sample_client) in
  requests <> []
  /\ map index (results r) = seq 0 6
  /\ exists avg,
       avgComplianceScore (summary r) = Num avg /\ 0 <= avg /\ avg <= 100.
Proof.
  cbv zeta.
  destruct (@batch_summary_accounts_for_every_request unit Z read_clock
              sample_hash sample_session sample_sanitize sample_search
              sample_demographics (fun d w => (w + d)%Z) 1000
              (repeat {| content := sample_content; user_id := None;
                         include_demographics := None |} 6)
              sample_client)
    as (A & _ & _ & _ & E).
  assert (Hne : repeat {| content := sample_content; user_id := None;
                          include_demographics := None |} 6 <> [])
    by (cbn; discriminate).
  split; [exact Hne|]. split; [exact A|].
  destruct (E Hne) as (avg & H1 & _ & H2 & H3).
  exists avg. repeat split; assumption.
Defined.

(** ** A repeated analysis *)

Section RepeatInUse.
Variables RawEntity W : Type.
Variable clock : W -> Z.
Variable sha256 : jsstring -> string.
Variable generateSessionId : W -> string * W.
Variable sanitizeOutput : RawEntity -> result QlooEntity.
Variable getDemographicAnalysis :
  list QlooEntity -> W -> list DemographicAnalysis * nat * W.
Variable MAX_AUDIT_TRAILS : Z.

Abbreviation Client := (Client RawEntity W).
Abbreviation Search := (list jsstring -> W -> list RawEntity * nat * W).
Abbreviation culturalAnalysisWith search :=
  (culturalAnalysis clock sanitizeOutput search
     getDemographicAnalysis).
Abbreviation tryBlockWith search :=
  (tryBlock clock sanitizeOutput search getDemographicAnalysis).
Abbreviation analyzeContentWith search :=
  (analyzeContent clock sha256 generateSessionId sanitizeOutput
     search getDemographicAnalysis MAX_AUDIT_TRAILS).
Abbreviation cacheKey content_ :=
  (join (js "|")
        (sort (fun a b => if str_ltb b a then 1 else 0)
              (extractEntities content_))).




End RepeatInUse.


(** ** Reporting *)

Lemma scores_sum_bounds (l : list Severity) (lo hi : Severity) :
  (forall s, In s l ->
     (severityScores lo <= severityScores s <= severityScores hi)%nat) ->
  forall a,
    (a + severityScores lo * List.length l
     <= fold_left (fun sum s => (sum + severityScores s)%nat) l a
     <= a + severityScores hi * List.length l)%nat.
Proof.
  induction l as [|s l IH]; intros H a; cbn [fold_left List.length].
  - lia.
  - assert (Hs := H s (or_introl eq_refl)).
    specialize (IH (fun s' Hin => H s' (or_intror Hin))
                   (a + severityScores s)%nat).
    nia.
Qed.

Lemma of_nat_le (a b : nat) : (a <= b)%nat -> of_nat a <= of_nat b.
Proof. intros H. unfold of_nat. rewrite <- Zle_Qle. lia. Qed.

Lemma of_nat_mult (a b : nat) : of_nat (a * b) == of_nat a * of_nat b.
Proof.
  unfold of_nat. rewrite Nat2Z.inj_mul, inject_Z_mult. reflexivity.
Qed.

(** X28: The average severity of a list that is not empty lies between the
    least and the greatest severity in it (so the average of equal
    severities is that severity); of no severity at all, where the
    average is 0 / 0, it is [low]. *)
Theorem average_severity_between_extremes :
  calculateAverageSeverity [] = low
  /\ forall (l : list Severity) (lo hi : Severity),
       l <> [] ->
       (forall s, In s l ->
          (severityScores lo <= severityScores s <= severityScores hi)%nat) ->
       (severityScores lo <= severityScores (calculateAverageSeverity l)
        <= severityScores hi)%nat.
Proof.
  split; [reflexivity|].
  intros l lo hi Hne H. unfold calculateAverageSeverity.
  assert (Hn : (1 <= List.length l)%nat)
    by (destruct l; [congruence | cbn; lia]).
  pose proof (@scores_sum_bounds l lo hi H 0%nat) as [B1 B2]. cbn [Nat.add] in B1, B2.
  set (total := fold_left _ l 0%nat) in *.
  rewrite (@js_div_count _ _ Hn). cbn [js_geb].
  apply of_nat_le in B1, B2. rewrite of_nat_mult in B1, B2.
  pose proof (of_nat_pos Hn) as Hpos.
  set (X := of_nat total) in *. set (N := of_nat (List.length l)) in *.
  assert (HA : N * (X / N) == X) by (apply Qmult_div_r; lra).
  set (A := X / N) in *.
  assert (Clo : of_nat (severityScores lo) <= A) by nra.
  assert (Chi : A <= of_nat (severityScores hi)) by nra.
  clearbody A. clear - Clo Chi.
  destruct (Qle_bool 3.5 A) eqn:E1;
    [apply Qle_bool_iff in E1
    |assert (F1 : ~ 3.5 <= A)
       by (intros C; apply Qle_bool_iff in C; congruence)];
  [|destruct (Qle_bool 2.5 A) eqn:E2;
    [apply Qle_bool_iff in E2
    |assert (F2 : ~ 2.5 <= A)
       by (intros C; apply Qle_bool_iff in C; congruence)];
   [|destruct (Qle_bool 1.5 A) eqn:E3;
     [apply Qle_bool_iff in E3
     |assert (F3 : ~ 1.5 <= A)
        by (intros C; apply Qle_bool_iff in C; congruence)]]];
  destruct lo, hi; cbn [severityScores] in *;
    unfold of_nat in Clo, Chi;
    cbn [Z.of_nat Pos.of_succ_nat Pos.succ] in Clo, Chi;
    change (inject_Z 1) with 1 in *; change (inject_Z 2) with 2 in *;
    change (inject_Z 3) with 3 in *; change (inject_Z 4) with 4 in *;
    try lia; exfalso; lra.
Qed.

Lemma average_severity_between_extremes_witness :
  [medium; high] <> []
  /\ (severityScores medium
      <= severityScores (calculateAverageSeverity [medium; high])
      <= severityScores high)%nat.
Proof.
  split; [discriminate|].
  apply (proj2 average_severity_between_extremes [medium; high] medium high);
    [discriminate|].
  intros s [<-|[<-|[]]]; cbn; lia.
Defined.

Section ReportFacts.
Variables RawEntity W : Type.
Variable clock : W -> Z.
Variable toISOString : Z -> string.
Variable generateTrends : list AuditTrail -> Z -> Z -> list TrendPoint.
Variable generateRecommendations :
  list AuditTrail -> list TopIssue -> Q -> list string.

Abbreviation Client := (Client RawEntity W).
Abbreviation generateComplianceReport :=
  (generateComplianceReport clock toISOString generateTrends
     generateRecommendations).

Lemma severity_eqb_refl (s : Severity) : severity_eqb s s = true.
Proof. now destruct s. Qed.

Lemma countOf_bump (k lvl : RiskLevel) (acc : list (RiskLevel * nat)) :
  countOf lvl (bump k acc)
  = (countOf lvl acc + if severity_eqb lvl k then 1 else 0)%nat.
Proof.
  unfold countOf. induction acc as [|[k' n] acc IH]; cbn [bump find fst snd].
  - destruct (severity_eqb lvl k); reflexivity.
  - destruct (severity_eqb k k') eqn:E; cbn [find fst snd].
    + apply severity_eqb_eq in E. subst k'.
      destruct (severity_eqb lvl k); cbn [snd]; lia.
    + destruct (severity_eqb lvl k') eqn:E'; cbn [snd].
      * apply severity_eqb_eq in E'. subst k'.
        destruct (severity_eqb lvl k) eqn:E2; [|lia].
        apply severity_eqb_eq in E2. subst k.
        now rewrite severity_eqb_refl in E.
      * exact IH.
Qed.

Lemma bump_keys (k : RiskLevel) (acc : list (RiskLevel * nat)) :
  NoDup (map fst acc) ->
  Forall (fun kv => (1 <= snd kv)%nat) acc ->
  NoDup (map fst (bump k acc))
  /\ Forall (fun kv => (1 <= snd kv)%nat) (bump k acc)
  /\ (forall k', In k' (map fst (bump k acc))
                 <-> k' = k \/ In k' (map fst acc)).
Proof.
  induction acc as [|[k' n] acc IH]; intros Hd Hp; cbn [bump map fst].
  - split; [repeat constructor; intros []|].
    split; [repeat constructor|]. intros k'. cbn. intuition congruence.
  - inversion Hd as [|? ? Hk Hd']; subst.
    inversion Hp as [|? ? Hn Hp']; subst. cbn [snd] in Hn.
    destruct (severity_eqb k k') eqn:E; cbn [map fst].
    + apply severity_eqb_eq in E. subst k'.
      split; [exact Hd|]. split; [constructor; [cbn; lia | exact Hp']|].
      intros k'. cbn [In]. intuition congruence.
    + destruct (IH Hd' Hp') as (I1 & I2 & I3).
      split; [|split].
      * constructor; [|exact I1]. rewrite I3. intros [->|Hin].
        -- now rewrite severity_eqb_refl in E.
        -- contradiction.
      * constructor; [exact Hn | exact I2].
      * intros k2. cbn [In]. rewrite I3. tauto.
Qed.

Lemma distribution_counts (trails : list AuditTrail) :
  forall acc,
    NoDup (map fst acc) ->
    Forall (fun kv => (1 <= snd kv)%nat) acc ->
    let dist :=
      fold_left (fun acc trail => bump (riskLevel (complianceScore trail)) acc)
                trails acc in
    NoDup (map fst dist)
    /\ Forall (fun kv => (1 <= snd kv)%nat) dist
    /\ forall lvl,
         countOf lvl dist
         = (countOf lvl acc + List.length (atLevel lvl trails))%nat.
Proof.
  induction trails as [|t trails IH]; intros acc Hd Hp; cbv zeta;
    cbn [fold_left].
  - split; [exact Hd|]. split; [exact Hp|]. intros lvl. cbn. lia.
  - destruct (@bump_keys (riskLevel (complianceScore t)) acc Hd Hp)
      as (B1 & B2 & _).
    destruct (IH _ B1 B2) as (I1 & I2 & I3).
    split; [exact I1|]. split; [exact I2|].
    intros lvl. rewrite I3, countOf_bump. unfold atLevel. cbn [filter].
    destruct (severity_eqb (riskLevel (complianceScore t)) lvl) eqn:E.
    + apply severity_eqb_eq in E. subst lvl.
      rewrite severity_eqb_refl. cbn [List.length]. lia.
    + destruct (severity_eqb lvl (riskLevel (complianceScore t))) eqn:E';
        [|lia].
      apply severity_eqb_eq in E'. subst lvl.
      now rewrite severity_eqb_refl in E.
Qed.

Lemma levels_partition (trails : list AuditTrail) :
  (List.length (atLevel low trails) + List.length (atLevel medium trails)
   + List.length (atLevel high trails)
   + List.length (atLevel critical trails))%nat
  = List.length trails.
Proof.
  unfold atLevel. induction trails as [|t trails IH]; [reflexivity|].
  cbn [filter]. destruct (riskLevel (complianceScore t));
    cbn [severity_eqb List.length]; lia.
Qed.

(** X29: The risk distribution of a report counts every record of the window
    once, at its risk level: a level is listed once, with the number of
    records at that level, and only when there is one; the count of a
    level that is not listed is 0; the counts of the four levels add up
    to the number of analyses reported. *)
Theorem risk_distribution_counts_every_record (daysBack : option Z)
  (c : Client) :
  let r := generateComplianceReport daysBack c in
  let recent :=
    recentTrailsOf clock (match daysBack with Some d => d | None => 7%Z end)
                   c in
  let dist := riskDistribution (r_summary r) in
  totalAnalyses (r_summary r) = List.length recent
  /\ NoDup (map fst dist)
  /\ Forall (fun kv => (1 <= snd kv)%nat) dist
  /\ (forall lvl, countOf lvl dist = List.length (atLevel lvl recent))
  /\ (countOf low dist + countOf medium dist + countOf high dist
      + countOf critical dist)%nat
     = totalAnalyses (r_summary r).
Proof.
  cbv zeta. unfold generateComplianceReport.
  cbn [r_summary totalAnalyses riskDistribution].
  set (recent := recentTrailsOf clock _ c).
  destruct (@distribution_counts recent [] (NoDup_nil _) (Forall_nil _))
    as (D1 & D2 & D3).
  cbv zeta in D1, D2, D3.
  split; [reflexivity|]. split; [exact D1|]. split; [exact D2|].
  split; [intros lvl; rewrite D3; reflexivity|].
  rewrite !D3. cbn [countOf find Nat.add]. apply levels_partition.
Qed.
End ReportFacts.

Section TopIssues.
Variables RawEntity W : Type.
Variable clock : W -> Z.
Variable toISOString : Z -> string.
Variable generateTrends : list AuditTrail -> Z -> Z -> list TrendPoint.
Variable generateRecommendations :
  list AuditTrail -> list TopIssue -> Q -> list string.

Abbreviation Client := (Client RawEntity W).
Abbreviation generateComplianceReport :=
  (generateComplianceReport clock toISOString generateTrends
     generateRecommendations).

Lemma biasType_eqb_eq (a b : BiasType) : biasType_eqb a b = true <-> a = b.
Proof. destruct a, b; cbn; split; congruence. Qed.

Lemma biasType_eqb_refl (a : BiasType) : biasType_eqb a a = true.
Proof. now destruct a. Qed.

Lemma fold_left_flat_map (A B C : Type) (f : A -> C -> A) (g : B -> list C)
  (l : list B) :
  forall a,
    fold_left (fun a' x => fold_left f (g x) a') l a
    = fold_left f (flat_map g l) a.
Proof.
  induction l as [|x l IH]; intros a; cbn [fold_left flat_map].
  - reflexivity.
  - rewrite fold_left_app. apply IH.
Qed.

Lemma ofType_snoc (k : BiasType) (done : list BiasPattern)
  (b : BiasPattern) :
  ofType k (done ++ [b])
  = ofType k done ++ (if biasType_eqb (type b) k then [b] else []).
Proof. unfold ofType. rewrite filter_app. reflexivity. Qed.

Lemma ofType_found (k : BiasType) (fs : list BiasPattern) :
  ofType k fs <> [] <-> exists f, In f fs /\ type f = k.
Proof.
  unfold ofType. split.
  - destruct (filter _ fs) as [|f l] eqn:E; [congruence|]. intros _.
    assert (Hin : In f (filter (fun b => biasType_eqb (type b) k) fs))
      by (rewrite E; now left).
    apply filter_In in Hin as [Hin Ht]. apply biasType_eqb_eq in Ht.
    now exists f.
  - intros (f & Hin & Ht) E.
    assert (Hf : In f (filter (fun b => biasType_eqb (type b) k) fs)).
    { apply filter_In. split; [exact Hin|]. now apply biasType_eqb_eq. }
    rewrite E in Hf. destruct Hf.
Qed.

Lemma tally_keys (key : BiasType) (s : Severity)
  (m : list (BiasType * Occurrence)) (k : BiasType) :
  In k (map fst (tally key s m)) <-> k = key \/ In k (map fst m).
Proof.
  induction m as [|[k0 o0] m IH]; cbn [tally map fst In].
  - intuition congruence.
  - destruct (biasType_eqb key k0) eqn:E; cbn [map fst In].
    + apply biasType_eqb_eq in E. intuition congruence.
    + rewrite IH. tauto.
Qed.

Lemma tally_NoDup (key : BiasType) (s : Severity)
  (m : list (BiasType * Occurrence)) :
  NoDup (map fst m) -> NoDup (map fst (tally key s m)).
Proof.
  induction m as [|[k0 o0] m IH]; intros Hd; cbn [tally map fst].
  - repeat constructor. intros [].
  - inversion Hd as [|? ? H0 Hd']; subst.
    destruct (biasType_eqb key k0) eqn:E; cbn [map fst]; [exact Hd|].
    constructor; [|now apply IH].
    rewrite tally_keys. intros [->|Hin]; [|contradiction].
    now rewrite biasType_eqb_refl in E.
Qed.

Lemma tally_In (key : BiasType) (s : Severity)
  (m : list (BiasType * Occurrence)) (k : BiasType) (o : Occurrence) :
  NoDup (map fst m) ->
  In (k, o) (tally key s m) ->
  (k <> key /\ In (k, o) m)
  \/ (k = key
      /\ exists o0,
           In (key, o0) m
           /\ o = {| count := S (count o0);
                     severities := severities o0 ++ [s] |})
  \/ (k = key /\ ~ In key (map fst m)
      /\ o = {| count := 1; severities := [s] |}).
Proof.
  induction m as [|[k0 o0] m IH]; intros Hd; cbn [tally In].
  - intros [E|[]]. injection E as <- <-. right. right.
    split; [reflexivity|]. split; [intros [] | reflexivity].
  - inversion Hd as [|? ? H0 Hd']; subst.
    destruct (biasType_eqb key k0) eqn:E; cbn [In].
    + apply biasType_eqb_eq in E. subst k0.
      intros [Eq|Hin].
      * injection Eq as <- <-. right. left. split; [reflexivity|].
        exists o0. split; [now left | reflexivity].
      * left. split; [|now right]. intros ->. apply H0.
        change key with (fst (key, o)). now apply in_map.
    + intros [Eq|Hin].
      * injection Eq as <- <-. left. split; [|now left].
        intros ->. now rewrite biasType_eqb_refl in E.
      * destruct (IH Hd' Hin) as [[Hne Hm]|[[-> (o1 & Ho1 & ->)]|[-> [Hf ->]]]].
        -- left. split; [exact Hne | now right].
        -- right. left. split; [reflexivity|]. exists o1.
           split; [now right | reflexivity].
        -- right. right. split; [reflexivity|]. split; [|reflexivity].
           cbn [map fst In]. intros [->|Hk]; [|contradiction].
           now rewrite biasType_eqb_refl in E.
Qed.

(** What the map [biasOccurrences] holds once the findings [done] have
    gone through it. *)
Lemma tally_step (m : list (BiasType * Occurrence))
  (done : list BiasPattern) (b : BiasPattern) :
  (NoDup (map fst m)
   /\ (forall k o, In (k, o) m ->
         count o = List.length (ofType k done)
         /\ severities o = map severity (ofType k done)
         /\ ofType k done <> [])
   /\ (forall f, In f done -> In (type f) (map fst m))) ->
  NoDup (map fst (tally (type b) (severity b) m))
  /\ (forall k o, In (k, o) (tally (type b) (severity b) m) ->
        count o = List.length (ofType k (done ++ [b]))
        /\ severities o = map severity (ofType k (done ++ [b]))
        /\ ofType k (done ++ [b]) <> [])
  /\ (forall f, In f (done ++ [b]) ->
        In (type f) (map fst (tally (type b) (severity b) m))).
Proof.
  intros (Hd & Hc & Hk). split; [now apply tally_NoDup|]. split.
  - intros k o Hin. rewrite ofType_snoc.
    destruct (@tally_In _ _ _ _ _ Hd Hin)
      as [[Hne Hm]|[[-> (o0 & Ho0 & ->)]|[-> [Hf ->]]]].
    + destruct (biasType_eqb (type b) k) eqn:E.
      * apply biasType_eqb_eq in E. congruence.
      * rewrite app_nil_r. now apply Hc.
    + rewrite biasType_eqb_refl. destruct (Hc _ _ Ho0) as (C1 & C2 & C3).
      cbn [count severities]. rewrite length_app, map_app, C1, C2.
      cbn [List.length map]. split; [lia|]. split; [reflexivity|].
      intros E. apply app_eq_nil in E as [_ E]. discriminate E.
    + rewrite biasType_eqb_refl.
      assert (E : ofType (type b) done = []).
      { destruct (ofType (type b) done) as [|f l] eqn:E; [reflexivity|].
        exfalso. apply Hf.
        assert (Hne : ofType (type b) done <> []) by (rewrite E; discriminate).
        apply ofType_found in Hne as (g & Hg & <-). now apply Hk. }
      rewrite E. cbn [app count severities List.length map].
      repeat split. discriminate.
  - intros f Hin. rewrite tally_keys. apply in_app_iff in Hin as [Hin|[<-|[]]].
    + right. now apply Hk.
    + now left.
Qed.

Lemma tally_all (fs : list BiasPattern) :
  forall (m : list (BiasType * Occurrence)) (done : list BiasPattern),
    (NoDup (map fst m)
     /\ (forall k o, In (k, o) m ->
           count o = List.length (ofType k done)
           /\ severities o = map severity (ofType k done)
           /\ ofType k done <> [])
     /\ (forall f, In f done -> In (type f) (map fst m))) ->
    let m' := fold_left (fun m0 b => tally (type b) (severity b) m0) fs m in
    NoDup (map fst m')
    /\ (forall k o, In (k, o) m' ->
          count o = List.length (ofType k (done ++ fs))
          /\ severities o = map severity (ofType k (done ++ fs))
          /\ ofType k (done ++ fs) <> [])
    /\ (forall f, In f (done ++ fs) -> In (type f) (map fst m')).
Proof.
  induction fs as [|b fs IH]; intros m done H; cbv zeta; cbn [fold_left].
  - rewrite app_nil_r. exact H.
  - replace (done ++ b :: fs) with ((done ++ [b]) ++ fs)
      by (rewrite <- app_assoc; reflexivity).
    apply IH. now apply tally_step.
Qed.

Lemma biasTypes_few (l : list BiasType) :
  NoDup l -> (List.length l <= 5)%nat.
Proof.
  intros H.
  apply (@NoDup_incl_length _ l
           [gender_exclusive; age_discriminatory; racial_proxy;
            cultural_insensitive; accessibility_barrier] H).
  intros [] _; cbn; tauto.
Qed.

Lemma insert_falling (x : TopIssue) (l : list TopIssue) :
  StronglySorted (fun a b => (occurrences b <= occurrences a)%nat) l ->
  StronglySorted (fun a b => (occurrences b <= occurrences a)%nat)
    (insert (fun a b => of_nat (occurrences b) - of_nat (occurrences a)) x l).
Proof.
  induction l as [|y l IH]; intros H; cbn [insert].
  - repeat constructor.
  - apply StronglySorted_inv in H as [Hl Hy].
    destruct (Qltb 0 (of_nat (occurrences y) - of_nat (occurrences x)))
      eqn:E.
    + apply Qltb_spec_lt in E.
      assert (Hxy : (occurrences x <= occurrences y)%nat).
      { destruct (Nat.le_gt_cases (occurrences x) (occurrences y))
          as [L|L]; [exact L|].
        assert (of_nat (occurrences y) <= of_nat (occurrences x))
          by (apply of_nat_le; lia).
        lra. }
      constructor; [now apply IH|].
      eapply Permutation_Forall;
        [apply Permutation_sym, insert_perm|].
      constructor; assumption.
    + apply Qltb_spec_le in E.
      assert (Hyx : (occurrences y <= occurrences x)%nat).
      { destruct (Nat.le_gt_cases (occurrences y) (occurrences x))
          as [L|L]; [exact L|].
        assert (of_nat (S (occurrences x)) <= of_nat (occurrences y))
          by (apply of_nat_le; lia).
        assert (of_nat (S (occurrences x)) == of_nat (occurrences x) + 1).
        { unfold of_nat. rewrite Nat2Z.inj_succ, <- Z.add_1_r, inject_Z_plus.
          reflexivity. }
        lra. }
      constructor; [constructor; assumption|].
      constructor; [exact Hyx|].
      eapply Forall_impl; [|exact Hy]. cbn. intros z Hz. lia.
Qed.

Lemma sort_falling (l : list TopIssue) :
  StronglySorted (fun a b => (occurrences b <= occurrences a)%nat)
    (sort (fun a b => of_nat (occurrences b) - of_nat (occurrences a)) l).
Proof.
  induction l as [|x l IH]; cbn [sort]; [constructor|].
  now apply insert_falling.
Qed.

(** X30: The top issues of a report: every bias type found in the window is
    listed, once, and no other (there are five types, so the cut at ten
    never drops one); the issues come in order of falling occurrences;
    the occurrences of an issue are the number of findings of its type in
    the window, its average severity is taken over the severities of
    those findings, and its regulations are the ones those findings
    carry, each once. *)
Theorem top_issues_list_every_type_found (daysBack : option Z)
  (c : Client) :
  let r := generateComplianceReport daysBack c in
  let found :=
    findingsOf
      (recentTrailsOf clock
         (match daysBack with Some d => d | None => 7%Z end) c) in
  StronglySorted (fun a b => (occurrences b <= occurrences a)%nat)
                 (topIssues r)
  /\ NoDup (map biasType (topIssues r))
  /\ (forall t, In t (map biasType (topIssues r))
                <-> exists f, In f found /\ type f = t)
  /\ Forall (fun issue =>
               let fs := ofType (biasType issue) found in
               occurrences issue = List.length fs
               /\ averageSeverity issue
                  = calculateAverageSeverity (map severity fs)
               /\ NoDup (regulationsTriggered issue)
               /\ forall reg,
                    In reg (regulationsTriggered issue)
                    <-> exists f, In f fs /\ In reg (regulation_risk f))
            (topIssues r).
Proof.
  cbv zeta. unfold generateComplianceReport. cbn [topIssues].
  set (recent := recentTrailsOf clock _ c).
  unfold topIssuesOf.
  set (mk := fun kv : BiasType * Occurrence => _).
  set (cmp := fun a b : TopIssue =>
              of_nat (occurrences b) - of_nat (occurrences a)).
  assert (Inv : NoDup (map fst (biasOccurrences recent))
                /\ (forall k o, In (k, o) (biasOccurrences recent) ->
                      count o = List.length (ofType k (findingsOf recent))
                      /\ severities o
                         = map severity (ofType k (findingsOf recent))
                      /\ ofType k (findingsOf recent) <> [])
                /\ (forall f, In f (findingsOf recent) ->
                      In (type f) (map fst (biasOccurrences recent)))).
  { unfold biasOccurrences.
    rewrite (@fold_left_flat_map _ _ _
               (fun m0 b => tally (type b) (severity b) m0) detectedBias).
    apply (@tally_all (findingsOf recent) [] []).
    split; [constructor|]. split; [intros k o []|intros f []]. }
  destruct Inv as (I1 & I2 & I3).
  set (m := biasOccurrences recent) in *.
  assert (Hkeys : map biasType (map mk m) = map fst m).
  { rewrite map_map. apply map_ext. intros kv. reflexivity. }
  pose proof (sort_perm cmp (map mk m)) as P.
  assert (Hall : firstn 10 (sort cmp (map mk m)) = sort cmp (map mk m)).
  { apply firstn_all2. rewrite (Permutation_length P), length_map.
    rewrite <- (length_map fst). pose proof (biasTypes_few I1). lia. }
  rewrite Hall.
  assert (Pk : Permutation (map biasType (sort cmp (map mk m))) (map fst m)).
  { rewrite <- Hkeys. now apply Permutation_map. }
  split; [apply sort_falling|]. split; [|split].
  - eapply Permutation_NoDup; [apply Permutation_sym, Pk | exact I1].
  - intros t. split.
    + intros Hin. apply (Permutation_in _ Pk) in Hin.
      apply in_map_iff in Hin as ([k o] & <- & Hko).
      destruct (I2 _ _ Hko) as (_ & _ & Hne).
      now apply ofType_found in Hne.
    + intros (f & Hf & <-).
      apply (Permutation_in _ (Permutation_sym Pk)). now apply I3.
  - eapply Permutation_Forall; [apply Permutation_sym, P|].
    apply Forall_forall. intros issue Hin.
    apply in_map_iff in Hin as ([k o] & <- & Hko).
    destruct (I2 _ _ Hko) as (C1 & C2 & _).
    subst mk. cbn [biasType occurrences averageSeverity regulationsTriggered
                   fst snd].
    split; [exact C1|]. split; [now rewrite C2|].
    split; [apply fold_set_add_NoDup; constructor|].
    intros reg. rewrite <- set_has_In, set_has_fold_add.
    cbn [set_has existsb orb]. rewrite existsb_exists. split.
    + intros (x & Hx & E). apply String.eqb_eq in E. subst x.
      apply in_flat_map in Hx as (f & Hf & Hreg). now exists f.
    + intros (f & Hf & Hreg). exists reg.
      split; [|apply String.eqb_refl].
      apply in_flat_map. now exists f.
Qed.
End TopIssues.
